(** * BookForge Studio: chunker, candidate generation, selection and the
      step pipeline, embedded from the Python sources.

    Python values are modelled as follows.  [str] is [string], one [ascii]
    per character (code points below 256); [int] is [Z]; [len] and indices
    are [nat]; a [dict] used as a map is a [gmap]; an exception is a value
    of [PyExn] carried by [result]. *)

From Stdlib Require Import ZArith QArith Ascii String List Lia Bool.
From stdpp Require Import base option list strings pretty gmap.

Local Open Scope string_scope.
Local Open Scope list_scope.

(** ** Exceptions and fallible results *)

Inductive PyExn : Type :=
| ValueError (msg : string)
| IndexError (msg : string)
| KeyError (key : string)
| TypeError (msg : string)
| ZeroDivisionError (msg : string)
| Exception (msg : string)
| HTTPException (status : Z) (detail : string).

(** [str(e)] *)
Definition exn_str (e : PyExn) : string :=
  match e with
  | ValueError msg | IndexError msg | TypeError msg | ZeroDivisionError msg
  | Exception msg => msg
  | KeyError key => "'" +:+ key +:+ "'"
  | HTTPException status detail => detail
  end.

Inductive result (A : Type) : Type :=
| Ok (a : A)
| Err (e : PyExn).
Arguments Ok {A} a.
Arguments Err {A} e.

Definition rbind {A B} (r : result A) (f : A -> result B) : result B :=
  match r with
  | Ok a => f a
  | Err e => Err e
  end.

Notation "'let?' x ':=' c 'in' k" := (rbind c (fun x => k))
  (at level 10, x name, c at level 100, k at level 200).

Fixpoint mapM_r {A B} (f : A -> result B) (l : list A) : result (list B) :=
  match l with
  | [] => Ok []
  | a :: l' => let? b := f a in let? bs := mapM_r f l' in Ok (b :: bs)
  end.

(** ** Python string primitives used by the chunker *)

Module PyStr.

(** [str.isspace] on one character, for code points below 256. *)
Definition isspace (c : ascii) : bool :=
  let n := N_of_ascii c in
  ((9 <=? n) && (n <=? 13) || (28 <=? n) && (n <=? 32)
   || (n =? 133) || (n =? 160))%N.

(** Membership in the literal [".!?"]. *)
Definition is_terminal (c : ascii) : bool :=
  (Ascii.eqb c "." || Ascii.eqb c "!" || Ascii.eqb c "?")%char.

Definition is_empty (s : string) : bool :=
  match s with
  | EmptyString => true
  | String _ _ => false
  end.

(** Longest prefix whose characters satisfy [p], and the rest. *)
Fixpoint span (p : ascii -> bool) (s : string) : string * string :=
  match s with
  | EmptyString => (EmptyString, EmptyString)
  | String c s' =>
      if p c then let '(a, b) := span p s' in (String c a, b)
      else (EmptyString, s)
  end.

Fixpoint lstrip (s : string) : string :=
  match s with
  | EmptyString => EmptyString
  | String c s' => if isspace c then lstrip s' else s
  end.

Fixpoint rstrip (s : string) : string :=
  match s with
  | EmptyString => EmptyString
  | String c s' =>
      match rstrip s' with
      | EmptyString => if isspace c then EmptyString else String c EmptyString
      | r => String c r
      end
  end.

(** [s.strip()] *)
Definition strip (s : string) : string := lstrip (rstrip s).

(** [s.split()]: maximal runs of non-whitespace characters. *)
Fixpoint split_go (cur : string) (s : string) : list string :=
  match s with
  | EmptyString => if is_empty cur then [] else [cur]
  | String c s' =>
      if isspace c
      then (if is_empty cur then split_go EmptyString s'
            else cur :: split_go EmptyString s')
      else split_go (cur +:+ String c EmptyString) s'
  end.

Definition split (s : string) : list string := split_go EmptyString s.

(** [text.find(sub)]: lowest index of an occurrence, [None] for [-1]. *)
Definition find (text sub : string) : option nat := String.index 0 sub text.

(** [s[n:]] *)
Fixpoint drop (n : nat) (s : string) : string :=
  match n, s with
  | O, _ => s
  | S n', String _ s' => drop n' s'
  | S _, EmptyString => EmptyString
  end.

(** Length of a match of the pattern [[.!?]+(?:\s+|$)] at the start of
    [s], if there is one.  The punctuation run is greedy; when the
    character after the maximal run is neither whitespace nor the end of
    the string, every shorter run is followed by a punctuation character
    and fails as well. *)
Definition match_boundary (s : string) : option nat :=
  let '(puncts, r1) := span is_terminal s in
  if is_empty puncts then None
  else match r1 with
       | EmptyString => Some (String.length puncts)
       | String c _ =>
           if isspace c
           then Some (String.length puncts + String.length (fst (span isspace r1)))
           else None
       end.

(** [re.split(r"[.!?]+(?:\s+|$)", s)]: [cur] is the piece being read and
    [skip] the number of characters of the current match still to pass. *)
Fixpoint re_split_go (cur : string) (skip : nat) (s : string) : list string :=
  match s with
  | EmptyString => [cur]
  | String c s' =>
      match skip with
      | S k => re_split_go cur k s'
      | O =>
          match match_boundary s with
          | Some n => cur :: re_split_go EmptyString (Nat.pred n) s'
          | None => re_split_go (cur +:+ String c EmptyString) 0 s'
          end
      end
  end.

Definition re_split (s : string) : list string := re_split_go EmptyString 0 s.

(** [sep.join(l)] *)
Fixpoint join (sep : string) (l : list string) : string :=
  match l with
  | [] => EmptyString
  | [x] => x
  | x :: l' => x +:+ sep +:+ join sep l'
  end.

End PyStr.

(** ** backend/core/utils/sentence_chunking.py *)

Module Chunking.

(** The punctuation characters found in [text] from [end_pos] on. *)
Definition punctuation_after (text : string) (end_pos : nat) : string :=
  fst (PyStr.span PyStr.is_terminal (PyStr.drop end_pos text)).

Definition split_into_sentences (text : string) : list string :=
  let sentences := PyStr.re_split (PyStr.strip text) in
  flat_map
    (fun sentence0 =>
       let sentence := PyStr.strip sentence0 in
       if PyStr.is_empty sentence then []
       else
         match PyStr.find text sentence with
         | Some original_pos =>
             let end_pos := (original_pos + String.length sentence)%nat in
             [sentence +:+ punctuation_after text end_pos]
         | None => [sentence]
         end)
    sentences.

Definition count_words (text : string) : nat := length (PyStr.split text).

Record MiniChunk : Type := mkMini {
  mc_text : string;
  mc_voice_clone : string;
  mc_voice_transcription : string
}.

Record Chunk : Type := mkChunk {
  texts : list string;
  voice_clones : list string;
  voice_transcriptions : list string
}.

Definition empty_chunk : Chunk := mkChunk [] [] [].

Definition singleton_chunk (m : MiniChunk) : Chunk :=
  mkChunk [mc_text m] [mc_voice_clone m] [mc_voice_transcription m].

(** [l[-1] += " " + sentence]; [IndexError] on an empty list. *)
Definition append_to_last (l : list string) (sentence : string)
  : result (list string) :=
  match reverse l with
  | [] => Err (IndexError "list index out of range")
  | last :: front => Ok (reverse front ++ [last +:+ " " +:+ sentence])
  end.

Definition speaker_eqb (a : string * string) (b : option (string * string))
  : bool :=
  match b with
  | Some b' => bool_decide (a = b')
  | None => false
  end.

Definition nonempty {A} (l : list A) : bool :=
  match l with
  | [] => false
  | _ :: _ => true
  end.

(** Mini-chunks of the text at index [i]: the voice lists are indexed
    once per sentence. *)
Definition mini_chunks_of (i : nat) (text : string)
    (vcs vts : list string) : result (list MiniChunk) :=
  mapM_r
    (fun sentence =>
       match vcs !! i with
       | None => Err (IndexError "list index out of range")
       | Some vc =>
           match vts !! i with
           | None => Err (IndexError "list index out of range")
           | Some vt => Ok (mkMini sentence vc vt)
           end
       end)
    (split_into_sentences text).

Fixpoint build_mini_chunks (i : nat) (txts vcs vts : list string)
  : result (list MiniChunk) :=
  match txts with
  | [] => Ok []
  | text :: rest =>
      let? ms := mini_chunks_of i text vcs vts in
      let? ms' := build_mini_chunks (S i) rest vcs vts in
      Ok (ms ++ ms')
  end.

(** State of the accumulation loop. *)
Record LoopState : Type := mkLoop {
  chunks : list Chunk;
  current_chunk : Chunk;
  current_word_count : nat;
  current_speaker_info : option (string * string)
}.

Definition loop_init : LoopState := mkLoop [] empty_chunk 0 None.

(** Append a sentence to a chunk as a new text entry. *)
Definition push_entry (c : Chunk) (m : MiniChunk) : Chunk :=
  mkChunk (texts c ++ [mc_text m])
          (voice_clones c ++ [mc_voice_clone m])
          (voice_transcriptions c ++ [mc_voice_transcription m]).

Definition merge_entry (c : Chunk) (m : MiniChunk) : result Chunk :=
  let? ts := append_to_last (texts c) (mc_text m) in
  Ok (mkChunk ts (voice_clones c) (voice_transcriptions c)).

(** One iteration of the loop over the mini-chunks. *)
Definition chunk_step (approximate_min_chunk_length : Z) (st : LoopState)
    (m : MiniChunk) : result LoopState :=
  let sentence_word_count := count_words (mc_text m) in
  let speaker_info := (mc_voice_clone m, mc_voice_transcription m) in
  if (Z.of_nat sentence_word_count >=? approximate_min_chunk_length)%Z then
    let st1 :=
      if nonempty (texts (current_chunk st))
      then mkLoop (chunks st ++ [current_chunk st]) empty_chunk 0 None
      else st in
    Ok (mkLoop (chunks st1 ++ [singleton_chunk m]) (current_chunk st1)
               (current_word_count st1) (current_speaker_info st1))
  else if (Z.of_nat (current_word_count st + sentence_word_count)
             >=? approximate_min_chunk_length)%Z
          && nonempty (texts (current_chunk st)) then
    let? c := (if speaker_eqb speaker_info (current_speaker_info st)
           then merge_entry (current_chunk st) m
           else Ok (push_entry (current_chunk st) m)) in
    Ok (mkLoop (chunks st ++ [c]) empty_chunk 0 None)
  else if speaker_eqb speaker_info (current_speaker_info st)
          && nonempty (texts (current_chunk st)) then
    let? c := merge_entry (current_chunk st) m in
    Ok (mkLoop (chunks st) c
               (current_word_count st + sentence_word_count)
               (current_speaker_info st))
  else
    Ok (mkLoop (chunks st) (push_entry (current_chunk st) m)
               (current_word_count st + sentence_word_count)
               (Some speaker_info)).

Fixpoint chunk_loop (min : Z) (st : LoopState) (ms : list MiniChunk)
  : result LoopState :=
  match ms with
  | [] => Ok st
  | m :: ms' => let? st' := chunk_step min st m in chunk_loop min st' ms'
  end.

(** The final flush after the loop. *)
Definition finish (st : LoopState) : list Chunk :=
  if nonempty (texts (current_chunk st))
  then chunks st ++ [current_chunk st]
  else chunks st.

(** Step 2 of [chunk_sentences]: combine mini-chunks into chunks. *)
Definition combine (min : Z) (ms : list MiniChunk) : result (list Chunk) :=
  let? st := chunk_loop min loop_init ms in Ok (finish st).

Definition chunk_sentences (txts vcs vts : list string)
    (approximate_min_chunk_length : Z) : result (list Chunk) :=
  if negb (length txts =? length vcs)%nat || negb (length txts =? length vts)%nat
  then Err (ValueError "All input lists must have the same length")
  else if negb (nonempty txts) then Ok []
  else
    let? mini_chunks := build_mini_chunks 0 txts vcs vts in
    if negb (nonempty mini_chunks) then Ok []
    else combine approximate_min_chunk_length mini_chunks.

End Chunking.

(** ** backend/core/data_types/step_context.py and the shared store *)

Module Ctx.

(** Values stored in the untyped [parameters] dict. *)
Inductive PyVal : Type :=
| VNone
| VBool (b : bool)
| VInt (z : Z)
| VStr (s : string).

#[global] Instance PyVal_eq_dec : EqDecision PyVal.
Proof. solve_decision. Defined.

(** Truth value of a Python object. *)
Definition truthy (v : PyVal) : bool :=
  match v with
  | VNone => false
  | VBool b => b
  | VInt z => negb (z =? 0)%Z
  | VStr s => negb (PyStr.is_empty s)
  end.

(** A dict object lives in the heap; variables and fields hold its
    address, so two names may denote one dict. *)
Definition loc : Type := nat.

Record StepContext : Type := mkContext {
  execution_id : option string;
  original_text_array : list string;
  multiple_speaker_text_array : list string;
  current_audio : option string;
  audio_sample_rate : option Z;
  temp_dir : string;
  output_files : list string;
  enable_parallel : bool;
  num_parallel_workers : Z;
  seed : Z;
  actual_seed : option Z;
  max_chars : Z;
  output_subfolder : string;
  output_file_name : string;
  voice_clone_paths : option (list string);
  audio_transcriptions : option (list string);
  num_candidates : Z;
  approximate_min_chunk_length : Z;
  is_multi_speaker : bool;
  audio_candidates : list string;
  debug_chunks : list Chunking.Chunk;
  debug_chunk_help_text : string;
  parameters : loc
}.

Definition with_current_audio (v : option string) (c : StepContext) : StepContext :=
  mkContext (execution_id c) (original_text_array c)
    (multiple_speaker_text_array c) v (audio_sample_rate c) (temp_dir c)
    (output_files c) (enable_parallel c) (num_parallel_workers c) (seed c)
    (actual_seed c) (max_chars c) (output_subfolder c) (output_file_name c)
    (voice_clone_paths c) (audio_transcriptions c) (num_candidates c)
    (approximate_min_chunk_length c) (is_multi_speaker c)
    (audio_candidates c) (debug_chunks c) (debug_chunk_help_text c)
    (parameters c).

Definition with_is_multi_speaker (v : bool) (c : StepContext) : StepContext :=
  mkContext (execution_id c) (original_text_array c)
    (multiple_speaker_text_array c) (current_audio c) (audio_sample_rate c)
    (temp_dir c) (output_files c) (enable_parallel c)
    (num_parallel_workers c) (seed c) (actual_seed c) (max_chars c)
    (output_subfolder c) (output_file_name c) (voice_clone_paths c)
    (audio_transcriptions c) (num_candidates c)
    (approximate_min_chunk_length c) v (audio_candidates c) (debug_chunks c)
    (debug_chunk_help_text c) (parameters c).

Definition with_audio_candidates (v : list string) (c : StepContext) : StepContext :=
  mkContext (execution_id c) (original_text_array c)
    (multiple_speaker_text_array c) (current_audio c) (audio_sample_rate c)
    (temp_dir c) (output_files c) (enable_parallel c)
    (num_parallel_workers c) (seed c) (actual_seed c) (max_chars c)
    (output_subfolder c) (output_file_name c) (voice_clone_paths c)
    (audio_transcriptions c) (num_candidates c)
    (approximate_min_chunk_length c) (is_multi_speaker c) v (debug_chunks c)
    (debug_chunk_help_text c) (parameters c).

Definition with_debug (chunks : list Chunking.Chunk) (help : string) (c : StepContext) : StepContext :=
  mkContext (execution_id c) (original_text_array c)
    (multiple_speaker_text_array c) (current_audio c) (audio_sample_rate c)
    (temp_dir c) (output_files c) (enable_parallel c)
    (num_parallel_workers c) (seed c) (actual_seed c) (max_chars c)
    (output_subfolder c) (output_file_name c) (voice_clone_paths c)
    (audio_transcriptions c) (num_candidates c)
    (approximate_min_chunk_length c) (is_multi_speaker c)
    (audio_candidates c) chunks help (parameters c).

Definition with_parameters (v : loc) (c : StepContext) : StepContext :=
  mkContext (execution_id c) (original_text_array c)
    (multiple_speaker_text_array c) (current_audio c) (audio_sample_rate c)
    (temp_dir c) (output_files c) (enable_parallel c)
    (num_parallel_workers c) (seed c) (actual_seed c) (max_chars c)
    (output_subfolder c) (output_file_name c) (voice_clone_paths c)
    (audio_transcriptions c) (num_candidates c)
    (approximate_min_chunk_length c) (is_multi_speaker c)
    (audio_candidates c) (debug_chunks c) (debug_chunk_help_text c) v.

(** [StepContext.set_audio] *)
Definition set_audio (audio_path : string) (c : StepContext) : StepContext :=
  with_current_audio (Some audio_path) c.

(** What a step can reach: the one context of the run, the dict objects,
    the files on disk with their sizes, and the supply of fresh names
    standing for [uuid.uuid4()]. *)
Record World : Type := mkWorld {
  ctx : StepContext;
  heap : gmap loc (gmap string PyVal);
  files : gmap string N;
  next_id : nat
}.

Definition with_ctx (f : StepContext -> StepContext) (w : World) : World :=
  mkWorld (f (ctx w)) (heap w) (files w) (next_id w).

Definition with_heap (h : gmap loc (gmap string PyVal)) (w : World) : World :=
  mkWorld (ctx w) h (files w) (next_id w).

Definition with_files (fs : gmap string N) (w : World) : World :=
  mkWorld (ctx w) (heap w) fs (next_id w).

(** The dict at an address (an address always comes from [alloc]). *)
Definition deref (w : World) (l : loc) : gmap string PyVal :=
  default ∅ (heap w !! l).

(** [dict(d)] or a dict display: a new object at a fresh address. *)
Definition alloc (d : gmap string PyVal) (w : World) : loc * World :=
  let l := fresh (dom (heap w)) in
  (l, with_heap (<[l := d]> (heap w)) w).

(** [d[key] = v] *)
Definition store (l : loc) (key : string) (v : PyVal) (w : World) : World :=
  with_heap (<[l := <[key := v]> (deref w l)]> (heap w)) w.

(** [d[key] += 1]: [KeyError] when the key is absent, [TypeError] when the
    value is not a number. *)
Definition increment (l : loc) (key : string) (w : World) : result World :=
  match deref w l !! key with
  | None => Err (KeyError key)
  | Some (VInt z) => Ok (store l key (VInt (z + 1)) w)
  | Some (VBool b) => Ok (store l key (VInt ((if b then 1 else 0) + 1)) w)
  | Some _ => Err (TypeError "unsupported operand type(s) for +=")
  end.

(** [d.get(key, default)] *)
Definition dict_get (d : gmap string PyVal) (key : string) (dflt : PyVal)
  : PyVal :=
  default dflt (d !! key).

(** [os.path.exists]: the empty path names no file. *)
Definition path_exists (w : World) (p : string) : bool :=
  negb (PyStr.is_empty p) && bool_decide (is_Some (files w !! p)).

(** [os.path.getsize] of an existing file. *)
Definition getsize (w : World) (p : string) : N :=
  default 0%N (files w !! p).

(** [uuid.uuid4().hex[:8]]: a name not handed out before; the counter
    stands for the random digits. *)
Definition uuid_hex (w : World) : string * World :=
  (pretty (next_id w), mkWorld (ctx w) (heap w) (files w) (S (next_id w))).

End Ctx.

(** ** backend/steps/whisper_check.py *)

Module WhisperCheck.
Import Ctx.

(** One entry of [candidate_scores]: path, similarity, transcript.  A
    similarity is a finite double, held as the rational it denotes. *)
Record Scored : Type := mkScored {
  cand_path : string;
  score : Q;
  transcribed : string
}.

(** The double written [0.95]: [0x1.e666666666666p-1]. *)
Definition threshold : Q := 0x1E666666666666 # (2 ^ 53).

(** [max(l, key=...)]: the first element whose key no later element
    exceeds; [ValueError] on an empty list. *)
Fixpoint max_from {A} (gt : A -> A -> bool) (best : A) (l : list A) : A :=
  match l with
  | [] => best
  | x :: l' => max_from gt (if gt x best then x else best) l'
  end.

Definition py_max {A} (gt : A -> A -> bool) (l : list A) : result A :=
  match l with
  | [] => Err (ValueError "max() arg is an empty sequence")
  | x :: l' => Ok (max_from gt x l')
  end.

Definition score_gt (a b : Scored) : bool := negb (Qle_bool (score a) (score b)).

Definition transcript_gt (a b : Scored) : bool :=
  (String.length (transcribed b) <? String.length (transcribed a))%nat.

(** Lines 133-181: the choice of the best candidate. *)
Definition select_best (use_longest_transcript_on_fail : bool)
    (candidate_scores : list Scored) : result Scored :=
  let valid_candidates :=
    filter (fun c => Qle_bool threshold (score c) = true) candidate_scores in
  if Chunking.nonempty valid_candidates then py_max score_gt valid_candidates
  else if use_longest_transcript_on_fail then py_max transcript_gt candidate_scores
  else py_max score_gt candidate_scores.

(** [re.sub(r"\[S[1-9]\]", "", s)] *)
Definition is_digit_1_9 (c : ascii) : bool :=
  let n := N_of_ascii c in (49 <=? n)%N && (n <=? 57)%N.

Fixpoint remove_speaker_tags (s : string) : string :=
  match s with
  | String "["%char (String "S"%char (String d (String "]"%char rest)) as s') =>
      if is_digit_1_9 d then remove_speaker_tags rest
      else String "["%char (remove_speaker_tags s')
  | String c s' => String c (remove_speaker_tags s')
  | EmptyString => EmptyString
  end.

(** [os.remove] inside the [try] of [cleanup_candidates]: a failure is
    logged and the file stays. *)
Definition try_remove (remove_fails : string -> bool) (p : string) (w : World)
  : World :=
  if path_exists w p
  then (if remove_fails p then w else with_files (delete p (files w)) w)
  else w.

Fixpoint cleanup_candidates (remove_fails : string -> bool)
    (candidates : list string) (exclude : option string) (w : World) : World :=
  match candidates with
  | [] => w
  | candidate_path :: rest =>
      let skip :=
        match exclude with
        | Some e => negb (PyStr.is_empty e) && bool_decide (candidate_path = e)
        | None => false
        end in
      if skip then cleanup_candidates remove_fails rest exclude w
      else cleanup_candidates remove_fails rest exclude
             (try_remove remove_fails candidate_path w)
  end.

Section Process.

(** The speech recogniser and the operating system are outside the
    repository: [load_whisper_backend] may fail to load a model,
    [whisper_check_mp] gives the similarity and transcript of a file for an
    expected text (its own failures already turned into [(0.0, "")]), and
    [remove_fails] tells for which paths [os.remove] raises. *)
Variable load_whisper_backend : PyVal -> PyVal -> result unit.
Variable whisper_check_mp : string -> string -> Q * string.
Variable remove_fails : string -> bool.

Definition expected_text (c : StepContext) : string :=
  PyStr.strip (remove_speaker_tags
                 (if Chunking.nonempty (original_text_array c)
                  then PyStr.join " " (original_text_array c)
                  else "")).

(** Lines 118-131: score each candidate; a missing or short file scores
    zero without being transcribed. *)
Definition score_candidates (w : World) (expected : string)
  : list Scored :=
  map (fun candidate_path =>
         if negb (path_exists w candidate_path)
            || (getsize w candidate_path <? 1024)%N
         then mkScored candidate_path 0 ""
         else let '(sc, tr) := whisper_check_mp candidate_path expected in
              mkScored candidate_path sc tr)
      (audio_candidates (ctx w)).

Definition process (w : World) : World * result unit :=
  if negb (Chunking.nonempty (audio_candidates (ctx w)))
  then (w, Err (Exception "No audio candidates available for whisper checking"))
  else
    let params := deref w (parameters (ctx w)) in
    let whisper_model := dict_get params "whisper_model" (VStr "tiny") in
    let use_faster_whisper := dict_get params "use_faster_whisper" (VBool false) in
    let use_longest_transcript_on_fail :=
      dict_get params "use_longest_transcript_on_fail" (VBool false) in
    match load_whisper_backend whisper_model use_faster_whisper with
    | Err e => (w, Err e)
    | Ok _ =>
        let candidate_scores := score_candidates w (expected_text (ctx w)) in
        match select_best (truthy use_longest_transcript_on_fail)
                          candidate_scores with
        | Err e => (w, Err e)
        | Ok best =>
            let w1 := with_ctx (set_audio (cand_path best)) w in
            let w2 := cleanup_candidates remove_fails
                        (audio_candidates (ctx w1)) (Some (cand_path best)) w1 in
            (with_ctx (with_audio_candidates []) w2, Ok tt)
        end
    end.

End Process.

End WhisperCheck.

(** ** Notifications, service calls and suspendable computations *)

Module Effects.
Import Ctx.

(** models/shared_models.py: the two request bodies. *)
Inductive Request : Type :=
| TextToSpeechRequest (text : string) (output_filepath : string)
    (parameters : gmap string PyVal) (audio_transcriptions : list string)
| TextToDialogueRequest (inputs : list (string * string))
    (output_filepath : string) (parameters : gmap string PyVal)
    (voice_clone_paths : list string) (audio_transcriptions : list string).

Definition request_parameters (r : Request) : gmap string PyVal :=
  match r with
  | TextToSpeechRequest _ _ ps _ => ps
  | TextToDialogueRequest _ _ ps _ _ => ps
  end.

(** The arguments of one [call_model_service]. *)
Record ServiceCall : Type := mkCall {
  call_port : Z;
  call_endpoint : string;
  call_payload : Request
}.

(** The JSON answer of a service; [resp_bytes] is the size of the audio
    file the service has written at [resp_output_filepath]. *)
Record Response : Type := mkResponse {
  resp_output_filepath : string;
  resp_bytes : N
}.

(** The snapshot appended to [step_results] after a step. *)
Record StepResult : Type := mkStepResult {
  sr_step_name : string;
  sr_metadata : gmap string PyVal;
  sr_multiple_speaker_text_array : list string;
  sr_has_audio : bool;
  sr_parameters_set : gset string;
  sr_output_files : list string
}.

(** [final_result]; the merged parameter dict is kept as its two sources,
    the copy of the untyped dict and the typed fields of the context. *)
Record FinalResult : Type := mkFinal {
  fr_multiple_speaker_text_array : list string;
  fr_output_files : list string;
  fr_parameters : gmap string PyVal;
  fr_typed_fields : StepContext;
  fr_step_results : list StepResult;
  fr_debug_chunks : list Chunking.Chunk;
  fr_debug_chunk_help_text : string
}.

(** backend/core/router_websocket.py: the three broadcast messages,
    without the time stamp and the derived percentage. *)
Inductive Event : Type :=
| execution_progress (execution_id : PyVal) (step_name : string)
    (step_num total_steps : PyVal) (output_subfolder : string)
| execution_complete (execution_id : string) (result : FinalResult)
    (output_subfolder : string)
| execution_error (execution_id : string) (error : string)
    (output_subfolder : string).

(** What a run does, in order: a message handed to the websocket manager,
    the invocation of a step's [process], something done inside the
    [process] of a step, a call of [chunk_sentences] by a candidate with the
    minimum length it passed and the chunks it got, a request sent to a
    model service by a candidate. *)
Inductive Obs : Type :=
| Sent (e : Event)
| Invoked (step_name : string)
| InStep (step_name : string) (o : Obs)
| Chunked (candidate_idx : nat) (min_words : Z) (chunks : list Chunking.Chunk)
| Requested (candidate_idx : nat) (call : ServiceCall).

(** A coroutine as the tree of its possible continuations: it reads and
    writes the shared world, hands a message to the websocket manager,
    leaves a mark in the record of the run, or awaits the answer of a model
    service. *)
Inductive Task (A : Type) : Type :=
| Return (a : A)
| Raise (e : PyExn)
| Get (k : World -> Task A)
| Put (w : World) (k : Task A)
| Emit (e : Event) (k : Task A)
| Mark (o : Obs) (k : Task A)
| Call (candidate_idx : nat) (c : ServiceCall) (k : result Response -> Task A).
Arguments Return {A} a.
Arguments Raise {A} e.
Arguments Get {A} k.
Arguments Put {A} w k.
Arguments Emit {A} e k.
Arguments Mark {A} o k.
Arguments Call {A} candidate_idx c k.

Fixpoint bind {A B} (t : Task A) (f : A -> Task B) : Task B :=
  match t with
  | Return a => f a
  | Raise e => Raise e
  | Get k => Get (fun w => bind (k w) f)
  | Put w k => Put w (bind k f)
  | Emit e k => Emit e (bind k f)
  | Mark o k => Mark o (bind k f)
  | Call i c k => Call i c (fun r => bind (k r) f)
  end.

Notation "'do' x <- t ; k" := (bind t (fun x => k))
  (at level 10, x name, t at level 100, k at level 200).
Notation "'do' ' p <- t ; k" := (bind t (fun x => match x with p => k end))
  (at level 10, p pattern, t at level 100, k at level 200).

Definition lift {A} (r : result A) : Task A :=
  match r with
  | Ok a => Return a
  | Err e => Raise e
  end.

Definition get_world : Task World := Get Return.
Definition modify (f : World -> World) : Task unit :=
  Get (fun w => Put (f w) (Return tt)).
Definition read_ctx : Task StepContext := Get (fun w => Return (ctx w)).
Definition emit (e : Event) : Task unit := Emit e (Return tt).
Definition mark (o : Obs) : Task unit := Mark o (Return tt).

(** [for x in l: body x], leaving at the first exception. *)
Fixpoint for_each {A} (l : list A) (body : A -> Task unit) : Task unit :=
  match l with
  | [] => Return tt
  | x :: l' => do _ <- body x; for_each l' body
  end.

(** [[f x for x in l]] *)
Fixpoint map_task {A B} (f : A -> Task B) (l : list A) : Task (list B) :=
  match l with
  | [] => Return []
  | x :: l' => do y <- f x; do ys <- map_task f l'; Return (y :: ys)
  end.

(** [d[key]] *)
Definition dict_item (l : loc) (key : string) : Task PyVal :=
  Get (fun w => match deref w l !! key with
                | Some v => Return v
                | None => Raise (KeyError key)
                end).

Definition dict_increment (l : loc) (key : string) : Task unit :=
  Get (fun w => match increment l key w with
                | Ok w' => Put w' (Return tt)
                | Err e => Raise e
                end).

Definition dict_store (l : loc) (key : string) (v : PyVal) : Task unit :=
  modify (store l key v).

Definition new_dict (d : gmap string PyVal) : Task loc :=
  Get (fun w => let '(l, w') := alloc d w in Put w' (Return l)).

Definition fresh_hex : Task string :=
  Get (fun w => let '(h, w') := uuid_hex w in Put w' (Return h)).

(** [broadcast_execution_progress]: the percentage is computed before
    anything is sent. *)
Definition broadcast_execution_progress (execution_id : PyVal)
    (step_name : string) (step_num total_steps : PyVal)
    (output_subfolder : string) : Task unit :=
  match step_num, total_steps with
  | (VInt _ | VBool _), VInt 0 | (VInt _ | VBool _), VBool false =>
      Raise (ZeroDivisionError "division by zero")
  | (VInt _ | VBool _), (VInt _ | VBool _) =>
      emit (execution_progress execution_id step_name step_num total_steps
                               output_subfolder)
  | _, _ => Raise (TypeError "unsupported operand type(s) for /")
  end.

Definition broadcast_execution_error (execution_id error output_subfolder : string)
  : Task unit :=
  emit (execution_error execution_id error output_subfolder).

Definition broadcast_execution_complete (execution_id : string)
    (result : FinalResult) (output_subfolder : string) : Task unit :=
  emit (execution_complete execution_id result output_subfolder).

(** [try: t except Exception as e: h e] *)
Fixpoint try_except {A} (t : Task A) (h : PyExn -> Task A) : Task A :=
  match t with
  | Return a => Return a
  | Raise e => h e
  | Get k => Get (fun w => try_except (k w) h)
  | Put w k => Put w (try_except k h)
  | Emit e k => Emit e (try_except k h)
  | Mark o k => Mark o (try_except k h)
  | Call i c k => Call i c (fun r => try_except (k r) h)
  end.

(** A task between two turns of the event loop. *)
Inductive Suspended (A : Type) : Type :=
| Finished (r : result A)
| Ready (t : Task A)
| Waiting (c : ServiceCall) (k : result Response -> Task A).
Arguments Finished {A} r.
Arguments Ready {A} t.
Arguments Waiting {A} c k.

Section Interpreters.

(** The environment of a run: what each model service answers, and
    whether a websocket client is connected (only then does a broadcast
    give control back to the event loop). *)
Variable backend : ServiceCall -> result Response.
Variable connected : bool.

(** The service has written its output file when it answers. *)
Definition deliver (r : result Response) (w : World) : World :=
  match r with
  | Ok resp => with_files (<[resp_output_filepath resp := resp_bytes resp]> (files w)) w
  | Err _ => w
  end.

(** A task run alone to its end: every awaited answer is taken from the
    environment at once. *)
Fixpoint run {A} (t : Task A) (w : World) : list Obs * World * result A :=
  match t with
  | Return a => ([], w, Ok a)
  | Raise e => ([], w, Err e)
  | Get k => run (k w) w
  | Put w' k => run k w'
  | Emit e k => let '(tr, w', r) := run k w in (Sent e :: tr, w', r)
  | Mark o k => let '(tr, w', r) := run k w in (o :: tr, w', r)
  | Call i c k =>
      let r := backend c in
      let '(tr, w', res) := run (k r) (deliver r w) in
      (Requested i c :: tr, w', res)
  end.

(** Run a task until it gives control back: at the end, at a request to
    a service, or after a broadcast when a client is connected. *)
Fixpoint advance {A} (t : Task A) (w : World) : list Obs * World * Suspended A :=
  match t with
  | Return a => ([], w, Finished (Ok a))
  | Raise e => ([], w, Finished (Err e))
  | Get k => advance (k w) w
  | Put w' k => advance k w'
  | Emit e k =>
      if connected then ([Sent e], w, Ready k)
      else let '(tr, w', s) := advance k w in (Sent e :: tr, w', s)
  | Mark o k => let '(tr, w', s) := advance k w in (o :: tr, w', s)
  | Call i c k => ([Requested i c], w, Waiting c k)
  end.

(** One turn given to a suspended task. *)
Definition resume {A} (s : Suspended A) (w : World)
  : list Obs * World * Suspended A :=
  match s with
  | Finished r => ([], w, s)
  | Ready t => advance t w
  | Waiting c k => let r := backend c in advance (k r) (deliver r w)
  end.

(** A suspended task run alone to its end. *)
Definition finish_task {A} (s : Suspended A) (w : World)
  : list Obs * World * result A :=
  match s with
  | Finished r => ([], w, r)
  | Ready t => run t w
  | Waiting c k => let r := backend c in run (k r) (deliver r w)
  end.

(** The turns named by [schedule], one task index per turn. *)
Fixpoint turns {A} (schedule : list nat) (tasks : list (Suspended A)) (w : World)
  : list Obs * World * list (Suspended A) :=
  match schedule with
  | [] => ([], w, tasks)
  | i :: schedule' =>
      match tasks !! i with
      | None => turns schedule' tasks w
      | Some s =>
          let '(tr, w1, s') := resume s w in
          let '(tr', w2, tasks') := turns schedule' (<[i := s']> tasks) w1 in
          (tr ++ tr', w2, tasks')
      end
  end.

(** Whatever is left is run task after task. *)
Fixpoint drain {A} (tasks : list (Suspended A)) (w : World)
  : list Obs * World * list (result A) :=
  match tasks with
  | [] => ([], w, [])
  | s :: tasks' =>
      let '(tr, w1, r) := finish_task s w in
      let '(tr', w2, rs) := drain tasks' w1 in
      (tr ++ tr', w2, r :: rs)
  end.

(** [asyncio.gather] with [return_exceptions=True]: the tasks take
    turns in the order [schedule] gives, an order the arrival of the
    answers decides; the result list is in task order. *)
Definition gather {A} (schedule : list nat) (tasks : list (Task A)) (w : World)
  : list Obs * World * list (result A) :=
  let '(tr, w1, ss) := turns schedule (map Ready tasks) w in
  let '(tr', w2, rs) := drain ss w1 in
  (tr ++ tr', w2, rs).

End Interpreters.

End Effects.

(** ** backend/core/utils/generation_utils.py *)

Module Generation.
Import Ctx Effects.

(** backend/core/utils/model_ports_config.py *)
Definition MODEL_SERVICE_PORTS : list (string * Z) :=
  [("dia", 8003); ("chatterbox", 8004); ("higgs", 8005); ("vibevoice", 8006);
   ("local_llm", 11434); ("mock", 8999)]%Z.

Fixpoint assoc (key : string) (l : list (string * Z)) : option Z :=
  match l with
  | [] => None
  | (k, v) :: l' => if bool_decide (k = key) then Some v else assoc key l'
  end.

(** [os.path.join(a, b)] for a relative [b]. *)
Definition path_join (a b : string) : string :=
  if PyStr.is_empty a then b
  else match String.get (String.length a - 1) a with
       | Some "/"%char => a +:+ b
       | _ => a +:+ "/" +:+ b
       end.

(** [x or 20] on an int. *)
Definition or_20 (x : Z) : Z := if (x =? 0)%Z then 20%Z else x.

Section Env.

(** Outside the repository: the base64 codec of the standard library and
    the two environment variables that switch the test modes. *)
Variable b64encode : string -> string.
Variable b64decode : string -> result string.
Variable env_TESTING_UI : bool.
Variable env_TESTING : bool.

Definition get_testing_mode : option string :=
  if env_TESTING_UI then Some "TESTING_UI"
  else if env_TESTING then Some "TESTING"
  else None.

Definition get_model_service_port (model_name : string) : result Z :=
  match get_testing_mode with
  | Some _ =>
      match assoc "mock" MODEL_SERVICE_PORTS with
      | Some port => Ok port
      | None => Err (KeyError "mock")
      end
  | None =>
      match assoc model_name MODEL_SERVICE_PORTS with
      | Some port => Ok port
      | None =>
          Err (ValueError
                 ("Unknown model: " +:+ model_name +:+
                  ". Available: ['dia', 'chatterbox', 'higgs', 'vibevoice', 'local_llm', 'mock']"))
      end
  end.

(** backend/core/utils/url_utils.py *)
Definition encode_filepath_for_url (file_path : string) : string :=
  if PyStr.is_empty file_path then "" else b64encode file_path.

Definition decode_filepath_from_url (encoded_path : string) : result string :=
  if PyStr.is_empty encoded_path then Ok ""
  else match b64decode encoded_path with
       | Ok s => Ok s
       | Err _ => Err (ValueError ("Invalid encoded file path: " +:+ encoded_path))
       end.

Definition add_file_prefix (file_path : string) : string :=
  if env_TESTING then file_path else "files/" +:+ file_path.

Definition build_tts_request (txts voice_paths audio_transcriptions : list string)
  : Task Request :=
  do hex <- fresh_hex;
  do c <- read_ctx;
  let candidate_filename := "candidate_" +:+ hex +:+ ".wav" in
  let output_path := path_join (temp_dir c) candidate_filename in
  match txts with
  | [] => Raise (IndexError "list index out of range")
  | text :: _ =>
      Get (fun w =>
             Return (TextToSpeechRequest text output_path
                       (deref w (parameters (ctx w))) audio_transcriptions))
  end.

Definition build_dialogue_request (txts voice_paths audio_transcriptions : list string)
  : Task Request :=
  do hex <- fresh_hex;
  do c <- read_ctx;
  let candidate_filename := "dialogue_" +:+ hex +:+ ".wav" in
  let output_path := path_join (temp_dir c) candidate_filename in
  let inputs := zip txts voice_paths in
  Get (fun w =>
         Return (TextToDialogueRequest inputs output_path
                   (deref w (parameters (ctx w))) voice_paths
                   audio_transcriptions)).

(** [librosa.load] of every answer's file, then [np.concatenate]; the
    audio itself is kept as its size only. *)
Definition load_and_concatenate (output_filepaths : list string) : Task N :=
  do sizes <- map_task
                (fun fp => Get (fun w =>
                   if path_exists w fp then Return (getsize w fp)
                   else Raise (Exception ("No such file: " +:+ fp))))
                output_filepaths;
  match sizes with
  | [] => Raise (ValueError "need at least one array to concatenate")
  | _ => Return (foldr N.add 0%N sizes)
  end.

(** Lines 216-254: the body of the loop over the chunks.  The context's
    [parameters] is looked up again at each use. *)
Definition generate_chunk (port : Z) (endpoint : string)
    (its_definitely_multi_speaker : bool) (original_params : loc)
    (candidate_idx n_chunks : nat) (chunk_idx : nat) (chunk : Chunking.Chunk)
  : Task Response :=
  do c <- read_ctx;
  do _ <- dict_increment (parameters c) "step_index";
  do _ <- dict_increment original_params "step_index";
  do c <- read_ctx;
  do execution_id <- dict_item (parameters c) "execution_id";
  do step_index <- dict_item (parameters c) "step_index";
  do total_steps <- dict_item (parameters c) "total_steps";
  do _ <- broadcast_execution_progress execution_id
            ("Generating chunk " +:+ pretty (chunk_idx + 1)%nat +:+ " of "
             +:+ pretty n_chunks)
            step_index total_steps (output_subfolder c);
  do payload <-
    (if its_definitely_multi_speaker
     then build_dialogue_request (Chunking.texts chunk)
            (Chunking.voice_clones chunk) (Chunking.voice_transcriptions chunk)
     else build_tts_request (Chunking.texts chunk)
            (Chunking.voice_clones chunk) (Chunking.voice_transcriptions chunk));
  Call candidate_idx (mkCall port endpoint payload) lift.

Fixpoint generate_chunks (port : Z) (endpoint : string) (multi : bool)
    (original_params : loc) (candidate_idx n_chunks : nat) (chunk_idx : nat)
    (chunks : list Chunking.Chunk) : Task (list Response) :=
  match chunks with
  | [] => Return []
  | chunk :: rest =>
      do response <- generate_chunk port endpoint multi original_params
                       candidate_idx n_chunks chunk_idx chunk;
      do responses <- generate_chunks port endpoint multi original_params
                        candidate_idx n_chunks (S chunk_idx) rest;
      Return (response :: responses)
  end.

(** The chunk sequence of a candidate: the texts passed in, the voice
    paths of the context, and the context's minimum length or 20. *)
Definition candidate_chunks (c : StepContext) (voice_paths : list string)
    (txts audio_transcriptions : list string) : result (list Chunking.Chunk) :=
  Chunking.chunk_sentences txts voice_paths audio_transcriptions
    (or_20 (approximate_min_chunk_length c)).

Definition generate_single_candidate_via_service (model_name : string)
    (txts voice_paths0 audio_transcriptions : list string) (candidate_idx : nat)
  : Task (string * list Chunking.Chunk * string) :=
  do port <- lift (get_model_service_port model_name);
  do c <- read_ctx;
  do candidate_params <- Get (fun w => new_dict (deref w (parameters c)));
  do _ <- match actual_seed c with
          | Some s => dict_store candidate_params "seed"
                        (VInt (s + Z.of_nat candidate_idx))
          | None => Return tt
          end;
  let original_params := parameters c in
  do _ <- modify (with_ctx (with_parameters candidate_params));
  do voice_paths <-
    match voice_clone_paths c with
    | Some vcps => Return (map (fun vcp => encode_filepath_for_url (add_file_prefix vcp)) vcps)
    | None => Raise (TypeError "'NoneType' object is not iterable")
    end;
  let its_definitely_multi_speaker :=
    is_multi_speaker c && (1 <? length txts)%nat in
  do endpoint <-
    (if its_definitely_multi_speaker then Return "/v1/text-to-dialogue"
     else match voice_paths with
          | [] => Raise (Exception "No voice clone path provided for single-speaker TTS")
          | voice_path :: _ => Return ("/v1/text-to-speech/" +:+ voice_path)
          end);
  do sentence_chunks <-
    lift (candidate_chunks c voice_paths txts audio_transcriptions);
  do _ <- mark (Chunked candidate_idx (or_20 (approximate_min_chunk_length c))
                  sentence_chunks);
  do responses <- generate_chunks port endpoint its_definitely_multi_speaker
                    original_params candidate_idx (length sentence_chunks) 0
                    sentence_chunks;
  do concatenated <- load_and_concatenate (map resp_output_filepath responses);
  do hex <- fresh_hex;
  do c1 <- read_ctx;
  let temp_file_path :=
    path_join (temp_dir c1) ("concatenated_" +:+ hex +:+ ".wav") in
  do _ <- modify (fun w => with_files (<[temp_file_path := concatenated]> (files w)) w);
  do _ <- modify (with_ctx (with_parameters original_params));
  do c2 <- read_ctx;
  Return (temp_file_path, sentence_chunks,
          "Using an approximate chunk size of "
          +:+ pretty (approximate_min_chunk_length c2) +:+ " words").

(** The environment of a run (see [Effects.run] and [Effects.gather]). *)
Variable backend : ServiceCall -> result Response.
Variable connected : bool.

(** Lines 332-341: keep the candidates whose task succeeded. *)
Fixpoint collect_successful
    (awaited_responses : list (result (string * list Chunking.Chunk * string)))
    (candidates : list string) (debug_chunks : option (list Chunking.Chunk))
    (debug_chunk_help_text : option string)
  : list string * option (list Chunking.Chunk) * option string :=
  match awaited_responses with
  | [] => (candidates, debug_chunks, debug_chunk_help_text)
  | Err _ :: rest =>
      collect_successful rest candidates debug_chunks debug_chunk_help_text
  | Ok (result, chunks, help_text) :: rest =>
      collect_successful rest (candidates ++ [result])
        (Some (default chunks debug_chunks))
        (Some (default help_text debug_chunk_help_text))
  end.

(** Lines 347-362: one candidate after the other; an exception of a
    candidate leaves the loop and the function. *)
Fixpoint generate_sequentially (model_name : string)
    (txts voice_paths audio_transcriptions : list string)
    (candidate_indices : list nat)
    (candidates : list string) (debug_chunks : option (list Chunking.Chunk))
    (debug_chunk_help_text : option string) (w : World)
  : list Obs * World
    * result (list string * option (list Chunking.Chunk) * option string) :=
  match candidate_indices with
  | [] => ([], w, Ok (candidates, debug_chunks, debug_chunk_help_text))
  | candidate_idx :: rest =>
      let '(tr, w1, awaited_response) :=
        run backend
            (generate_single_candidate_via_service model_name txts voice_paths
               audio_transcriptions candidate_idx) w in
      match awaited_response with
      | Err e => (tr, w1, Err e)
      | Ok (result, chunks, help_text) =>
          let '(tr', w2, r) :=
            generate_sequentially model_name txts voice_paths
              audio_transcriptions rest (candidates ++ [result])
              (Some (default chunks debug_chunks))
              (Some (default help_text debug_chunk_help_text)) w1 in
          (tr ++ tr', w2, r)
      end
  end.

(** Lines 364-384: publish the candidates on the context. *)
Definition update_context (candidates : list string)
    (debug_chunks : option (list Chunking.Chunk))
    (debug_chunk_help_text : option string) (w : World) : World * result unit :=
  let w1 := with_ctx (with_audio_candidates candidates) w in
  match debug_chunks with
  | None => (w1, Err (TypeError "'NoneType' object is not iterable"))
  | Some chunks =>
      match mapM_r
              (fun chunk =>
                 let? vcs := mapM_r decode_filepath_from_url
                               (Chunking.voice_clones chunk) in
                 Ok (Chunking.mkChunk (Chunking.texts chunk) vcs
                       (Chunking.voice_transcriptions chunk)))
              chunks with
      | Err e => (w1, Err e)
      | Ok readable =>
          let w2 := with_ctx (with_debug readable
                                (default "" debug_chunk_help_text)) w1 in
          if Chunking.nonempty candidates then (w2, Ok tt)
          else (w2, Err (Exception "No valid candidates generated"))
      end
  end.

(** [range(n)] *)
Definition py_range (n : Z) : list nat := seq 0 (Z.to_nat n).

Definition generate_candidates_with_service_calls (schedule : list nat)
    (model_name : string) (txts voice_paths audio_transcriptions : list string)
    (w : World) : list Obs * World * result unit :=
  if negb ((length txts =? length voice_paths)%nat
           && (length voice_paths =? length audio_transcriptions)%nat)
  then ([], w, Err (Exception
                      "Lengths of texts, voice_paths, and audio_transcriptions must match."))
  else
    let n := num_candidates (ctx w) in
    if enable_parallel (ctx w) && (1 <? n)%Z then
      let tasks :=
        map (generate_single_candidate_via_service model_name txts voice_paths
               audio_transcriptions) (py_range n) in
      let '(tr, w1, awaited_responses) :=
        gather backend connected schedule tasks w in
      let '(candidates, debug_chunks, help_text) :=
        collect_successful awaited_responses [] None None in
      let '(w2, r) := update_context candidates debug_chunks help_text w1 in
      (tr, w2, r)
    else
      let '(tr, w1, r) :=
        generate_sequentially model_name txts voice_paths audio_transcriptions
          (py_range n) [] None None w in
      match r with
      | Err e => (tr, w1, Err e)
      | Ok (candidates, debug_chunks, help_text) =>
          let '(w2, r') := update_context candidates debug_chunks help_text w1 in
          (tr, w2, r')
      end.

End Env.

End Generation.

(** ** backend/core/router_steps.py *)

Module Router.
Import Ctx Effects.

(** Code that is not interleaved with anything on its world: it ends
    with a record of what it did, a world and a value or an exception. *)
Definition Run (A : Type) : Type := World -> list Obs * World * result A.

Definition ret {A} (a : A) : Run A := fun w => ([], w, Ok a).

Definition raise {A} (e : PyExn) : Run A := fun w => ([], w, Err e).

Definition seq_run {A B} (m : Run A) (f : A -> Run B) : Run B :=
  fun w =>
    let '(tr, w1, r) := m w in
    match r with
    | Ok a => let '(tr', w2, r') := f a w1 in (tr ++ tr', w2, r')
    | Err e => (tr, w1, Err e)
    end.

(** [try: m except Exception as e: h e] *)
Definition try_run {A} (m : Run A) (h : PyExn -> Run A) : Run A :=
  fun w =>
    let '(tr, w1, r) := m w in
    match r with
    | Ok a => (tr, w1, Ok a)
    | Err e => let '(tr', w2, r') := h e w1 in (tr ++ tr', w2, r')
    end.

Notation "'run!' x <- m ; k" := (seq_run m (fun x => k))
  (at level 10, x name, m at level 100, k at level 200).

Definition reads {A} (f : World -> A) : Run A := fun w => ([], w, Ok (f w)).
Definition update (f : World -> World) : Run unit := fun w => ([], f w, Ok tt).
Definition note (o : Obs) : Run unit := fun w => ([o], w, Ok tt).
Definition of_result {A} (r : result A) : Run A := fun w => ([], w, r).

(** The [process] of a step, awaited by the engine: what it does is
    recorded as done inside that step. *)
Definition in_step {A} (step_name : string) (m : Run A) : Run A :=
  fun w => let '(tr, w', r) := m w in (map (InStep step_name) tr, w', r).

(** An entry of [loaded_steps]. *)
Record StepInfo : Type := mkStepInfo {
  metadata : gmap string PyVal;
  process : Run unit;
  file_path : string;
  source : string
}.

(** [StepExecutionRequest] *)
Record StepExecutionRequest : Type := mkRequest {
  req_texts : option (list string);
  req_steps : list string;
  req_voice_clone_paths : list string;
  req_audio_transcriptions : list string;
  req_parameters : option (gmap string PyVal);
  req_output_subfolder : string;
  req_output_file_name : string
}.

(** The names of the typed fields of [StepContext]. *)
Definition typed_fields : list string :=
  ["execution_id"; "original_text_array"; "multiple_speaker_text_array";
   "current_audio"; "audio_sample_rate"; "temp_dir"; "output_files";
   "enable_parallel"; "num_parallel_workers"; "seed"; "actual_seed";
   "max_chars"; "output_subfolder"; "output_file_name"; "voice_clone_paths";
   "audio_transcriptions"; "num_candidates"; "approximate_min_chunk_length";
   "is_multi_speaker"; "audio_candidates"; "debug_chunks";
   "debug_chunk_help_text"; "parameters"].

Definition is_typed (key : string) : bool := bool_decide (key ∈ typed_fields).

Section Engine.

(** The registry at the time of the run, and what lies outside the
    repository: the answers of the model services, and the construction of
    the context by pydantic from the texts, the typed entries of the
    request parameters, the voice lists, the execution id and the two
    output names (it validates the typed entries and may reject them). *)
Variable loaded_steps : gmap string StepInfo.
Variable backend : ServiceCall -> result Response.
Variable pydantic_init :
  list string -> gmap string PyVal -> option (list string) ->
  option (list string) -> option string -> string -> string ->
  result StepContext.

Definition lift_task {A} (t : Task A) : Run A := run backend t.

Definition nonempty_opt (l : option (list string)) : option (list string) :=
  match l with
  | Some (_ :: _) => l
  | _ => None
  end.

Definition nonempty_str (s : option string) : option string :=
  match s with
  | Some (String _ _) => s
  | _ => None
  end.

(** [StepContext.from_request_parameters]: the new context replaces the
    one of the world; its [parameters] is a new dict that receives the
    untyped entries. *)
Definition from_request_parameters (txts : list string)
    (output_subfolder output_file_name : string)
    (params : option (gmap string PyVal))
    (voice_clone_paths audio_transcriptions : option (list string))
    (execution_id : option string) : Run unit :=
  let given := default ∅ params in
  let init_params := filter (fun kv => is_typed (fst kv) = true) given in
  run! context <- of_result
                    (pydantic_init txts init_params
                       (nonempty_opt voice_clone_paths)
                       (nonempty_opt audio_transcriptions)
                       (nonempty_str execution_id)
                       output_subfolder output_file_name);
  run! l <- lift_task (new_dict (filter (fun kv => is_typed (fst kv) = false) given));
  update (with_ctx (fun _ => with_parameters l context)).

(** [len(x)] of an optional list. *)
Definition len_opt (l : option (list string)) : result (list string) :=
  match l with
  | Some l' => Ok l'
  | None => Err (TypeError "object of type 'NoneType' has no len()")
  end.

(** Lines 238-248: the estimate of the number of progress messages. *)
Definition estimate_total_steps (steps txts : list string)
    (voice_clone_paths audio_transcriptions : option (list string))
  : Run Z :=
  run! c <- reads ctx;
  run! vcs <- of_result (len_opt voice_clone_paths);
  run! vts <- of_result (len_opt audio_transcriptions);
  run! chunks <- of_result
                   (Chunking.chunk_sentences txts vcs vts
                      (Generation.or_20 (approximate_min_chunk_length c)));
  ret (Z.of_nat (length steps)
       + Z.of_nat (length chunks) * num_candidates c)%Z.

(** Lines 257-286: the body of the [try] for one step. *)
Definition execute_step (execution_id : string) (total_steps : Z)
    (output_subfolder : string) (step_name : string) : Run StepResult :=
  run! c <- reads ctx;
  run! _ <- lift_task (dict_increment (parameters c) "step_index");
  run! c <- reads ctx;
  run! step_index <- lift_task (dict_item (parameters c) "step_index");
  run! _ <- lift_task (broadcast_execution_progress (VStr execution_id)
                         step_name step_index (VInt total_steps)
                         output_subfolder);
  run! step_info <- of_result (match loaded_steps !! step_name with
                               | Some info => Ok info
                               | None => Err (KeyError step_name)
                               end);
  run! _ <- note (Invoked step_name);
  run! _ <- in_step step_name (process step_info);
  run! w <- reads id;
  ret (mkStepResult step_name (metadata step_info)
         (multiple_speaker_text_array (ctx w))
         (bool_decide (is_Some (current_audio (ctx w))))
         (dom (deref w (parameters (ctx w))))
         (output_files (ctx w))).

(** Lines 256-298: the loop; [None] stands for the [return] taken in the
    [except] branch. *)
Fixpoint execute_steps (execution_id : string) (total_steps : Z)
    (output_subfolder : string) (steps : list string)
    (step_results : list StepResult) : Run (option (list StepResult)) :=
  match steps with
  | [] => ret (Some step_results)
  | step_name :: rest =>
      run! outcome <-
        try_run
          (run! step_result <- execute_step execution_id total_steps
                                 output_subfolder step_name;
           ret (Some step_result))
          (fun e =>
             let error_msg := "Error executing step '" +:+ step_name +:+ "': "
                              +:+ exn_str e in
             run! _ <- lift_task (broadcast_execution_error execution_id
                                    error_msg output_subfolder);
             ret None);
      match outcome with
      | Some step_result =>
          execute_steps execution_id total_steps output_subfolder rest
            (step_results ++ [step_result])
      | None => ret None
      end
  end.

(** Lines 213-253: the context of the run and its progress counters. *)
Definition prepare_context (execution_id : string) (txts steps : list string)
    (output_file_name output_subfolder : string)
    (params : option (gmap string PyVal))
    (voice_clone_paths audio_transcriptions : option (list string))
  : Run Z :=
  run! _ <- from_request_parameters txts output_subfolder output_file_name
              params voice_clone_paths audio_transcriptions
              (Some execution_id);
  run! _ <- match steps with
            | [] => ret tt
            | first :: _ =>
                run! first_step_info <-
                  of_result (match loaded_steps !! first with
                             | Some info => Ok info
                             | None => Err (KeyError first)
                             end);
                update (with_ctx (with_is_multi_speaker
                                    (truthy (dict_get (metadata first_step_info)
                                               "multi-speaker" (VBool false)))))
            end;
  run! total_steps <- estimate_total_steps steps txts voice_clone_paths
                        audio_transcriptions;
  run! c <- reads ctx;
  run! _ <- lift_task (dict_store (parameters c) "step_index" (VInt 0));
  run! _ <- lift_task (dict_store (parameters c) "execution_id" (VStr execution_id));
  run! _ <- lift_task (dict_store (parameters c) "total_steps" (VInt total_steps));
  ret total_steps.

(** Lines 300-335: the completion message and the last progress message. *)
Definition report_completion (execution_id : string) (total_steps : Z)
    (output_subfolder : string) (step_results : list StepResult) : Run unit :=
  run! w <- reads id;
  let final_result :=
    mkFinal (multiple_speaker_text_array (ctx w)) (output_files (ctx w))
            (deref w (parameters (ctx w))) (ctx w) step_results
            (debug_chunks (ctx w)) (debug_chunk_help_text (ctx w)) in
  run! _ <- lift_task (broadcast_execution_complete execution_id final_result
                         output_subfolder);
  lift_task (broadcast_execution_progress (VStr execution_id) "Complete"
               (VInt total_steps) (VInt total_steps) output_subfolder).

Definition _execute_steps_impl (execution_id : string) (txts steps : list string)
    (output_file_name output_subfolder : string)
    (params : option (gmap string PyVal))
    (voice_clone_paths audio_transcriptions : option (list string))
  : Run unit :=
  try_run
    (let missing_steps := filter (fun step => loaded_steps !! step = None) steps in
     if Chunking.nonempty missing_steps then
       let error_msg := "Steps not found: " +:+ PyStr.join ", " missing_steps in
       lift_task (broadcast_execution_error execution_id error_msg output_subfolder)
     else
       run! total_steps <- prepare_context execution_id txts steps
                             output_file_name output_subfolder params
                             voice_clone_paths audio_transcriptions;
       run! outcome <- execute_steps execution_id total_steps output_subfolder
                         steps [];
       match outcome with
       | None => ret tt
       | Some step_results =>
           report_completion execution_id total_steps output_subfolder
             step_results
       end)
    (fun e =>
       let error_msg := "Unexpected error in background execution: " +:+ exn_str e in
       lift_task (broadcast_execution_error execution_id error_msg output_subfolder)).

Definition execute_steps_async := _execute_steps_impl.

(** What the caller of the endpoint gets back at once: an HTTP error, or
    the execution id together with the background task just created. *)
Definition execute_steps_background (request : StepExecutionRequest)
    (execution_id : string) : result (string * Run unit) :=
  if negb (Chunking.nonempty (req_steps request))
  then Err (HTTPException 400 "No steps provided")
  else
    match nonempty_opt (req_texts request) with
    | None => Err (HTTPException 400 "'texts' must be provided")
    | Some txts =>
        Ok (execution_id,
            execute_steps_async execution_id txts (req_steps request)
              (req_output_file_name request) (req_output_subfolder request)
              (req_parameters request)
              (Some (req_voice_clone_paths request))
              (Some (req_audio_transcriptions request)))
    end.

End Engine.

End Router.

(** ** backend/steps/remove_extra_spaces.py *)

Module RemoveExtraSpaces.
Import Ctx Effects Router.

(** [re.sub(r"\s+", " ", s)]: every maximal run of whitespace becomes one
    space; [in_run] tells that the run being read is replaced already. *)
Fixpoint sub_spaces_go (in_run : bool) (s : string) : string :=
  match s with
  | EmptyString => EmptyString
  | String c s' =>
      if PyStr.isspace c
      then (if in_run then sub_spaces_go true s'
            else String " " (sub_spaces_go true s'))
      else String c (sub_spaces_go false s')
  end.

Definition sub_spaces (s : string) : string := sub_spaces_go false s.

Definition with_multiple_speaker_text_array (v : list string) (c : StepContext)
  : StepContext :=
  mkContext (execution_id c) (original_text_array c) v (current_audio c)
    (audio_sample_rate c) (temp_dir c) (output_files c) (enable_parallel c)
    (num_parallel_workers c) (seed c) (actual_seed c) (max_chars c)
    (output_subfolder c) (output_file_name c) (voice_clone_paths c)
    (audio_transcriptions c) (num_candidates c)
    (approximate_min_chunk_length c) (is_multi_speaker c)
    (audio_candidates c) (debug_chunks c) (debug_chunk_help_text c)
    (parameters c).

Definition process : Run unit :=
  update (with_ctx (fun c =>
    let cleaned_array :=
      map (fun text => PyStr.strip (sub_spaces text))
          (multiple_speaker_text_array c) in
    with_multiple_speaker_text_array cleaned_array c)).

End RemoveExtraSpaces.

(** * Specification vocabulary *)

(** ** Strings *)

Module PyStrSpec.

(** Every character of [s] satisfies [p]. *)
Fixpoint all_chars (p : ascii -> bool) (s : string) : bool :=
  match s with
  | EmptyString => true
  | String c s' => p c && all_chars p s'
  end.

(** No character of [s] is one of [.!?]. *)
Definition unpunctuated (s : string) : Prop :=
  all_chars (fun c => negb (PyStr.is_terminal c)) s = true.

(** [s] holds nothing but whitespace and the characters [.!?]. *)
Definition wordless (s : string) : Prop :=
  all_chars (fun c => PyStr.isspace c || PyStr.is_terminal c) s = true.

Definition nonspace (c : ascii) : bool := negb (PyStr.isspace c).

(** A word: a non-empty string without whitespace. *)
Definition word (w : string) : Prop := w <> "" /\ all_chars nonspace w = true.

End PyStrSpec.

(** ** The chunker *)

Module ChunkingSpec.
Import Chunking.

(** A returned chunk: at least one text entry, and both voice lists as
    long as the text list. *)
Definition aligned (c : Chunk) : Prop :=
  length (voice_clones c) = length (texts c)
  /\ length (voice_transcriptions c) = length (texts c).

Definition wf_chunk (c : Chunk) : Prop :=
  texts c <> [] /\ aligned c.

(** Loop invariant of [chunk_sentences]. *)
Record Inv (st : LoopState) : Prop := mkInv {
  inv_chunks : Forall wf_chunk (chunks st);
  inv_current : aligned (current_chunk st);
  inv_reset : texts (current_chunk st) = [] ->
              current_word_count st = 0%nat /\ current_speaker_info st = None
}.

(** The state with [P] put in front of the chunks emitted so far. *)
Definition shift (P : list Chunk) (st : LoopState) : LoopState :=
  mkLoop (P ++ chunks st) (current_chunk st) (current_word_count st)
         (current_speaker_info st).

Definition shift_r (P : list Chunk) (r : result LoopState) : result LoopState :=
  match r with
  | Ok st => Ok (shift P st)
  | Err e => Err e
  end.

(** The voice pair of a sentence, and the text entries of chunks with
    their voice pairs, in order. *)
Definition speaker (m : MiniChunk) : string * string :=
  (mc_voice_clone m, mc_voice_transcription m).

Definition entries_of (c : Chunk) : list (string * (string * string)) :=
  zip (texts c) (zip (voice_clones c) (voice_transcriptions c)).

Definition entries (cs : list Chunk) : list (string * (string * string)) :=
  flat_map entries_of cs.

(** The sentences with the voice pair of the text they come from. *)
Definition mini_units (txts vcs vts : list string) : list MiniChunk :=
  flat_map (fun e => map (fun s => mkMini s (fst (snd e)) (snd (snd e)))
                         (split_into_sentences (fst e)))
           (zip txts (zip vcs vts)).

(** [Regrouped ms es]: the entries [es] are the sentences [ms] in order,
    each sentence either opening an entry under its own voice pair or
    joined by one space to the entry before it, which then has the same
    voice pair. *)
Inductive Regrouped :
    list MiniChunk -> list (string * (string * string)) -> Prop :=
| regrouped_nil : Regrouped [] []
| regrouped_new ms es m :
    Regrouped ms es ->
    Regrouped (ms ++ [m]) (es ++ [(mc_text m, speaker m)])
| regrouped_join ms es t m :
    Regrouped ms (es ++ [(t, speaker m)]) ->
    Regrouped (ms ++ [m]) (es ++ [(t +:+ " " +:+ mc_text m, speaker m)]).

(** The loop invariant that relates the chunks to the sentences read. *)
Definition Tracks (ms : list MiniChunk) (st : LoopState) : Prop :=
  Regrouped ms (entries (chunks st) ++ entries_of (current_chunk st))
  /\ (texts (current_chunk st) <> [] ->
      exists es t sp,
        entries_of (current_chunk st) = es ++ [(t, sp)]
        /\ current_speaker_info st = Some sp).

(** The number of words of a chunk: the words of its text entries. *)
Definition chunk_words (c : Chunk) : nat := sum_list (count_words <$> texts c).

(** A chunk is one of the sentences [L], long enough to stand alone, or it
    is shorter than two minimum lengths. *)
Definition bounded (min : Z) (L : list MiniChunk) (c : Chunk) : Prop :=
  (exists m, m ∈ L /\ c = singleton_chunk m
             /\ (min <= Z.of_nat (count_words (mc_text m)))%Z)
  \/ (Z.of_nat (chunk_words c) + 2 <= 2 * min)%Z.

(** The loop invariant on the word counter. *)
Record WordInv (min : Z) (L : list MiniChunk) (st : LoopState) : Prop := mkWordInv {
  wi_count : current_word_count st = chunk_words (current_chunk st);
  wi_small : texts (current_chunk st) <> [] ->
             (Z.of_nat (current_word_count st) < min)%Z;
  wi_chunks : Forall (bounded min L) (chunks st)
}.

(** The voice pairs of the text entries of a chunk, in order. *)
Definition voices (c : Chunk) : list (string * string) :=
  zip (voice_clones c) (voice_transcriptions c).

(** No two neighbours of [l] are equal. *)
Definition alternating {A} (l : list A) : Prop :=
  forall i a b, l !! i = Some a -> l !! S i = Some b -> a <> b.

(** The loop invariant on the voice pairs. *)
Record VoiceInv (st : LoopState) : Prop := mkVoiceInv {
  vo_chunks : Forall (fun c => alternating (voices c)) (chunks st);
  vo_current : alternating (voices (current_chunk st));
  vo_last : texts (current_chunk st) <> [] ->
            exists l sp, voices (current_chunk st) = l ++ [sp]
                         /\ current_speaker_info st = Some sp
}.

(** The words of a list of texts, in order. *)
Definition words_of (l : list string) : list string := flat_map PyStr.split l.

End ChunkingSpec.

(** ** Candidate selection *)

Module SelectionSpec.
Import Ctx WhisperCheck.

(** The candidate at index [i] is the best under [gt], and the first such. *)
Definition earliest_best {A} (gt : A -> A -> bool) (l : list A) (i : nat)
    (b : A) : Prop :=
  l !! i = Some b
  /\ forall j c, l !! j = Some c ->
                 gt c b = false /\ ((j < i)%nat -> gt b c = true).

(** The same, spelled out for the two keys of the step. *)
Definition highest_score_earliest (cs : list Scored) (i : nat) (b : Scored)
  : Prop :=
  cs !! i = Some b
  /\ (forall j c, cs !! j = Some c -> (score c <= score b)%Q)
  /\ (forall j c, cs !! j = Some c -> (j < i)%nat -> (score c < score b)%Q).

Definition longest_transcript_earliest (cs : list Scored) (i : nat)
    (b : Scored) : Prop :=
  cs !! i = Some b
  /\ (forall j c, cs !! j = Some c ->
        (String.length (transcribed c) <= String.length (transcribed b))%nat)
  /\ (forall j c, cs !! j = Some c -> (j < i)%nat ->
        (String.length (transcribed c) < String.length (transcribed b))%nat).

Definition passes (c : Scored) : Prop := Qle_bool threshold (score c) = true.

End SelectionSpec.

(** ** Suspendable computations *)

Module EffectsSpec.
Import Ctx Effects.

(** [Sat inv M Q t]: in worlds that satisfy [inv], the task [t] only
    writes worlds that satisfy [inv], everything it does satisfies [M], and
    the value it returns satisfies [Q]. *)
Inductive Sat {A : Type} (inv : World -> Prop) (M : Obs -> Prop)
    (Q : A -> Prop) : Task A -> Prop :=
| Sat_Return a : Q a -> Sat inv M Q (Return a)
| Sat_Raise e : Sat inv M Q (Raise e)
| Sat_Get k : (forall w, inv w -> Sat inv M Q (k w)) -> Sat inv M Q (Get k)
| Sat_Put w k : inv w -> Sat inv M Q k -> Sat inv M Q (Put w k)
| Sat_Emit e k : M (Sent e) -> Sat inv M Q k -> Sat inv M Q (Emit e k)
| Sat_Mark o k : M o -> Sat inv M Q k -> Sat inv M Q (Mark o k)
| Sat_Call i c k :
    M (Requested i c) -> (forall r, Sat inv M Q (k r)) -> Sat inv M Q (Call i c k).

Definition SatS {A : Type} (inv : World -> Prop) (M : Obs -> Prop)
    (Q : A -> Prop) (s : Suspended A) : Prop :=
  match s with
  | Finished r => forall a, r = Ok a -> Q a
  | Ready t => Sat inv M Q t
  | Waiting c k => forall r, Sat inv M Q (k r)
  end.

(** A result that, when it is a value, satisfies [Q]. *)
Definition good_result {A : Type} (Q : A -> Prop) (r : result A) : Prop :=
  forall a, r = Ok a -> Q a.

(** Running a task from a given world: everything it does satisfies [M]. *)
Definition Runs {A} (backend : ServiceCall -> result Response)
    (M : Obs -> Prop) (t : Task A) (w : World) : Prop :=
  forall tr w' r, run backend t w = (tr, w', r) -> Forall M tr.

End EffectsSpec.

(** ** Candidate generation *)

Module GenerationSpec.
Import Ctx Effects Generation.

(** The seed of each request, with the candidate that sent it. *)
Definition requested_seeds (tr : list Obs) : list (nat * option PyVal) :=
  omap (fun o => match o with
                 | Requested i c =>
                     Some (i, request_parameters (call_payload c) !! "seed")
                 | _ => None
                 end) tr.

Definition requesting_candidates (tr : list Obs) : list nat :=
  omap (fun o => match o with
                 | Requested i _ => Some i
                 | _ => None
                 end) tr.

Definition chunk_marks (tr : list Obs) : list (nat * Z * nat) :=
  omap (fun o => match o with
                 | Chunked i m cs => Some (i, m, length cs)
                 | _ => None
                 end) tr.

(** The artifacts of the candidates whose task succeeded, in task order. *)
Definition survivors
    (rs : list (result (string * list Chunking.Chunk * string))) : list string :=
  omap (fun r => match r with
                 | Ok (path, _, _) => Some path
                 | Err _ => None
                 end) rs.

(** Two contexts that differ at most in the address of [parameters]. *)
Definition same_config (c c' : StepContext) : Prop :=
  with_parameters 0 c = with_parameters 0 c'.

(** The world still has the configuration [c0]. *)
Definition keeps_config (c0 : StepContext) (w : World) : Prop :=
  same_config (ctx w) c0.

(** The voice paths a candidate passes to the chunker. *)
Definition encoded_voice_paths (b64encode : string -> string)
    (env_TESTING : bool) (c : StepContext) : list string :=
  map (fun vcp => encode_filepath_for_url b64encode (add_file_prefix env_TESTING vcp))
      (default [] (voice_clone_paths c)).

(** A call of the chunker by a candidate passes the minimum of the
    context, or 20 for 0, and gets the chunks of the texts, the encoded
    voice paths of the context and the transcriptions. *)
Definition chunked_alike (b64encode : string -> string) (env_TESTING : bool)
    (c0 : StepContext) (txts ats : list string) (o : Obs) : Prop :=
  match o with
  | Chunked _ m cs =>
      m = or_20 (approximate_min_chunk_length c0)
      /\ Chunking.chunk_sentences txts
           (encoded_voice_paths b64encode env_TESTING c0) ats m = Ok cs
  | _ => True
  end.

(** Every request is sent by candidate [idx] and carries the seed [v]. *)
Definition carries_seed (idx : nat) (v : PyVal) (o : Obs) : Prop :=
  match o with
  | Requested j c =>
      j = idx /\ request_parameters (call_payload c) !! "seed" = Some v
  | _ => True
  end.

(** The dict that is the context's [parameters] holds the seed [v]. *)
Definition seed_installed (v : PyVal) (w : World) : Prop :=
  deref w (parameters (ctx w)) !! "seed" = Some v.

(** A request carries the seed [base + i] of the candidate [i] that sent it. *)
Definition carries_own_seed (base : Z) (o : Obs) : Prop :=
  match o with
  | Requested i c =>
      request_parameters (call_payload c) !! "seed"
      = Some (VInt (base + Z.of_nat i))
  | _ => True
  end.

Definition is_dialogue (r : Request) : bool :=
  match r with
  | TextToDialogueRequest _ _ _ _ _ => true
  | TextToSpeechRequest _ _ _ _ => false
  end.

(** The dialogue mode of a generation: a multi-speaker step and more than
    one text. *)
Definition dialogue_mode (c0 : StepContext) (txts : list string) : bool :=
  is_multi_speaker c0 && (1 <? length txts)%nat.

(** The endpoint of every request of a generation. *)
Definition expected_endpoint (b64encode : string -> string) (env_TESTING : bool)
    (c0 : StepContext) (txts : list string) : option string :=
  if dialogue_mode c0 txts then Some "/v1/text-to-dialogue"
  else match encoded_voice_paths b64encode env_TESTING c0 with
       | [] => None
       | voice_path :: _ => Some ("/v1/text-to-speech/" +:+ voice_path)
       end.

(** A request goes to the port of the model, to the endpoint of the mode,
    with the body of the mode. *)
Definition routed (b64encode : string -> string)
    (env_TESTING_UI env_TESTING : bool) (model : string) (c0 : StepContext)
    (txts : list string) (o : Obs) : Prop :=
  match o with
  | Requested _ c =>
      get_model_service_port env_TESTING_UI env_TESTING model = Ok (call_port c)
      /\ expected_endpoint b64encode env_TESTING c0 txts = Some (call_endpoint c)
      /\ is_dialogue (call_payload c) = dialogue_mode c0 txts
  | _ => True
  end.

(** What a request body holds of a chunk: a speech body the first text
    entry and the transcriptions, a dialogue body every text entry paired
    with its voice, the voices and the transcriptions. *)
Definition built_from (chunk : Chunking.Chunk) (r : Request) : Prop :=
  match r with
  | TextToSpeechRequest text _ _ transcriptions =>
      head (Chunking.texts chunk) = Some text
      /\ transcriptions = Chunking.voice_transcriptions chunk
  | TextToDialogueRequest inputs _ _ voices transcriptions =>
      inputs = zip (Chunking.texts chunk) (Chunking.voice_clones chunk)
      /\ voices = Chunking.voice_clones chunk
      /\ transcriptions = Chunking.voice_transcriptions chunk
  end.

(** A request is built from a chunk of the chunk sequence of the
    generation. *)
Definition carries_chunk (b64encode : string -> string) (env_TESTING : bool)
    (c0 : StepContext) (txts ats : list string) (o : Obs) : Prop :=
  match o with
  | Requested _ c =>
      exists cs chunk,
        Chunking.chunk_sentences txts
          (encoded_voice_paths b64encode env_TESTING c0) ats
          (or_20 (approximate_min_chunk_length c0)) = Ok cs
        /\ chunk ∈ cs
        /\ built_from chunk (call_payload c)
  | _ => True
  end.

(** The chunks a candidate returns are the chunk sequence of the
    generation. *)
Definition returns_chunks (b64encode : string -> string) (env_TESTING : bool)
    (c0 : StepContext) (txts ats : list string)
    (r : string * list Chunking.Chunk * string) : Prop :=
  Chunking.chunk_sentences txts
    (encoded_voice_paths b64encode env_TESTING c0) ats
    (or_20 (approximate_min_chunk_length c0)) = Ok (snd (fst r)).

Definition well_sent (b64encode : string -> string)
    (env_TESTING_UI env_TESTING : bool) (model : string) (c0 : StepContext)
    (txts ats : list string) (o : Obs) : Prop :=
  routed b64encode env_TESTING_UI env_TESTING model c0 txts o
  /\ carries_chunk b64encode env_TESTING c0 txts ats o.

(** A debug chunk [r] is the chunk [c] with its voice paths made readable:
    paths of [paths] whose encodings are the voice paths of [c]. *)
Definition readable_of (b64encode : string -> string) (paths : list string)
    (r c : Chunking.Chunk) : Prop :=
  Chunking.texts r = Chunking.texts c
  /\ Chunking.voice_transcriptions r = Chunking.voice_transcriptions c
  /\ map (encode_filepath_for_url b64encode) (Chunking.voice_clones r)
     = Chunking.voice_clones c
  /\ Forall (fun v => v ∈ paths) (Chunking.voice_clones r).

End GenerationSpec.

(** ** The step pipeline *)

Module RouterSpec.
Import Ctx Effects Router.

(** The messages the engine itself sends, and the steps it invokes. *)
Definition top_progress_names (tr : list Obs) : list string :=
  omap (fun o => match o with
                 | Sent (execution_progress _ name _ _ _) => Some name
                 | _ => None
                 end) tr.

Definition invoked (tr : list Obs) : list string :=
  omap (fun o => match o with
                 | Invoked name => Some name
                 | _ => None
                 end) tr.

Definition is_error (o : Obs) : bool :=
  match o with
  | Sent (execution_error _ _ _) => true
  | _ => false
  end.

Definition is_complete (o : Obs) : bool :=
  match o with
  | Sent (execution_complete _ _ _) => true
  | _ => false
  end.

Definition count (p : Obs -> bool) (tr : list Obs) : nat :=
  length (List.filter p tr).

(** What the progress broadcast does with its two numbers. *)
Definition progress_outcome (step_num total_steps : PyVal) : result unit :=
  match step_num, total_steps with
  | (VInt _ | VBool _), VInt 0 | (VInt _ | VBool _), VBool false =>
      Err (ZeroDivisionError "division by zero")
  | (VInt _ | VBool _), (VInt _ | VBool _) => Ok tt
  | _, _ => Err (TypeError "unsupported operand type(s) for /")
  end.

(** A computation that sends nothing and leaves no mark. *)
Definition silent {A} (m : Run A) : Prop :=
  forall w tr w' r, m w = (tr, w', r) -> tr = [].

(** The entries of the request parameters that are not typed fields. *)
Definition untyped_parameters (params : option (gmap string PyVal))
  : gmap string PyVal :=
  filter (fun kv => is_typed (fst kv) = false) (default ∅ params).

(** The entries of the request parameters that name typed fields. *)
Definition typed_parameters (params : option (gmap string PyVal))
  : gmap string PyVal :=
  filter (fun kv => is_typed (fst kv) = true) (default ∅ params).

End RouterSpec.

(** ** Scenarios *)

Module Scenarios.
Import Ctx Effects Generation Router.

(** *** Selection: candidates on disk and their scores *)

(** A run with three candidates on disk. *)
Definition selection_context (candidates : list string) : StepContext :=
  mkContext (Some "run-1") ["[S1] Hello world."] ["[S1] Hello world."] None
            None "/tmp/run" [] false 4 0 None 400 "" "" None None 3 9999999
            false candidates [] "" 0.

Definition selection_world (candidates : list string) : World :=
  mkWorld (selection_context candidates) {[ 0%nat := ∅ ]}
          (list_to_map (map (fun p => (p, 4096%N)) candidates)) 0.

Fixpoint demo_scores (l : list (string * (Q * string))) (p expected : string)
  : Q * string :=
  match l with
  | [] => (0%Q, "")
  | (q, r) :: l' => if bool_decide (q = p) then r else demo_scores l' p expected
  end.

Definition always_loads (_ _ : PyVal) : result unit := Ok tt.
Definition never_fails (_ : string) : bool := false.

(** *** The pipeline *)

(** A registry of five steps, the third of which raises. *)
Definition passing_step : Run unit := ret tt.
Definition failing_step : Run unit := raise (Exception "boom").

Definition demo_registry : gmap string StepInfo :=
  list_to_map
    [("s1", mkStepInfo ∅ passing_step "steps/s1.py" "backend");
     ("s2", mkStepInfo ∅ passing_step "steps/s2.py" "backend");
     ("s3", mkStepInfo ∅ failing_step "steps/s3.py" "backend");
     ("s4", mkStepInfo ∅ passing_step "steps/s4.py" "backend");
     ("s5", mkStepInfo ∅ passing_step "steps/s5.py" "backend")].

Definition request_output (r : Request) : string :=
  match r with
  | TextToSpeechRequest _ o _ _ => o
  | TextToDialogueRequest _ o _ _ _ => o
  end.

Definition demo_backend (c : ServiceCall) : result Response :=
  Ok (mkResponse (request_output (call_payload c)) 2048).

(** A context built with the defaults of the class. *)
Definition demo_pydantic (txts : list string) (init_params : gmap string PyVal)
    (vcps ats : option (list string)) (eid : option string)
    (output_subfolder output_file_name : string) : result StepContext :=
  Ok (mkContext eid txts txts None None "/tmp/run" [] false 4 0 None 400
        output_subfolder output_file_name vcps ats 1 9999999 false [] [] "" 0).

Definition blank_world : World :=
  mkWorld (mkContext None [] [] None None "" [] false 4 0 None 400 "" "" None
             None 1 9999999 false [] [] "" 0)
          ∅ ∅ 0.


(** *** Generation *)

(** A run of two candidates over a text of two sentences, with a minimum
    chunk length of three words (two chunks) unless stated otherwise, and
    a derived seed of 100. *)
Definition demo_encode (s : string) : string := "b64:" +:+ s.
Definition demo_decode (s : string) : result string := Ok (PyStr.drop 4 s).

Definition demo_text : string := "One two three. Four five six.".

Definition demo_context (parallel : bool) (min_words : Z) : StepContext :=
  mkContext (Some "run-1") [demo_text] [demo_text] None None "/tmp/run" []
            parallel 4 100 (Some 100%Z) 400 "" "" (Some ["v.wav"])
            (Some ["t"]) 2 min_words false [] [] "" 0.

Definition demo_world (parallel : bool) (min_words : Z) : World :=
  mkWorld (demo_context parallel min_words)
          {[ 0%nat := {[ "step_index" := VInt 3;
                         "execution_id" := VStr "run-1";
                         "total_steps" := VInt 9 ]} ]}
          ∅ 0.

(** Every service answers. *)
Definition healthy (c : ServiceCall) : result Response :=
  Ok (mkResponse (request_output (call_payload c)) 2048).

(** The service fails on requests that carry the seed [z]. *)
Definition fails_on_seed (z : Z) (c : ServiceCall) : result Response :=
  if bool_decide (request_parameters (call_payload c) !! "seed" = Some (VInt z))
  then Err (Exception "HTTP 500: generation failed")
  else healthy c.

Definition demo_generate (backend : ServiceCall -> result Response)
    (schedule : list nat) (w : World) : list Obs * World * result unit :=
  generate_candidates_with_service_calls demo_encode demo_decode false true
    backend false schedule "chatterbox" [demo_text] ["v.wav"] ["t"] w.

(** No service answers. *)
Definition unreachable (c : ServiceCall) : result Response :=
  Err (Exception "Failed to connect to model service. Is the service running?").

(** A run over a text without a word. *)
Definition wordless_generate (w : World) :=
  run healthy
      (generate_single_candidate_via_service demo_encode false true
         "chatterbox" [" ... "] ["v.wav"] ["t"] 0) w.

End Scenarios.

(** * Proofs *)

(** ** Properties of the string primitives *)

Module PyStrFacts.
Import PyStr PyStrSpec.

Lemma append_cons (c : ascii) (s t : string) :
  String c s +:+ t = String c (s +:+ t).
Proof. reflexivity. Qed.

Lemma append_empty_l (s : string) : "" +:+ s = s.
Proof. reflexivity. Qed.

Lemma append_empty_r (s : string) : s +:+ "" = s.
Proof.
  induction s as [|c s IH]; [reflexivity|]. rewrite append_cons, IH. reflexivity.
Qed.

Lemma append_assoc (a b c : string) : (a +:+ b) +:+ c = a +:+ (b +:+ c).
Proof.
  induction a as [|x a IH]; [reflexivity|]. rewrite !append_cons, IH. reflexivity.
Qed.

Lemma is_empty_true (s : string) : is_empty s = true <-> s = "".
Proof. destruct s; simpl; split; congruence. Qed.

Lemma is_empty_false (s : string) : is_empty s = false <-> s <> "".
Proof. destruct s; simpl; split; congruence. Qed.

Lemma all_chars_app p a b :
  all_chars p (a +:+ b) = all_chars p a && all_chars p b.
Proof.
  induction a as [|c a IH]; [reflexivity|].
  rewrite append_cons. simpl. rewrite IH, andb_assoc. reflexivity.
Qed.

Lemma all_chars_impl (p q : ascii -> bool) s :
  (forall c, p c = true -> q c = true) ->
  all_chars p s = true -> all_chars q s = true.
Proof.
  intros H. induction s as [|c s IH]; simpl; [auto|].
  intros E. apply andb_true_iff in E as [E1 E2].
  rewrite (H c E1), IH; auto.
Qed.

(** *** [split] *)

Lemma split_go_nonempty cur s : is_empty cur = false -> split_go cur s <> [].
Proof.
  revert cur. induction s as [|c s IH]; intros cur H; simpl.
  - rewrite H. discriminate.
  - destruct (isspace c).
    + rewrite H. discriminate.
    + apply IH. destruct cur; reflexivity.
Qed.

Lemma split_go_join cur a b :
  split_go cur (a +:+ " " +:+ b) = split_go cur a ++ split b.
Proof.
  revert cur. induction a as [|c a IH]; intros cur.
  - rewrite append_empty_l, append_cons. simpl.
    destruct (is_empty cur); reflexivity.
  - rewrite append_cons. cbn [split_go]. destruct (isspace c).
    + rewrite IH. destruct (is_empty cur); reflexivity.
    + apply IH.
Qed.

(** The words of two texts joined by a space are the words of both. *)
Lemma split_join a b : split (a +:+ " " +:+ b) = split a ++ split b.
Proof. apply split_go_join. Qed.

Lemma split_first_nonspace c r :
  isspace c = false -> split (String c r) <> [].
Proof.
  intros H. unfold split. simpl. rewrite H. apply split_go_nonempty. reflexivity.
Qed.

(** *** [strip] *)

Lemma lstrip_head s :
  lstrip s = "" \/ exists c r, lstrip s = String c r /\ isspace c = false.
Proof.
  induction s as [|c s IH]; simpl; [auto|].
  destruct (isspace c) eqn:E; [exact IH|]. right. eauto.
Qed.

Lemma lstrip_fixed c r : isspace c = false -> lstrip (String c r) = String c r.
Proof. intros H. simpl. rewrite H. reflexivity. Qed.

Lemma rstrip_cons c s :
  rstrip (String c s)
  = match rstrip s with
    | "" => if isspace c then "" else String c ""
    | r => String c r
    end.
Proof. reflexivity. Qed.

Lemma rstrip_idem s : rstrip (rstrip s) = rstrip s.
Proof.
  induction s as [|c s IH]; [reflexivity|]. rewrite rstrip_cons.
  destruct (rstrip s) as [|d r] eqn:E.
  - destruct (isspace c) eqn:Hc; [reflexivity|].
    rewrite rstrip_cons. simpl. rewrite Hc. reflexivity.
  - rewrite rstrip_cons, IH. reflexivity.
Qed.

Lemma rstrip_lstrip u : rstrip u = u -> rstrip (lstrip u) = lstrip u.
Proof.
  induction u as [|c u IH]; [reflexivity|]. intros H.
  cbn [lstrip]. destruct (isspace c) eqn:Hc; [|exact H].
  rewrite rstrip_cons in H.
  destruct (rstrip u) as [|d r] eqn:E.
  - rewrite Hc in H. discriminate.
  - injection H as <-. apply IH. reflexivity.
Qed.

Lemma lstrip_idem s : lstrip (lstrip s) = lstrip s.
Proof.
  destruct (lstrip_head s) as [->|(c & r & -> & H)]; [reflexivity|].
  apply lstrip_fixed, H.
Qed.

Lemma strip_idem s : strip (strip s) = strip s.
Proof.
  unfold strip. rewrite rstrip_lstrip by apply rstrip_idem. apply lstrip_idem.
Qed.

Lemma strip_head s :
  strip s = "" \/ exists c r, strip s = String c r /\ isspace c = false.
Proof. apply lstrip_head. Qed.

Lemma all_chars_lstrip p s : all_chars p s = true -> all_chars p (lstrip s) = true.
Proof.
  induction s as [|c s IH]; simpl; [auto|].
  intros E. apply andb_true_iff in E as [E1 E2].
  destruct (isspace c); [auto|]. simpl. rewrite E1, E2. reflexivity.
Qed.

Lemma all_chars_rstrip p s : all_chars p s = true -> all_chars p (rstrip s) = true.
Proof.
  induction s as [|c s IH]; [auto|].
  intros E. simpl in E. apply andb_true_iff in E as [E1 E2]. specialize (IH E2).
  rewrite rstrip_cons. destruct (rstrip s) as [|d r].
  - destruct (isspace c); simpl; rewrite ?E1; reflexivity.
  - change (all_chars p (String c (String d r)))
      with (p c && all_chars p (String d r)).
    rewrite E1, IH. reflexivity.
Qed.

Lemma all_chars_strip p s : all_chars p s = true -> all_chars p (strip s) = true.
Proof. intros H. apply all_chars_lstrip, all_chars_rstrip, H. Qed.

Lemma rstrip_blank s : all_chars isspace s = true -> rstrip s = "".
Proof.
  induction s as [|c s IH]; [auto|].
  intros E. simpl in E. apply andb_true_iff in E as [E1 E2].
  rewrite rstrip_cons, (IH E2), E1. reflexivity.
Qed.

Lemma strip_blank s : all_chars isspace s = true -> strip s = "".
Proof. intros H. unfold strip. rewrite rstrip_blank by exact H. reflexivity. Qed.

Lemma all_chars_drop p n s : all_chars p s = true -> all_chars p (drop n s) = true.
Proof.
  revert s. induction n as [|n IH]; intros s; [destruct s; auto|].
  destruct s as [|c s]; simpl; [auto|].
  intros E. apply andb_true_iff in E as [_ E]. auto.
Qed.

(** *** [span] and the sentence boundary *)

Lemma span_none p s : all_chars (fun c => negb (p c)) s = true -> span p s = ("", s).
Proof.
  destruct s as [|c s]; simpl; [reflexivity|].
  intros E. apply andb_true_iff in E as [E _].
  apply negb_true_iff in E. rewrite E. reflexivity.
Qed.

Lemma span_spec p s :
  exists a b, span p s = (a, b) /\ s = a +:+ b /\ all_chars p a = true
              /\ (b = "" \/ exists c r, b = String c r /\ p c = false).
Proof.
  induction s as [|c s (a & b & E & -> & Ha & Hb)]; simpl.
  - exists "", "". auto.
  - destruct (p c) eqn:Hc.
    + rewrite E. exists (String c a), b. simpl. rewrite Hc, Ha. auto.
    + exists "", (String c (a +:+ b)). repeat split; auto. right. eauto.
Qed.

Lemma match_boundary_unpunctuated c s :
  is_terminal c = false -> match_boundary (String c s) = None.
Proof. intros H. unfold match_boundary. simpl. rewrite H. reflexivity. Qed.

(** In a text of whitespace and punctuation every punctuation run is
    followed by whitespace or by the end: the pattern matches there. *)
Lemma match_boundary_wordless c s :
  wordless (String c s) -> match_boundary (String c s) = None ->
  isspace c = true.
Proof.
  unfold wordless, match_boundary. intros Hw.
  destruct (span_spec is_terminal (String c s)) as (a & b & E & Hs & Ha & Hb).
  rewrite E. destruct a as [|x a]; simpl is_empty; cbv iota.
  - intros _. rewrite append_empty_l in Hs. subst b.
    destruct Hb as [Hb|(c' & r & [= <- <-] & Hc)]; [discriminate|].
    simpl in Hw. rewrite Hc, orb_false_r in Hw.
    apply andb_true_iff in Hw as [Hw _]. exact Hw.
  - destruct Hb as [->|(c' & r & -> & Hc)]; [discriminate|].
    rewrite Hs, all_chars_app in Hw. apply andb_true_iff in Hw as [_ Hw].
    simpl in Hw. rewrite Hc, orb_false_r in Hw.
    apply andb_true_iff in Hw as [Hw _]. rewrite Hw. discriminate.
Qed.

(** *** [re_split] *)

Lemma re_split_go_unpunctuated s :
  forall cur, unpunctuated s -> re_split_go cur 0 s = [cur +:+ s].
Proof.
  unfold unpunctuated.
  induction s as [|c s IH]; intros cur H; simpl all_chars in H.
  - simpl. rewrite append_empty_r. reflexivity.
  - apply andb_true_iff in H as [Hc Hs]. apply negb_true_iff in Hc.
    cbn [re_split_go]. rewrite (match_boundary_unpunctuated c s Hc).
    rewrite IH by exact Hs. rewrite append_assoc. reflexivity.
Qed.

Lemma re_split_unpunctuated s : unpunctuated s -> re_split s = [s].
Proof. intros H. unfold re_split. rewrite re_split_go_unpunctuated; auto. Qed.

(** Without a word in the text, every piece between two boundaries is
    blank. *)
Lemma re_split_go_wordless s :
  forall cur skip,
    wordless s -> all_chars isspace cur = true ->
    Forall (fun piece => all_chars isspace piece = true) (re_split_go cur skip s).
Proof.
  induction s as [|c s IH]; intros cur skip Hw Hcur.
  - simpl. auto.
  - assert (Hs : wordless s).
    { unfold wordless in *. simpl in Hw. apply andb_true_iff in Hw as [_ Hw]. exact Hw. }
    cbn [re_split_go]. destruct skip as [|k]; [|auto].
    destruct (match_boundary (String c s)) as [n|] eqn:E.
    + constructor; auto.
    + apply IH; [exact Hs|].
      rewrite all_chars_app, Hcur. simpl.
      rewrite (match_boundary_wordless c s Hw E). reflexivity.
Qed.

(** *** Words and single spaces *)

Lemma rstrip_app a b :
  rstrip (a +:+ b)
  = match rstrip b with
    | "" => rstrip a
    | String c r => a +:+ String c r
    end.
Proof.
  induction a as [|x a IH].
  - rewrite append_empty_l. destruct (rstrip b); reflexivity.
  - rewrite append_cons, !rstrip_cons, IH.
    destruct (rstrip b) as [|c r]; [reflexivity|].
    rewrite append_cons. destruct a; reflexivity.
Qed.

Lemma rstrip_char c : isspace c = false -> rstrip (String c "") = String c "".
Proof. intros H. simpl. rewrite H. reflexivity. Qed.

Lemma rstrip_snoc cur c :
  rstrip cur = cur -> isspace c = false ->
  rstrip (cur +:+ String c "") = cur +:+ String c "".
Proof. intros _ H. rewrite rstrip_app, (rstrip_char c H). reflexivity. Qed.

Lemma append_nonempty_r a b : b <> "" -> a +:+ b <> "".
Proof. destruct a; [rewrite append_empty_l; auto|discriminate]. Qed.

Lemma split_go_cons_space cur c s :
  isspace c = true -> cur <> "" ->
  split_go cur (String c s) = cur :: split s.
Proof.
  intros Hc Hcur. simpl. rewrite Hc.
  apply is_empty_false in Hcur. rewrite Hcur. reflexivity.
Qed.

Lemma split_go_words s :
  forall cur, all_chars nonspace cur = true -> Forall word (split_go cur s).
Proof.
  induction s as [|c s IH]; intros cur Hcur; simpl.
  - destruct (is_empty cur) eqn:E; constructor; [|constructor].
    apply is_empty_false in E. split; assumption.
  - destruct (isspace c) eqn:Hc.
    + destruct (is_empty cur) eqn:E; [apply IH; reflexivity|].
      constructor; [|apply IH; reflexivity].
      apply is_empty_false in E. split; assumption.
    + apply IH. rewrite all_chars_app, Hcur. simpl. unfold nonspace.
      rewrite Hc. reflexivity.
Qed.

Lemma split_words s : Forall word (split s).
Proof. apply split_go_words. reflexivity. Qed.

Lemma split_go_word w :
  forall cur, all_chars nonspace w = true ->
              split_go cur w = if is_empty (cur +:+ w) then [] else [cur +:+ w].
Proof.
  induction w as [|c w IH]; intros cur H; simpl.
  - rewrite append_empty_r. reflexivity.
  - simpl in H. apply andb_true_iff in H as [Hc Hw].
    unfold nonspace in Hc. apply negb_true_iff in Hc. rewrite Hc.
    rewrite (IH _ Hw), append_assoc. reflexivity.
Qed.

Lemma split_word w : word w -> split w = [w].
Proof.
  intros [Hne H]. unfold split. rewrite (split_go_word w "" H), append_empty_l.
  apply is_empty_false in Hne. rewrite Hne. reflexivity.
Qed.

Lemma word_head w :
  word w -> exists c r, w = String c r /\ isspace c = false.
Proof.
  intros [Hne H]. destruct w as [|c r]; [congruence|].
  simpl in H. apply andb_true_iff in H as [Hc _].
  exists c, r. split; [reflexivity|]. apply negb_true_iff, Hc.
Qed.

Lemma join_cons2 sep x y l : join sep (x :: y :: l) = x +:+ sep +:+ join sep (y :: l).
Proof. reflexivity. Qed.

Lemma join_head w ws :
  word w -> exists c r, join " " (w :: ws) = String c r /\ isspace c = false.
Proof.
  intros Hw. destruct (word_head w Hw) as (c & r & -> & Hc).
  destruct ws as [|y l]; [eauto|]. rewrite join_cons2, append_cons. eauto.
Qed.

(** The words of single-spaced words are these words. *)
Lemma split_join_words ws : Forall word ws -> split (join " " ws) = ws.
Proof.
  induction 1 as [|w ws Hw Hws IH]; [reflexivity|].
  destruct ws as [|y l]; [apply split_word, Hw|].
  rewrite join_cons2, split_join, IH, (split_word w Hw). reflexivity.
Qed.

End PyStrFacts.

(** ** Properties of the chunker *)

Module ChunkingFacts.
Import Chunking ChunkingSpec PyStrSpec.

Lemma nonempty_true {A} (l : list A) : nonempty l = true <-> l <> [].
Proof. destruct l; simpl; split; congruence. Qed.

Lemma nonempty_false {A} (l : list A) : nonempty l = false <-> l = [].
Proof. destruct l; simpl; split; congruence. Qed.

Lemma append_to_last_snoc (l : list string) (x s : string) :
  append_to_last (l ++ [x]) s = Ok (l ++ [x +:+ " " +:+ s]).
Proof.
  unfold append_to_last. rewrite reverse_snoc, reverse_involutive. reflexivity.
Qed.

Lemma append_to_last_ok (l : list string) (s : string) :
  l <> [] ->
  exists l', append_to_last l s = Ok l' /\ length l' = length l.
Proof.
  destruct l as [|y l0] using rev_ind; [congruence|]. intros _.
  eexists. split; [apply append_to_last_snoc|].
  rewrite !length_app. reflexivity.
Qed.

Lemma aligned_empty_texts (c : Chunk) :
  aligned c -> texts c = [] -> c = empty_chunk.
Proof.
  destruct c as [t v r]. unfold aligned. simpl. intros [Hv Hr] ->.
  simpl in *. apply nil_length_inv in Hv, Hr. subst. reflexivity.
Qed.

Lemma merge_entry_ok (c : Chunk) (m : MiniChunk) :
  aligned c -> texts c <> [] ->
  exists c', merge_entry c m = Ok c' /\ wf_chunk c'.
Proof.
  intros [Hv Hr] Hne. unfold merge_entry.
  destruct (append_to_last_ok (texts c) (mc_text m) Hne) as (ts & -> & Hlen).
  simpl. eexists. split; [reflexivity|].
  unfold wf_chunk, aligned. simpl. repeat split; try congruence.
  intros ->. simpl in Hlen. destruct (texts c); simpl in *; congruence.
Qed.

Lemma push_entry_wf (c : Chunk) (m : MiniChunk) :
  aligned c -> wf_chunk (push_entry c m).
Proof.
  intros [Hv Hr]. unfold wf_chunk, aligned, push_entry. simpl.
  rewrite !length_app. simpl. repeat split; try lia.
  intros H. apply app_eq_nil in H as [_ H]. discriminate.
Qed.

Lemma Inv_init : Inv loop_init.
Proof. split; simpl; auto. split; reflexivity. Qed.

Lemma aligned_empty : aligned empty_chunk.
Proof. split; reflexivity. Qed.

Create HintDb chunker.

#[local] Hint Resolve aligned_empty Inv_init push_entry_wf : chunker.

Lemma chunk_step_inv (min : Z) (st : LoopState) (m : MiniChunk) :
  Inv st -> exists st', chunk_step min st m = Ok st' /\ Inv st'.
Proof.
  intros [Hc Ha Hr]. unfold chunk_step.
  destruct (Z.of_nat (count_words (mc_text m)) >=? min)%Z.
  - eexists. split; [reflexivity|].
    destruct (nonempty (texts (current_chunk st))) eqn:Hn.
    + apply nonempty_true in Hn.
      split; simpl; auto with chunker.
      rewrite !Forall_app. repeat split; auto.
      * repeat constructor. exact Hn. all: apply Ha.
      * repeat constructor; discriminate.
    + split; simpl; auto.
      rewrite Forall_app. split; auto.
      repeat constructor; discriminate.
  - destruct (nonempty (texts (current_chunk st))) eqn:Hn.
    + apply nonempty_true in Hn.
      destruct ((Z.of_nat (current_word_count st + count_words (mc_text m))
                 >=? min)%Z); simpl.
      * destruct (speaker_eqb _ _).
        -- destruct (merge_entry_ok _ m Ha Hn) as (c & -> & Hwf). simpl.
           eexists. split; [reflexivity|].
           split; simpl; auto with chunker.
           rewrite Forall_app. split; auto.
        -- simpl. eexists. split; [reflexivity|].
           split; simpl; auto with chunker.
           rewrite Forall_app. split; auto with chunker.
      * destruct (speaker_eqb _ _); simpl.
        -- destruct (merge_entry_ok _ m Ha Hn) as (c & -> & Hwf). simpl.
           eexists. split; [reflexivity|].
           split; simpl; auto; [apply Hwf|].
           intros E. destruct Hwf as [Hwf _]. contradiction.
        -- eexists. split; [reflexivity|].
           split; simpl; auto; [apply push_entry_wf; auto|].
           intros E. apply app_eq_nil in E as [_ E]. discriminate.
    + rewrite !andb_false_r. eexists. split; [reflexivity|].
      split; simpl; auto; [apply push_entry_wf; auto|].
      intros E. apply app_eq_nil in E as [_ E]. discriminate.
Qed.

Lemma chunk_loop_inv (min : Z) (ms : list MiniChunk) :
  forall st, Inv st -> exists st', chunk_loop min st ms = Ok st' /\ Inv st'.
Proof.
  induction ms as [|m ms IH]; intros st HI; simpl.
  - eauto.
  - destruct (chunk_step_inv min st m HI) as (st1 & -> & HI1). simpl.
    apply IH, HI1.
Qed.

Lemma finish_wf (st : LoopState) : Inv st -> Forall wf_chunk (finish st).
Proof.
  intros [Hc Ha _]. unfold finish.
  destruct (nonempty _) eqn:Hn; auto.
  apply nonempty_true in Hn. rewrite Forall_app. split; auto.
  repeat constructor; auto; apply Ha.
Qed.

(** [combine] never raises, and returns well-formed chunks. *)
Lemma combine_wf (min : Z) (ms : list MiniChunk) :
  exists cs, combine min ms = Ok cs /\ Forall wf_chunk cs.
Proof.
  unfold combine.
  destruct (chunk_loop_inv min ms loop_init Inv_init) as (st & -> & HI).
  simpl. eauto using finish_wf.
Qed.

(** The voice lists are long enough for every index the loop uses. *)
Lemma build_mini_chunks_ok (vcs vts : list string) (txts : list string) :
  forall i,
    (i + length txts <= length vcs)%nat ->
    (i + length txts <= length vts)%nat ->
    exists ms, build_mini_chunks i txts vcs vts = Ok ms
               /\ map mc_text ms = flat_map split_into_sentences txts.
Proof.
  induction txts as [|t txts IH]; intros i Hv Hr; simpl in *.
  - exists []. auto.
  - destruct (lookup_lt_is_Some_2 vcs i ltac:(lia)) as [vc Hvc].
    destruct (lookup_lt_is_Some_2 vts i ltac:(lia)) as [vt Hvt].
    assert (Hm : mini_chunks_of i t vcs vts
                 = Ok (map (fun s => mkMini s vc vt) (split_into_sentences t))).
    { unfold mini_chunks_of. rewrite Hvc, Hvt.
      induction (split_into_sentences t) as [|s l IHl]; simpl; [reflexivity|].
      rewrite IHl. reflexivity. }
    rewrite Hm. simpl.
    destruct (IH (S i) ltac:(lia) ltac:(lia)) as (ms' & -> & Hms'). simpl.
    eexists. split; [reflexivity|].
    rewrite map_app, map_map, Hms'. simpl. rewrite map_id. reflexivity.
Qed.

Lemma lengths_checked (txts vcs vts : list string) :
  length txts = length vcs -> length txts = length vts ->
  negb (length txts =? length vcs)%nat || negb (length txts =? length vts)%nat
  = false.
Proof.
  intros -> E. rewrite E, !Nat.eqb_refl. reflexivity.
Qed.

Lemma lengths_rejected (txts vcs vts : list string) :
  length txts <> length vcs \/ length txts <> length vts ->
  negb (length txts =? length vcs)%nat || negb (length txts =? length vts)%nat
  = true.
Proof.
  intros [H|H]; apply Nat.eqb_neq in H; rewrite H; simpl; auto using orb_true_r.
Qed.

(** C8. Lists of different lengths raise the validation error, and three
    empty lists give the empty chunk list, whatever the minimum is. *)
Theorem chunk_sentences_validates_lengths :
  forall (txts vcs vts : list string) (min : Z),
    (length txts <> length vcs \/ length txts <> length vts ->
     chunk_sentences txts vcs vts min
     = Err (ValueError "All input lists must have the same length"))
    /\ chunk_sentences [] [] [] min = Ok [].
Proof.
  intros txts vcs vts min. split; [|reflexivity].
  intros H. unfold chunk_sentences. rewrite lengths_rejected by exact H.
  reflexivity.
Qed.

Lemma chunk_sentences_validates_lengths_witness :
  (length ["text"] <> length (@nil string)
   \/ length ["text"] <> length ["transcription"])
  /\ chunk_sentences ["text"] [] ["transcription"] 20
     = Err (ValueError "All input lists must have the same length").
Proof.
  split; [left; simpl; lia|].
  apply (chunk_sentences_validates_lengths ["text"] [] ["transcription"] 20).
  left. simpl. lia.
Defined.

(** C10. On lists of equal length the chunker returns, and every chunk it
    returns has a non-empty text list and voice lists of that length. *)
Theorem chunk_sentences_chunks_aligned :
  forall (txts vcs vts : list string) (min : Z),
    length txts = length vcs -> length txts = length vts ->
    exists cs,
      chunk_sentences txts vcs vts min = Ok cs
      /\ Forall (fun c => texts c <> []
                          /\ length (voice_clones c) = length (texts c)
                          /\ length (voice_transcriptions c) = length (texts c))
                cs.
Proof.
  intros txts vcs vts min Hv Hr. unfold chunk_sentences.
  rewrite lengths_checked by assumption.
  destruct (nonempty txts); simpl; [|eauto].
  destruct (build_mini_chunks_ok vcs vts txts 0) as (ms & -> & _); [lia..|].
  simpl. destruct (nonempty ms); simpl; [|eauto].
  destruct (combine_wf min ms) as (cs & -> & Hwf).
  exists cs. split; [reflexivity|].
  eapply Forall_impl; [exact Hwf|]. intros c [H1 [H2 H3]]. auto.
Qed.

Lemma chunk_sentences_chunks_aligned_witness :
  exists cs,
    chunk_sentences ["Hello there! How are you? I'm doing well."]
                    ["Speaker.wav"] ["Speaker transcription"] 5 = Ok cs
    /\ Forall (fun c => texts c <> []
                        /\ length (voice_clones c) = length (texts c)
                        /\ length (voice_transcriptions c) = length (texts c))
              cs.
Proof.
  apply (chunk_sentences_chunks_aligned
           ["Hello there! How are you? I'm doing well."]
           ["Speaker.wav"] ["Speaker transcription"] 5); reflexivity.
Defined.

(** *** Isolation of long sentences *)

Lemma chunk_step_shift (min : Z) (P : list Chunk) (st : LoopState) (m : MiniChunk) :
  chunk_step min (shift P st) m = shift_r P (chunk_step min st m).
Proof.
  unfold chunk_step, shift. simpl.
  destruct (_ >=? _)%Z.
  - destruct (nonempty _); simpl; unfold shift; simpl; rewrite <- ?app_assoc; reflexivity.
  - destruct (_ && _).
    + destruct (speaker_eqb _ _); [destruct (merge_entry _ _)|]; simpl;
        unfold shift; simpl; rewrite <- ?app_assoc; reflexivity.
    + destruct (_ && _); [destruct (merge_entry _ _)|]; simpl; reflexivity.
Qed.

Lemma chunk_loop_shift (min : Z) (P : list Chunk) (ms : list MiniChunk) :
  forall st, chunk_loop min (shift P st) ms = shift_r P (chunk_loop min st ms).
Proof.
  induction ms as [|m ms IH]; intros st; simpl; [reflexivity|].
  rewrite chunk_step_shift. destruct (chunk_step min st m); simpl; auto.
Qed.

Lemma chunk_loop_app (min : Z) (ms1 ms2 : list MiniChunk) :
  forall st,
    chunk_loop min st (ms1 ++ ms2)
    = let? st' := chunk_loop min st ms1 in chunk_loop min st' ms2.
Proof.
  induction ms1 as [|m ms1 IH]; intros st; simpl; [reflexivity|].
  destruct (chunk_step min st m); simpl; auto.
Qed.

Lemma finish_shift (P : list Chunk) (st : LoopState) :
  finish (shift P st) = P ++ finish st.
Proof.
  unfold finish, shift. simpl. destruct (nonempty _); rewrite <- ?app_assoc; reflexivity.
Qed.

Lemma shift_shift (P Q : list Chunk) (st : LoopState) :
  shift P (shift Q st) = shift (P ++ Q) st.
Proof. unfold shift. simpl. rewrite app_assoc. reflexivity. Qed.

(** A sentence of at least [min] words closes the chunk being built and
    is emitted alone; the loop restarts from its initial state. *)
Lemma chunk_step_isolated (min : Z) (st : LoopState) (m : MiniChunk) :
  Inv st ->
  (Z.of_nat (count_words (mc_text m)) >= min)%Z ->
  chunk_step min st m = Ok (shift (finish st ++ [singleton_chunk m]) loop_init).
Proof.
  intros [Hc Ha Hr] Hge. unfold chunk_step.
  apply Z.geb_ge in Hge. rewrite Hge. unfold finish, shift. simpl.
  destruct (nonempty (texts (current_chunk st))) eqn:Hn; simpl.
  - rewrite app_nil_r. reflexivity.
  - apply nonempty_false in Hn. destruct (Hr Hn) as [-> ->].
    rewrite (aligned_empty_texts _ Ha Hn), app_nil_r. reflexivity.
Qed.

Lemma combine_isolated (min : Z) (pre post : list MiniChunk) (m : MiniChunk) :
  (Z.of_nat (count_words (mc_text m)) >= min)%Z ->
  exists cs1 cs2,
    combine min pre = Ok cs1 /\ combine min post = Ok cs2
    /\ combine min (pre ++ m :: post) = Ok (cs1 ++ singleton_chunk m :: cs2).
Proof.
  intros Hge. unfold combine.
  destruct (chunk_loop_inv min pre loop_init Inv_init) as (st1 & E1 & HI1).
  destruct (chunk_loop_inv min post loop_init Inv_init) as (st2 & E2 & HI2).
  exists (finish st1), (finish st2).
  rewrite chunk_loop_app, E1, E2. simpl.
  rewrite (chunk_step_isolated min st1 m HI1 Hge). simpl.
  rewrite chunk_loop_shift, E2. simpl. rewrite finish_shift.
  rewrite <- app_assoc. auto.
Qed.

Lemma combine_all_isolated (min : Z) (ms : list MiniChunk) :
  (min <= 0)%Z -> combine min ms = Ok (map singleton_chunk ms).
Proof.
  intros Hmin. unfold combine.
  assert (H : forall P, chunk_loop min (shift P loop_init) ms
                        = Ok (shift (P ++ map singleton_chunk ms) loop_init)).
  { induction ms as [|m ms IH]; intros P; simpl.
    - rewrite app_nil_r. reflexivity.
    - rewrite chunk_step_shift, (chunk_step_isolated min loop_init m Inv_init) by lia.
      cbn [shift_r rbind]. rewrite shift_shift.
      change (finish loop_init) with (@nil Chunk). rewrite app_nil_l.
      rewrite IH, <- app_assoc. reflexivity. }
  specialize (H []). unfold shift at 1 in H. simpl in H.
  change (mkLoop [] empty_chunk 0 None) with loop_init in H.
  rewrite H. simpl. rewrite finish_shift. unfold finish. simpl.
  rewrite app_nil_r. reflexivity.
Qed.

(** C7. A sentence with at least [min] words is returned as a chunk of its
    own: the chunks before it are those of the sentences before it, the
    chunks after it those of the sentences after it.  With [min = 0] there
    are as many chunks as sentences. *)
Theorem long_sentence_is_singleton_chunk :
  forall (txts vcs vts : list string) (min : Z),
    length txts = length vcs -> length txts = length vts ->
    (forall pre m post,
        build_mini_chunks 0 txts vcs vts = Ok (pre ++ m :: post) ->
        (Z.of_nat (count_words (mc_text m)) >= min)%Z ->
        exists cs1 cs2,
          combine min pre = Ok cs1 /\ combine min post = Ok cs2
          /\ chunk_sentences txts vcs vts min
             = Ok (cs1 ++ singleton_chunk m :: cs2))
    /\ (exists cs,
           chunk_sentences txts vcs vts 0 = Ok cs
           /\ length cs = length (flat_map split_into_sentences txts)).
Proof.
  intros txts vcs vts min Hv Hr. split.
  - intros pre m post Hb Hge.
    destruct (combine_isolated min pre post m Hge) as (cs1 & cs2 & E1 & E2 & E).
    exists cs1, cs2. repeat split; auto.
    unfold chunk_sentences. rewrite lengths_checked by assumption.
    destruct txts as [|t txts]; simpl nonempty; cbv iota.
    { simpl in Hb. destruct pre; discriminate. }
    simpl negb. cbv iota. rewrite Hb. simpl rbind.
    destruct pre; simpl nonempty; exact E.
  - unfold chunk_sentences. rewrite lengths_checked by assumption.
    destruct (build_mini_chunks_ok vcs vts txts 0) as (ms & E & Hms); [lia..|].
    rewrite <- Hms, length_map.
    destruct (nonempty txts) eqn:Hn; simpl.
    + rewrite E. simpl. destruct ms as [|m ms]; simpl; [eauto|].
      change (combine 0 (m :: ms)) with (combine 0 (m :: ms)).
      rewrite (combine_all_isolated 0 (m :: ms)) by lia.
      eexists. split; [reflexivity|]. simpl. rewrite length_map. reflexivity.
    + apply nonempty_false in Hn. subst txts. simpl in E. injection E as <-.
      eauto.
Qed.

Lemma long_sentence_is_singleton_chunk_witness :
  exists cs1 cs2,
    combine 4 [mkMini "Short one." "A.wav" "A trans"] = Ok cs1
    /\ combine 4 [mkMini "Another short." "C.wav" "C trans"] = Ok cs2
    /\ chunk_sentences ["Short one."; "This one has five words."; "Another short."]
                       ["A.wav"; "B.wav"; "C.wav"]
                       ["A trans"; "B trans"; "C trans"] 4
       = Ok (cs1 ++ singleton_chunk
                      (mkMini "This one has five words." "B.wav" "B trans") :: cs2).
Proof.
  apply (proj1 (long_sentence_is_singleton_chunk
                  ["Short one."; "This one has five words."; "Another short."]
                  ["A.wav"; "B.wav"; "C.wav"]
                  ["A trans"; "B trans"; "C trans"] 4 eq_refl eq_refl)
               [mkMini "Short one." "A.wav" "A trans"]
               (mkMini "This one has five words." "B.wav" "B trans")
               [mkMini "Another short." "C.wav" "C trans"]).
  - vm_compute. reflexivity.
  - vm_compute. discriminate.
Defined.

(** *** The chunks regroup the sentences *)

Lemma entries_app cs1 cs2 : entries (cs1 ++ cs2) = entries cs1 ++ entries cs2.
Proof. unfold entries. apply flat_map_app. Qed.

Lemma entries_singleton c : entries [c] = entries_of c.
Proof. unfold entries. simpl. apply app_nil_r. Qed.

Lemma entries_of_empty : entries_of empty_chunk = [].
Proof. reflexivity. Qed.

Lemma entries_of_push c m :
  aligned c -> entries_of (push_entry c m) = entries_of c ++ [(mc_text m, speaker m)].
Proof.
  intros [Hv Hr]. unfold entries_of, push_entry. simpl.
  rewrite (zip_with_app pair (voice_clones c)) by congruence.
  rewrite zip_with_app by (rewrite length_zip_with; lia).
  reflexivity.
Qed.

Lemma snoc_of_length {A} (l : list A) n :
  length l = S n -> exists l' x, l = l' ++ [x] /\ length l' = n.
Proof.
  destruct l as [|y l0] using rev_ind; [discriminate|].
  rewrite length_app. simpl. intros H. exists l0, y. split; [reflexivity|lia].
Qed.

Lemma entries_of_merge c m es t sp :
  aligned c -> entries_of c = es ++ [(t, sp)] ->
  exists c',
    merge_entry c m = Ok c'
    /\ entries_of c' = es ++ [(t +:+ " " +:+ mc_text m, sp)].
Proof.
  intros [Hv Hr] He. unfold entries_of in He.
  destruct (texts c) as [|t0 ts0] eqn:Ht using rev_ind.
  { simpl in He. destruct es; discriminate. }
  clear IHts0. rewrite length_app in Hv, Hr. simpl in Hv, Hr.
  destruct (snoc_of_length (voice_clones c) (length ts0)) as (vs & v & Ev & Lv);
    [lia|].
  destruct (snoc_of_length (voice_transcriptions c) (length ts0))
    as (rs & r & Er & Lr); [lia|].
  rewrite Ev, Er in He.
  rewrite (zip_with_app pair vs [v] rs [r]) in He by congruence.
  rewrite zip_with_app in He by (rewrite length_zip_with; lia).
  simpl in He. apply app_inj_tail in He as [<- [= <- <-]].
  unfold merge_entry. rewrite Ht, append_to_last_snoc. simpl.
  eexists. split; [reflexivity|].
  unfold entries_of. simpl. rewrite Ev, Er.
  rewrite (zip_with_app pair vs [v] rs [r]) by congruence.
  rewrite zip_with_app by (rewrite length_zip_with; lia).
  reflexivity.
Qed.

Lemma entries_of_nil c : texts c = [] -> entries_of c = [].
Proof. unfold entries_of. intros ->. reflexivity. Qed.

Lemma entries_finish st :
  entries (finish st) = entries (chunks st) ++ entries_of (current_chunk st).
Proof.
  unfold finish. destruct (nonempty (texts (current_chunk st))) eqn:Hn.
  - rewrite entries_app, entries_singleton. reflexivity.
  - apply nonempty_false in Hn. rewrite (entries_of_nil _ Hn), app_nil_r.
    reflexivity.
Qed.

Lemma speaker_eqb_true a b : speaker_eqb a b = true -> b = Some a.
Proof.
  destruct b as [b|]; simpl; [|discriminate].
  intros H. apply bool_decide_eq_true in H. congruence.
Qed.

Lemma Tracks_init : Tracks [] loop_init.
Proof. split; [constructor|]. intros H. contradiction. Qed.

Lemma chunk_step_tracks (min : Z) (ms : list MiniChunk) (st st' : LoopState)
    (m : MiniChunk) :
  Inv st -> Tracks ms st -> chunk_step min st m = Ok st' ->
  Tracks (ms ++ [m]) st'.
Proof.
  intros HI [Hreg Hlast] E.
  destruct (Z.of_nat (count_words (mc_text m)) >=? min)%Z eqn:Hlong.
  { rewrite (chunk_step_isolated min st m HI) in E by (apply Z.geb_ge, Hlong).
    injection E as <-. split; [|intros H; contradiction].
    unfold shift. simpl. rewrite !app_nil_r, entries_app, entries_finish.
    apply (regrouped_new ms _ m Hreg). }
  destruct HI as [Hc Ha Hr]. unfold chunk_step in E. rewrite Hlong in E.
  destruct (nonempty (texts (current_chunk st))) eqn:Hn.
  - apply nonempty_true in Hn.
    destruct (Hlast Hn) as (es & t & sp & Hes & Hsp).
    destruct (speaker_eqb _ (current_speaker_info st)) eqn:Hsame.
    + apply speaker_eqb_true in Hsame. rewrite Hsp in Hsame.
      injection Hsame as ->. fold (speaker m) in Hes, Hsp.
      destruct (entries_of_merge _ m es t _ Ha Hes) as (c' & Hm & He').
      rewrite Hm in E. simpl in E.
      assert (Hreg' : Regrouped (ms ++ [m])
                        ((entries (chunks st) ++ es)
                         ++ [(t +:+ " " +:+ mc_text m, speaker m)])).
      { apply regrouped_join. rewrite <- app_assoc, <- Hes. exact Hreg. }
      destruct (_ >=? _)%Z; simpl in E; injection E as <-; unfold Tracks; simpl.
      * split; [|intros H; contradiction].
        rewrite entries_app, entries_singleton, He', app_nil_r, app_assoc.
        exact Hreg'.
      * split.
        -- rewrite He', app_assoc. exact Hreg'.
        -- intros _. exists es, (t +:+ " " +:+ mc_text m), (speaker m). auto.
    + assert (Hreg' : Regrouped (ms ++ [m])
                        ((entries (chunks st) ++ entries_of (current_chunk st))
                         ++ [(mc_text m, speaker m)]))
        by (apply regrouped_new, Hreg).
      destruct (_ >=? _)%Z; simpl in E; injection E as <-; unfold Tracks; simpl.
      * split; [|intros H; contradiction].
        rewrite entries_app, entries_singleton, entries_of_push, app_nil_r,
          app_assoc by exact Ha.
        exact Hreg'.
      * split.
        -- rewrite entries_of_push, app_assoc by exact Ha. exact Hreg'.
        -- intros _. rewrite entries_of_push by exact Ha. eauto.
  - rewrite !andb_false_r in E. injection E as <-. unfold Tracks. simpl. split.
    + rewrite entries_of_push, app_assoc by exact Ha.
      apply regrouped_new, Hreg.
    + intros _. rewrite entries_of_push by exact Ha. eauto.
Qed.

Lemma chunk_loop_tracks (min : Z) (ms2 : list MiniChunk) :
  forall ms1 st st',
    Inv st -> Tracks ms1 st -> chunk_loop min st ms2 = Ok st' ->
    Tracks (ms1 ++ ms2) st'.
Proof.
  induction ms2 as [|m ms2 IH]; intros ms1 st st' HI HT E; simpl in E.
  - injection E as <-. rewrite app_nil_r. exact HT.
  - destruct (chunk_step_inv min st m HI) as (st1 & E1 & HI1).
    rewrite E1 in E. simpl in E.
    replace (ms1 ++ m :: ms2) with ((ms1 ++ [m]) ++ ms2)
      by (rewrite <- app_assoc; reflexivity).
    eapply IH; eauto using chunk_step_tracks.
Qed.

Lemma build_mini_chunks_units (vcs vts : list string) (txts : list string) :
  forall i,
    (i + length txts <= length vcs)%nat ->
    (i + length txts <= length vts)%nat ->
    build_mini_chunks i txts vcs vts
    = Ok (mini_units txts (drop i vcs) (drop i vts)).
Proof.
  induction txts as [|t txts IH]; intros i Hv Hr; simpl in *; [reflexivity|].
  destruct (lookup_lt_is_Some_2 vcs i ltac:(lia)) as [vc Hvc].
  destruct (lookup_lt_is_Some_2 vts i ltac:(lia)) as [vt Hvt].
  assert (Hm : mini_chunks_of i t vcs vts
               = Ok (map (fun s => mkMini s vc vt) (split_into_sentences t))).
  { unfold mini_chunks_of. rewrite Hvc, Hvt.
    induction (split_into_sentences t) as [|s l IHl]; simpl; [reflexivity|].
    rewrite IHl. reflexivity. }
  rewrite Hm, IH by lia. simpl.
  rewrite (drop_S vcs vc i Hvc), (drop_S vts vt i Hvt). reflexivity.
Qed.

(** X1. On lists of equal length the chunker returns chunks whose text
    entries, read in order across the chunks, regroup the sentences that
    [split_into_sentences] produced, in their order, each under the voice
    pair of the text it comes from. *)
Theorem chunks_regroup_sentences :
  forall (txts vcs vts : list string) (min : Z),
    length txts = length vcs -> length txts = length vts ->
    exists cs,
      chunk_sentences txts vcs vts min = Ok cs
      /\ Regrouped (mini_units txts vcs vts) (entries cs).
Proof.
  intros txts vcs vts min Hv Hr. unfold chunk_sentences.
  rewrite lengths_checked by assumption.
  rewrite (build_mini_chunks_units vcs vts txts 0) by lia. rewrite !drop_0.
  destruct txts as [|t txts].
  { simpl. exists []. split; [reflexivity|constructor]. }
  simpl negb. cbv iota. simpl rbind.
  destruct (mini_units (t :: txts) vcs vts) as [|m ms] eqn:Hms.
  { simpl. exists []. split; [reflexivity|constructor]. }
  simpl negb. cbv iota. unfold combine.
  destruct (chunk_loop_inv min (m :: ms) loop_init Inv_init) as (st & E & HI).
  rewrite E. simpl. eexists. split; [reflexivity|].
  rewrite entries_finish.
  exact (proj1 (chunk_loop_tracks min (m :: ms) [] loop_init st Inv_init
                  Tracks_init E)).
Qed.

Lemma chunks_regroup_sentences_witness :
  exists cs,
    chunk_sentences ["Hello there! How are you? I'm doing well."]
                    ["Speaker.wav"] ["Speaker transcription"] 5 = Ok cs
    /\ Regrouped (mini_units ["Hello there! How are you? I'm doing well."]
                             ["Speaker.wav"] ["Speaker transcription"])
                 (entries cs).
Proof.
  apply (chunks_regroup_sentences
           ["Hello there! How are you? I'm doing well."]
           ["Speaker.wav"] ["Speaker transcription"] 5); reflexivity.
Defined.

(** *** The loop behind [chunk_sentences] *)

Lemma mini_units_nil vcs vts : mini_units [] vcs vts = [].
Proof. reflexivity. Qed.

(** On lists of equal length the chunker is the loop over the sentences
    followed by the final flush. *)
Lemma chunk_sentences_loop (txts vcs vts : list string) (min : Z) :
  length txts = length vcs -> length txts = length vts ->
  exists st,
    chunk_loop min loop_init (mini_units txts vcs vts) = Ok st
    /\ chunk_sentences txts vcs vts min = Ok (finish st)
    /\ Inv st.
Proof.
  intros Hv Hr. unfold chunk_sentences.
  rewrite lengths_checked by assumption.
  rewrite (build_mini_chunks_units vcs vts txts 0) by lia. rewrite !drop_0.
  destruct (chunk_loop_inv min (mini_units txts vcs vts) loop_init Inv_init)
    as (st & E & HI).
  exists st. split; [exact E|]. split; [|exact HI].
  destruct txts as [|t txts].
  { simpl in E. injection E as <-. reflexivity. }
  simpl negb. cbv iota. simpl rbind.
  destruct (mini_units (t :: txts) vcs vts) as [|m ms].
  { simpl in E. injection E as <-. reflexivity. }
  simpl negb. cbv iota. unfold combine. rewrite E. reflexivity.
Qed.

Lemma mini_units_texts txts vcs vts :
  length txts = length vcs -> length txts = length vts ->
  map mc_text (mini_units txts vcs vts) = flat_map split_into_sentences txts.
Proof.
  intros Hv Hr.
  destruct (build_mini_chunks_ok vcs vts txts 0) as (ms & E & Hms); [lia..|].
  rewrite (build_mini_chunks_units vcs vts txts 0) in E by lia.
  rewrite !drop_0 in E. injection E as <-. exact Hms.
Qed.

(** *** Words *)

Lemma count_words_join a b :
  count_words (a +:+ " " +:+ b) = (count_words a + count_words b)%nat.
Proof. unfold count_words. rewrite PyStrFacts.split_join, length_app. reflexivity. Qed.

Lemma count_words_first c r p :
  PyStr.isspace c = false -> (0 < count_words (String c r +:+ p))%nat.
Proof.
  intros H. unfold count_words. rewrite PyStrFacts.append_cons.
  pose proof (PyStrFacts.split_first_nonspace c (r +:+ p) H) as Hne.
  destruct (PyStr.split _); [congruence|simpl; lia].
Qed.

(** Every sentence holds a word. *)
Lemma split_into_sentences_words text :
  Forall (fun s => (0 < count_words s)%nat) (split_into_sentences text).
Proof.
  unfold split_into_sentences.
  induction (PyStr.re_split (PyStr.strip text)) as [|piece l IH]; simpl; [constructor|].
  apply Forall_app. split; [|exact IH].
  destruct (PyStrFacts.strip_head piece) as [->|(c & r & -> & Hc)]; simpl; [constructor|].
  destruct (PyStr.find _ _); repeat constructor.
  - apply count_words_first, Hc.
  - rewrite <- (PyStrFacts.append_empty_r (String c r)). apply count_words_first, Hc.
Qed.

Lemma mini_units_words txts vcs vts :
  Forall (fun m => (0 < count_words (mc_text m))%nat) (mini_units txts vcs vts).
Proof.
  unfold mini_units.
  induction (zip txts (zip vcs vts)) as [|e l IH]; simpl; [constructor|].
  apply Forall_app. split; [|exact IH].
  apply Forall_map. simpl. apply split_into_sentences_words.
Qed.

Lemma Regrouped_words ms es :
  Regrouped ms es ->
  Forall (fun m => (0 < count_words (mc_text m))%nat) ms ->
  Forall (fun e => (0 < count_words (fst e))%nat) es.
Proof.
  induction 1 as [|ms es m _ IH|ms es t m _ IH]; intros Hms.
  - constructor.
  - apply Forall_app in Hms as [Hms Hm]. apply Forall_app. split; [auto|].
    inversion Hm; subst. repeat constructor. assumption.
  - apply Forall_app in Hms as [Hms Hm].
    specialize (IH Hms). apply Forall_app in IH as [IH _].
    apply Forall_app. split; [exact IH|].
    repeat constructor. simpl. rewrite count_words_join.
    inversion Hm; subst. lia.
Qed.

Lemma Regrouped_length ms es :
  Regrouped ms es -> (length es <= length ms)%nat /\ (ms <> [] -> es <> []).
Proof.
  induction 1 as [|ms es m _ [IH _]|ms es t m _ [IH _]].
  - split; [reflexivity|congruence].
  - rewrite !length_app. simpl. split; [lia|]. intros _ E.
    apply app_eq_nil in E as [_ E]. discriminate.
  - rewrite !length_app in *. simpl in *. split; [lia|]. intros _ E.
    apply app_eq_nil in E as [_ E]. discriminate.
Qed.

Lemma texts_of_entries c : aligned c -> texts c = map fst (entries_of c).
Proof.
  intros [Hv Hr]. unfold entries_of. symmetry. apply fst_zip.
  rewrite length_zip. lia.
Qed.

Lemma entries_of_length c : aligned c -> length (entries_of c) = length (texts c).
Proof. intros H. rewrite (texts_of_entries c H), length_map. reflexivity. Qed.

Lemma entries_length cs :
  Forall wf_chunk cs -> (length cs <= length (entries cs))%nat.
Proof.
  induction 1 as [|c cs [Hne Ha] _ IH]; simpl; [lia|].
  rewrite length_app, (entries_of_length c Ha).
  destruct (texts c); [congruence|simpl; lia].
Qed.

Lemma entries_elem c cs e : c ∈ cs -> e ∈ entries_of c -> e ∈ entries cs.
Proof.
  intros Hc He. unfold entries. apply list_elem_of_In, in_flat_map.
  exists c. split; apply list_elem_of_In; assumption.
Qed.

(** *** The word counter *)

Lemma sum_list_snoc l n : sum_list (l ++ [n]) = (sum_list l + n)%nat.
Proof. induction l as [|x l IH]; simpl; lia. Qed.

Lemma chunk_words_push c m :
  chunk_words (push_entry c m) = (chunk_words c + count_words (mc_text m))%nat.
Proof.
  unfold chunk_words, push_entry. simpl. rewrite fmap_app. cbn [fmap list_fmap].
  apply sum_list_snoc.
Qed.

Lemma chunk_words_merge c m c' :
  merge_entry c m = Ok c' ->
  chunk_words c' = (chunk_words c + count_words (mc_text m))%nat.
Proof.
  unfold merge_entry, chunk_words.
  destruct (texts c) as [|x l _] using rev_ind; [discriminate|].
  rewrite append_to_last_snoc. simpl. intros [= <-]. simpl.
  rewrite !fmap_app. cbn [fmap list_fmap]. rewrite !sum_list_snoc.
  rewrite count_words_join. lia.
Qed.

Lemma chunk_words_singleton m :
  chunk_words (singleton_chunk m) = count_words (mc_text m).
Proof. unfold chunk_words. simpl. lia. Qed.

Lemma WordInv_init min L : WordInv min L loop_init.
Proof. split; simpl; [reflexivity|congruence|constructor]. Qed.

Lemma chunk_step_words (min : Z) (L : list MiniChunk) (st st' : LoopState)
    (m : MiniChunk) :
  Inv st -> WordInv min L st -> m ∈ L -> chunk_step min st m = Ok st' ->
  WordInv min L st'.
Proof.
  intros [_ _ Hreset] [Hcount Hsmall Hchunks] Hm E. unfold chunk_step in E.
  destruct (Z.of_nat (count_words (mc_text m)) >=? min)%Z eqn:Hlong.
  { apply Z.geb_le in Hlong.
    assert (Hs : bounded min L (singleton_chunk m)) by (left; eauto).
    destruct (nonempty (texts (current_chunk st))) eqn:Hn;
      injection E as <-; split; simpl; auto.
    - congruence.
    - apply nonempty_true in Hn. specialize (Hsmall Hn).
      rewrite !Forall_app. split; [split; [exact Hchunks|]|]; apply Forall_singleton;
        [|exact Hs].
      right. rewrite <- Hcount. lia.
    - rewrite Forall_app. split; [exact Hchunks|]. apply Forall_singleton, Hs. }
  rewrite Z.geb_leb in Hlong. apply Z.leb_gt in Hlong.
  destruct (nonempty (texts (current_chunk st))) eqn:Hn.
  - apply nonempty_true in Hn. specialize (Hsmall Hn). rewrite !andb_true_r in E.
    destruct (Z.of_nat (current_word_count st + count_words (mc_text m)) >=? min)%Z
      eqn:Hsum.
    + assert (Hc : forall c,
                chunk_words c
                = (chunk_words (current_chunk st) + count_words (mc_text m))%nat ->
                bounded min L c).
      { intros c Hw. right. rewrite Hw, <- Hcount. lia. }
      destruct (speaker_eqb _ _).
      * destruct (merge_entry _ _) as [c|] eqn:Hmerge; [|discriminate].
        injection E as <-. split; simpl; [reflexivity|congruence|].
        rewrite Forall_app. split; [exact Hchunks|]. apply Forall_singleton.
        apply Hc, (chunk_words_merge _ _ _ Hmerge).
      * injection E as <-. split; simpl; [reflexivity|congruence|].
        rewrite Forall_app. split; [exact Hchunks|]. apply Forall_singleton.
        apply Hc, chunk_words_push.
    + rewrite Z.geb_leb in Hsum. apply Z.leb_gt in Hsum.
      destruct (speaker_eqb _ _).
      * destruct (merge_entry _ _) as [c|] eqn:Hmerge; [|discriminate].
        injection E as <-. split; simpl; auto.
        rewrite (chunk_words_merge _ _ _ Hmerge). congruence.
      * injection E as <-. split; simpl; auto.
        rewrite chunk_words_push. congruence.
  - apply nonempty_false in Hn. destruct (Hreset Hn) as [H0 _].
    rewrite !andb_false_r in E. injection E as <-. split; simpl; auto.
    + rewrite chunk_words_push. congruence.
    + intros _. rewrite H0. simpl. lia.
Qed.

Lemma chunk_loop_words (min : Z) (L : list MiniChunk) (ms : list MiniChunk) :
  forall st st',
    Inv st -> WordInv min L st -> (forall m, m ∈ ms -> m ∈ L) ->
    chunk_loop min st ms = Ok st' -> WordInv min L st'.
Proof.
  induction ms as [|m ms IH]; intros st st' HI HW HL E; simpl in E.
  - injection E as <-. exact HW.
  - destruct (chunk_step_inv min st m HI) as (st1 & E1 & HI1).
    rewrite E1 in E. simpl in E.
    assert (HW1 : WordInv min L st1).
    { apply (chunk_step_words min L st st1 m HI HW); [|exact E1].
      apply HL. set_solver. }
    apply (IH st1 st' HI1 HW1); [|exact E].
    intros x Hx. apply HL. set_solver.
Qed.

Lemma finish_words min L st :
  WordInv min L st -> Forall (bounded min L) (finish st).
Proof.
  intros [Hcount Hsmall Hchunks]. unfold finish.
  destruct (nonempty _) eqn:Hn; auto.
  apply nonempty_true in Hn. specialize (Hsmall Hn).
  rewrite Forall_app. split; [exact Hchunks|]. apply Forall_singleton.
  right. rewrite <- Hcount. lia.
Qed.

(** *** Texts without sentences, texts of one sentence *)

Lemma split_into_sentences_wordless text :
  wordless text -> split_into_sentences text = [].
Proof.
  intros Hw. unfold split_into_sentences.
  assert (Hp : Forall (fun piece => all_chars PyStr.isspace piece = true)
                 (PyStr.re_split (PyStr.strip text))).
  { apply PyStrFacts.re_split_go_wordless; [|reflexivity].
    apply PyStrFacts.all_chars_strip, Hw. }
  induction Hp as [|piece l Hpiece _ IH]; simpl; [reflexivity|].
  rewrite (PyStrFacts.strip_blank piece Hpiece). simpl. exact IH.
Qed.

Lemma punctuation_after_unpunctuated text end_pos :
  unpunctuated text -> punctuation_after text end_pos = "".
Proof.
  intros H. unfold punctuation_after.
  rewrite PyStrFacts.span_none; [reflexivity|].
  apply PyStrFacts.all_chars_drop, H.
Qed.

Lemma split_into_sentences_unpunctuated text :
  unpunctuated text -> PyStr.strip text <> "" ->
  split_into_sentences text = [PyStr.strip text].
Proof.
  intros Hu Hne. unfold split_into_sentences.
  rewrite PyStrFacts.re_split_unpunctuated
    by (apply PyStrFacts.all_chars_strip, Hu).
  simpl. rewrite PyStrFacts.strip_idem.
  apply PyStrFacts.is_empty_false in Hne. rewrite Hne.
  destruct (PyStr.find _ _); [|reflexivity].
  rewrite punctuation_after_unpunctuated by exact Hu.
  rewrite PyStrFacts.append_empty_r. reflexivity.
Qed.

(** X2. On lists of equal length, every text entry of every chunk the
    chunker returns holds at least one word; no entry is empty or blank. *)
Theorem chunk_entries_hold_words :
  forall (txts vcs vts : list string) (min : Z),
    length txts = length vcs -> length txts = length vts ->
    exists cs,
      chunk_sentences txts vcs vts min = Ok cs
      /\ forall c t, c ∈ cs -> t ∈ texts c ->
                     (0 < count_words t)%nat /\ t <> "".
Proof.
  intros txts vcs vts min Hv Hr.
  destruct (chunk_sentences_loop txts vcs vts min Hv Hr) as (st & E & -> & HI).
  eexists. split; [reflexivity|]. intros c t Hc Ht.
  assert (Hw : (0 < count_words t)%nat).
  { pose proof (chunk_loop_tracks min _ [] loop_init st Inv_init Tracks_init E)
      as [Hreg _].
    rewrite <- entries_finish in Hreg. simpl in Hreg.
    pose proof (Regrouped_words _ _ Hreg (mini_units_words txts vcs vts)) as Hall.
    pose proof (finish_wf st HI) as Hwf.
    rewrite Forall_forall in Hwf. destruct (Hwf c Hc) as [_ Ha].
    rewrite (texts_of_entries c Ha) in Ht.
    apply list_elem_of_fmap in Ht as (e & -> & He).
    rewrite Forall_forall in Hall. apply Hall.
    eapply entries_elem; eauto. }
  split; [exact Hw|]. intros ->. vm_compute in Hw. lia.
Qed.

Lemma chunk_entries_hold_words_witness :
  exists cs,
    chunk_sentences ["Hello there!  ...  How are you?"; "  "; "Fine."]
                    ["A.wav"; "B.wav"; "A.wav"] ["a"; "b"; "a"] 3 = Ok cs
    /\ forall c t, c ∈ cs -> t ∈ texts c ->
                   (0 < count_words t)%nat /\ t <> "".
Proof.
  apply (chunk_entries_hold_words
           ["Hello there!  ...  How are you?"; "  "; "Fine."]
           ["A.wav"; "B.wav"; "A.wav"] ["a"; "b"; "a"] 3); reflexivity.
Defined.

(** X3. Texts that hold nothing but whitespace and the characters [.!?]
    contain no sentence: when every text is such, the chunker returns no
    chunk at all. *)
Theorem wordless_texts_give_no_chunk :
  forall (txts vcs vts : list string) (min : Z),
    length txts = length vcs -> length txts = length vts ->
    Forall wordless txts ->
    flat_map split_into_sentences txts = []
    /\ chunk_sentences txts vcs vts min = Ok [].
Proof.
  intros txts vcs vts min Hv Hr Hw.
  assert (Hs : flat_map split_into_sentences txts = []).
  { clear Hv Hr. induction Hw as [|t l Ht _ IH]; simpl; [reflexivity|].
    rewrite (split_into_sentences_wordless t Ht), IH. reflexivity. }
  split; [exact Hs|].
  destruct (chunk_sentences_loop txts vcs vts min Hv Hr) as (st & E & -> & _).
  pose proof (mini_units_texts txts vcs vts Hv Hr) as Hm. rewrite Hs in Hm.
  apply map_eq_nil in Hm. rewrite Hm in E. simpl in E. injection E as <-.
  reflexivity.
Qed.

Lemma wordless_texts_give_no_chunk_witness :
  flat_map split_into_sentences [""; "   "; "..."; " ?! . "] = []
  /\ chunk_sentences [""; "   "; "..."; " ?! . "]
                     ["A.wav"; "B.wav"; "A.wav"; "B.wav"] ["a"; "b"; "a"; "b"] 20
     = Ok [].
Proof.
  apply (wordless_texts_give_no_chunk [""; "   "; "..."; " ?! . "]
           ["A.wav"; "B.wav"; "A.wav"; "B.wav"] ["a"; "b"; "a"; "b"] 20);
    [reflexivity|reflexivity|].
  repeat constructor.
Defined.

(** X4. A text without any of the characters [.!?] is one sentence, the
    text stripped of the whitespace around it; given alone to the chunker it
    comes back as one chunk of one entry, whatever the minimum is. *)
Theorem unpunctuated_text_is_one_sentence :
  forall (text : string),
    unpunctuated text -> PyStr.strip text <> "" ->
    split_into_sentences text = [PyStr.strip text]
    /\ forall (voice transcription : string) (min : Z),
         chunk_sentences [text] [voice] [transcription] min
         = Ok [mkChunk [PyStr.strip text] [voice] [transcription]].
Proof.
  intros text Hu Hne.
  pose proof (split_into_sentences_unpunctuated text Hu Hne) as Hs.
  split; [exact Hs|]. intros voice transcription min.
  unfold chunk_sentences. simpl. unfold mini_chunks_of. rewrite Hs. simpl.
  unfold combine. simpl. unfold chunk_step. simpl.
  destruct (_ >=? _)%Z; reflexivity.
Qed.

Lemma unpunctuated_text_is_one_sentence_witness :
  split_into_sentences "  no full stop here " = [PyStr.strip "  no full stop here "]
  /\ forall (voice transcription : string) (min : Z),
       chunk_sentences ["  no full stop here "] [voice] [transcription] min
       = Ok [mkChunk [PyStr.strip "  no full stop here "] [voice] [transcription]].
Proof.
  apply (unpunctuated_text_is_one_sentence "  no full stop here ").
  - reflexivity.
  - vm_compute. discriminate.
Defined.

(** X5. Every chunk the chunker returns is either one sentence of at least
    [min] words, alone in its chunk, or holds fewer than [2 * min - 1]
    words. *)
Theorem chunk_sizes_bounded :
  forall (txts vcs vts : list string) (min : Z),
    length txts = length vcs -> length txts = length vts ->
    exists cs,
      chunk_sentences txts vcs vts min = Ok cs
      /\ forall c, c ∈ cs ->
           (exists m, m ∈ mini_units txts vcs vts /\ c = singleton_chunk m
                      /\ (min <= Z.of_nat (count_words (mc_text m)))%Z)
           \/ (Z.of_nat (chunk_words c) + 2 <= 2 * min)%Z.
Proof.
  intros txts vcs vts min Hv Hr.
  destruct (chunk_sentences_loop txts vcs vts min Hv Hr) as (st & E & -> & HI).
  eexists. split; [reflexivity|].
  assert (HW : WordInv min (mini_units txts vcs vts) st).
  { apply (chunk_loop_words min _ (mini_units txts vcs vts) loop_init st);
      auto using Inv_init, WordInv_init. }
  pose proof (finish_words _ _ _ HW) as Hall. rewrite Forall_forall in Hall.
  exact Hall.
Qed.

Lemma chunk_sizes_bounded_witness :
  exists cs,
    chunk_sentences ["One two. Three four five six seven. Eight."; "Nine ten."]
                    ["A.wav"; "B.wav"] ["a"; "b"] 4 = Ok cs
    /\ forall c, c ∈ cs ->
         (exists m, m ∈ mini_units
                          ["One two. Three four five six seven. Eight."; "Nine ten."]
                          ["A.wav"; "B.wav"] ["a"; "b"]
                    /\ c = singleton_chunk m
                    /\ (4 <= Z.of_nat (count_words (mc_text m)))%Z)
         \/ (Z.of_nat (chunk_words c) + 2 <= 2 * 4)%Z.
Proof.
  apply (chunk_sizes_bounded
           ["One two. Three four five six seven. Eight."; "Nine ten."]
           ["A.wav"; "B.wav"] ["a"; "b"] 4); reflexivity.
Defined.

(** X6. The chunker never returns more chunks than there are sentences,
    and it returns at least one chunk when there is a sentence. *)
Theorem chunk_count_bounds :
  forall (txts vcs vts : list string) (min : Z),
    length txts = length vcs -> length txts = length vts ->
    exists cs,
      chunk_sentences txts vcs vts min = Ok cs
      /\ (length cs <= length (flat_map split_into_sentences txts))%nat
      /\ (flat_map split_into_sentences txts <> [] -> cs <> []).
Proof.
  intros txts vcs vts min Hv Hr.
  destruct (chunk_sentences_loop txts vcs vts min Hv Hr) as (st & E & -> & HI).
  eexists. split; [reflexivity|].
  pose proof (chunk_loop_tracks min _ [] loop_init st Inv_init Tracks_init E)
    as [Hreg _].
  rewrite <- entries_finish in Hreg. simpl in Hreg.
  destruct (Regrouped_length _ _ Hreg) as [Hlen Hne].
  pose proof (entries_length _ (finish_wf st HI)) as Hcs.
  rewrite <- (mini_units_texts txts vcs vts Hv Hr), length_map.
  split; [lia|]. intros Hs Hnil.
  apply Hne.
  - intros Hm. rewrite Hm in Hs. contradiction.
  - rewrite Hnil. reflexivity.
Qed.

Lemma chunk_count_bounds_witness :
  exists cs,
    chunk_sentences ["One two. Three four five six seven. Eight."; "Nine ten."]
                    ["A.wav"; "B.wav"] ["a"; "b"] 4 = Ok cs
    /\ (length cs
        <= length (flat_map split_into_sentences
                     ["One two. Three four five six seven. Eight."; "Nine ten."]))%nat
    /\ (flat_map split_into_sentences
          ["One two. Three four five six seven. Eight."; "Nine ten."] <> []
        -> cs <> []).
Proof.
  apply (chunk_count_bounds
           ["One two. Three four five six seven. Eight."; "Nine ten."]
           ["A.wav"; "B.wav"] ["a"; "b"] 4); reflexivity.
Defined.

(** The example of the repository's tests: eight turns of two speakers
    and a minimum of 20 words give four chunks. *)
Example test_example_chunking :
  match chunk_sentences
          ["Hey!"; "Hi."; "Listen, are you okay?";
           "Things have been hard. For instance, blah blah blah blah blah blah blah blah blah blah blah blah blah blah blah blah blah, blah blah blah blah blah blah blah blah blah blah blah blah blah blah blah blah blah blah blah blah blah blah blah blah blah blah blah blah blah blah. blah blah blah blah blah blah blah blah blah blah blah blah blah blah blah blah blah.";
           "Wow! That's a lot!"; "Yeah, I know."; "Wow! Crazy!";
           "Yes, it is. It's really crazy. You know? I can't stop thinking about it."]
          ["Patricia.wav"; "Fred.wav"; "Patricia.wav"; "Fred.wav";
           "Patricia.wav"; "Fred.wav"; "Patricia.wav"; "Fred.wav"]
          ["<P>"; "<F>"; "<P>"; "<F>"; "<P>"; "<F>"; "<P>"; "<F>"] 20 with
  | Ok [chunk1; chunk2; chunk3; chunk4] =>
      texts chunk1 = ["Hey!"; "Hi."; "Listen, are you okay?";
                      "Things have been hard."]
      /\ voice_clones chunk1
         = ["Patricia.wav"; "Fred.wav"; "Patricia.wav"; "Fred.wav"]
      /\ length (texts chunk2) = 1%nat /\ voice_clones chunk2 = ["Fred.wav"]
      /\ length (texts chunk3) = 2%nat
      /\ voice_clones chunk3 = ["Fred.wav"; "Patricia.wav"]
      /\ texts chunk4
         = ["Yeah, I know."; "Wow! Crazy!";
            "Yes, it is. It's really crazy. You know? I can't stop thinking about it."]
      /\ voice_transcriptions chunk4 = ["<F>"; "<P>"; "<F>"]
  | _ => False
  end.
Proof. vm_compute. repeat split. Qed.

(** Adjacent sentences of one speaker below the minimum share one entry. *)
Example test_same_speaker_combining :
  chunk_sentences ["First sentence."; "Second sentence."; "Third sentence."]
                  ["S.wav"; "S.wav"; "S.wav"] ["T"; "T"; "T"] 5
  = Ok [mkChunk ["First sentence. Second sentence. Third sentence."]
                ["S.wav"] ["T"]].
Proof. vm_compute. reflexivity. Qed.

(** C2. The punctuation of a sentence is read at the first place where the
    sentence's words occur in the text, so a sentence repeated with another
    ending takes the ending of its first occurrence: the chunk text differs
    from the input. *)
Theorem repeated_sentence_takes_first_punctuation :
  split_into_sentences "Hi! Hi?" = ["Hi!"; "Hi!"]
  /\ chunk_sentences ["Hi! Hi?"] ["v.wav"] ["t"] 20
     = Ok [mkChunk ["Hi! Hi!"] ["v.wav"] ["t"]]
  /\ split_into_sentences "No way. No." = ["No way."; "No"].
Proof. vm_compute. auto. Qed.

(** *** Voices *)

Lemma alternating_nil {A} : alternating (@nil A).
Proof. intros i a b H. discriminate. Qed.

Lemma alternating_singleton {A} (x : A) : alternating [x].
Proof. intros [|i] a b Ha Hb; discriminate. Qed.

Lemma alternating_snoc {A} (l : list A) (x y : A) :
  alternating (l ++ [x]) -> x <> y -> alternating ((l ++ [x]) ++ [y]).
Proof.
  intros Hl Hxy i a b Ha Hb.
  apply lookup_app_Some in Hb as [Hb|[Hlen Hb]].
  - apply lookup_app_Some in Ha as [Ha|[Hlen' Ha]]; [eauto|].
    apply lookup_lt_Some in Hb. lia.
  - apply list_lookup_singleton_Some in Hb as [Hi <-].
    rewrite length_app in Hlen, Hi. simpl in Hlen, Hi.
    assert (i = length l) as -> by lia.
    rewrite <- app_assoc in Ha. simpl in Ha.
    rewrite list_lookup_middle in Ha by reflexivity.
    injection Ha as <-. exact Hxy.
Qed.

Lemma voices_push c m :
  aligned c -> voices (push_entry c m) = voices c ++ [speaker m].
Proof.
  intros [Hv Hr]. unfold voices, push_entry. simpl.
  rewrite zip_with_app by congruence. reflexivity.
Qed.

Lemma voices_merge c m c' : merge_entry c m = Ok c' -> voices c' = voices c.
Proof.
  unfold merge_entry. destruct (append_to_last _ _); simpl; [|discriminate].
  intros [= <-]. reflexivity.
Qed.

Lemma voices_nil c : aligned c -> texts c = [] -> voices c = [].
Proof. intros Ha Ht. rewrite (aligned_empty_texts c Ha Ht). reflexivity. Qed.

Lemma voices_entries c : aligned c -> voices c = map snd (entries_of c).
Proof.
  intros [Hv Hr]. unfold entries_of, voices. symmetry. apply snd_zip.
  rewrite length_zip. lia.
Qed.

Lemma speaker_eqb_false a b : speaker_eqb a (Some b) = false -> b <> a.
Proof.
  simpl. intros H. apply bool_decide_eq_false in H. congruence.
Qed.

Lemma VoiceInv_init : VoiceInv loop_init.
Proof.
  split; [constructor|apply alternating_nil|]. intros H. contradiction.
Qed.

Lemma chunk_step_voices (min : Z) (st st' : LoopState) (m : MiniChunk) :
  Inv st -> VoiceInv st -> chunk_step min st m = Ok st' -> VoiceInv st'.
Proof.
  intros HI [Hcs Hcur Hlast] E.
  destruct (Z.of_nat (count_words (mc_text m)) >=? min)%Z eqn:Hlong.
  { rewrite (chunk_step_isolated min st m HI) in E by (apply Z.geb_ge, Hlong).
    injection E as <-. unfold shift. simpl. rewrite app_nil_r.
    split; simpl; [|apply alternating_nil|intros H; contradiction].
    apply Forall_app. split; [|repeat constructor; apply alternating_singleton].
    unfold finish. destruct (nonempty _); [|exact Hcs].
    apply Forall_app. split; [exact Hcs|]. repeat constructor. exact Hcur. }
  destruct HI as [Hc Ha Hr]. unfold chunk_step in E. rewrite Hlong in E.
  assert (Hpush : alternating (voices (push_entry (current_chunk st) m))
                  \/ speaker_eqb (mc_voice_clone m, mc_voice_transcription m)
                       (current_speaker_info st)
                     && nonempty (texts (current_chunk st)) = true).
  { destruct (nonempty (texts (current_chunk st))) eqn:Hn.
    - apply nonempty_true in Hn. destruct (Hlast Hn) as (l & sp & Hl & Hsp).
      rewrite Hsp.
      destruct (speaker_eqb _ (Some sp)) eqn:Hsame; [right; reflexivity|left].
      apply speaker_eqb_false in Hsame.
      rewrite voices_push, Hl by exact Ha. apply alternating_snoc.
      + rewrite <- Hl. exact Hcur.
      + exact Hsame.
    - left. apply nonempty_false in Hn.
      rewrite voices_push, (voices_nil _ Ha Hn) by exact Ha.
      apply alternating_singleton. }
  assert (Hmerge : forall c, merge_entry (current_chunk st) m = Ok c ->
                             alternating (voices c)).
  { intros c Hm. rewrite (voices_merge _ _ _ Hm). exact Hcur. }
  destruct ((_ >=? _)%Z && nonempty (texts (current_chunk st))) eqn:Hfull.
  - apply andb_true_iff in Hfull as [_ Hn].
    destruct (speaker_eqb _ (current_speaker_info st)) eqn:Hsame.
    + destruct (merge_entry _ m) as [c|] eqn:Hm; simpl in E; [|discriminate].
      injection E as <-.
      split; simpl; [|apply alternating_nil|intros H; contradiction].
      apply Forall_app. split; [exact Hcs|]. repeat constructor. auto.
    + simpl in E. injection E as <-.
      split; simpl; [|apply alternating_nil|intros H; contradiction].
      apply Forall_app. split; [exact Hcs|]. repeat constructor.
      destruct Hpush as [H|H]; [exact H|]. rewrite Hn in H. discriminate.
  - destruct (speaker_eqb _ (current_speaker_info st)
              && nonempty (texts (current_chunk st))) eqn:Hsame.
    + destruct (merge_entry _ m) as [c|] eqn:Hm; simpl in E; [|discriminate].
      injection E as <-. split; simpl; [exact Hcs|auto|].
      intros _. apply andb_true_iff in Hsame as [_ Hn].
      apply nonempty_true in Hn. destruct (Hlast Hn) as (l & sp & Hl & Hsp).
      exists l, sp. rewrite (voices_merge _ _ _ Hm). auto.
    + injection E as <-. split; simpl; [exact Hcs| |].
      * destruct Hpush as [H|H]; [exact H|discriminate].
      * intros _. rewrite voices_push by exact Ha. eauto.
Qed.

Lemma chunk_loop_voices (min : Z) (ms : list MiniChunk) :
  forall st st',
    Inv st -> VoiceInv st -> chunk_loop min st ms = Ok st' -> VoiceInv st'.
Proof.
  induction ms as [|m ms IH]; intros st st' HI HV E; simpl in E.
  - injection E as <-. exact HV.
  - destruct (chunk_step_inv min st m HI) as (st1 & E1 & HI1).
    rewrite E1 in E. simpl in E.
    eapply IH; eauto using chunk_step_voices.
Qed.

Lemma finish_voices st :
  VoiceInv st -> Forall (fun c => alternating (voices c)) (finish st).
Proof.
  intros [Hcs Hcur _]. unfold finish. destruct (nonempty _); [|exact Hcs].
  apply Forall_app. split; [exact Hcs|]. repeat constructor. exact Hcur.
Qed.

Lemma Regrouped_speakers ms es :
  Regrouped ms es -> Forall (fun e => exists m, m ∈ ms /\ snd e = speaker m) es.
Proof.
  induction 1 as [|ms es m _ IH|ms es t m _ IH].
  - constructor.
  - apply Forall_app. split.
    + eapply Forall_impl; [exact IH|]. intros e (m' & Hm' & He).
      exists m'. split; [|exact He]. apply elem_of_app. auto.
    + repeat constructor. exists m. split; [|reflexivity].
      apply elem_of_app. right. left.
  - apply Forall_app in IH as [IH _]. apply Forall_app. split.
    + eapply Forall_impl; [exact IH|]. intros e (m' & Hm' & He).
      exists m'. split; [|exact He]. apply elem_of_app. auto.
    + repeat constructor. exists m. split; [|reflexivity].
      apply elem_of_app. right. left.
Qed.

Lemma mini_units_speakers txts vcs vts m :
  m ∈ mini_units txts vcs vts -> speaker m ∈ zip vcs vts.
Proof.
  unfold mini_units. intros H. apply list_elem_of_In, in_flat_map in H
    as ([t [vc vt]] & He & Hm).
  apply in_map_iff in Hm as (s & <- & _). simpl.
  apply list_elem_of_In in He. apply elem_of_zip_r in He. exact He.
Qed.

(** The voice pairs of the chunks are voice pairs of the input. *)
Lemma chunk_voices_from_input (txts vcs vts : list string) (min : Z) cs c p :
  chunk_sentences txts vcs vts min = Ok cs ->
  c ∈ cs -> p ∈ voices c -> p ∈ zip vcs vts.
Proof.
  intros E Hc Hp.
  destruct (decide (length txts = length vcs /\ length txts = length vts))
    as [[Hv Hr]|Hne].
  2:{ unfold chunk_sentences in E. rewrite lengths_rejected in E by lia.
      discriminate. }
  destruct (chunk_sentences_loop txts vcs vts min Hv Hr) as (st & El & E' & HI).
  rewrite E' in E. injection E as <-.
  pose proof (chunk_loop_tracks min _ [] loop_init st Inv_init Tracks_init El)
    as [Hreg _].
  rewrite <- entries_finish in Hreg. simpl in Hreg.
  pose proof (Regrouped_speakers _ _ Hreg) as Hall.
  pose proof (finish_wf st HI) as Hwf.
  rewrite Forall_forall in Hwf. destruct (Hwf c Hc) as [_ Ha].
  rewrite (voices_entries c Ha) in Hp.
  apply list_elem_of_fmap in Hp as (e & -> & He).
  rewrite Forall_forall in Hall.
  destruct (Hall e (entries_elem _ _ _ Hc He)) as (m & Hm & ->).
  apply mini_units_speakers in Hm. exact Hm.
Qed.

Lemma chunk_voice_clones_from_input (txts vcs vts : list string) (min : Z) cs c v :
  chunk_sentences txts vcs vts min = Ok cs ->
  c ∈ cs -> v ∈ voice_clones c -> v ∈ vcs.
Proof.
  intros E Hc Hv.
  assert (Ha : aligned c).
  { destruct (decide (length txts = length vcs /\ length txts = length vts))
      as [[Hl Hr]|Hne].
    2:{ unfold chunk_sentences in E. rewrite lengths_rejected in E by lia.
        discriminate. }
    destruct (chunk_sentences_loop txts vcs vts min Hl Hr) as (st & _ & E' & HI).
    rewrite E' in E. injection E as <-.
    pose proof (finish_wf st HI) as Hwf.
    rewrite Forall_forall in Hwf. exact (proj2 (Hwf c Hc)). }
  destruct Ha as [H1 H2].
  assert (Hf : voice_clones c = map fst (voices c)).
  { unfold voices. symmetry. apply fst_zip. lia. }
  rewrite Hf in Hv. apply list_elem_of_fmap in Hv as ([v' t] & -> & Hp).
  apply (chunk_voices_from_input _ _ _ _ _ _ _ E Hc) in Hp.
  apply elem_of_zip_l in Hp. exact Hp.
Qed.

(** X21. Within a chunk the chunker returns, two neighbouring text entries
    never have the same voice pair: a sentence of the voice of the entry
    before it is joined to that entry. *)
Theorem chunk_neighbours_differ_in_voice :
  forall (txts vcs vts : list string) (min : Z) (cs : list Chunk) (c : Chunk)
         (i : nat) (a b : string * string),
    chunk_sentences txts vcs vts min = Ok cs ->
    c ∈ cs ->
    voices c !! i = Some a -> voices c !! S i = Some b ->
    a <> b.
Proof.
  intros txts vcs vts min cs c i a b E Hc Ha Hb.
  destruct (decide (length txts = length vcs /\ length txts = length vts))
    as [[Hv Hr]|Hne].
  2:{ unfold chunk_sentences in E. rewrite lengths_rejected in E by lia.
      discriminate. }
  destruct (chunk_sentences_loop txts vcs vts min Hv Hr) as (st & El & E' & HI).
  rewrite E' in E. injection E as <-.
  pose proof (chunk_loop_voices min _ loop_init st Inv_init VoiceInv_init El)
    as HV.
  pose proof (finish_voices st HV) as Hall.
  rewrite Forall_forall in Hall. exact (Hall c Hc i a b Ha Hb).
Qed.

Lemma chunk_neighbours_differ_in_voice_witness :
  chunk_sentences ["Hi there."; "Fine."; "Good."] ["A.wav"; "A.wav"; "B.wav"]
                  ["a"; "a"; "b"] 10
  = Ok [mkChunk ["Hi there. Fine."; "Good."] ["A.wav"; "B.wav"] ["a"; "b"]]
  /\ ("A.wav", "a") <> ("B.wav", "b").
Proof.
  assert (E : chunk_sentences ["Hi there."; "Fine."; "Good."]
                ["A.wav"; "A.wav"; "B.wav"] ["a"; "a"; "b"] 10
              = Ok [mkChunk ["Hi there. Fine."; "Good."] ["A.wav"; "B.wav"]
                      ["a"; "b"]])
    by (vm_compute; reflexivity).
  split; [exact E|].
  apply (chunk_neighbours_differ_in_voice
           ["Hi there."; "Fine."; "Good."] ["A.wav"; "A.wav"; "B.wav"]
           ["a"; "a"; "b"] 10
           [mkChunk ["Hi there. Fine."; "Good."] ["A.wav"; "B.wav"] ["a"; "b"]]
           (mkChunk ["Hi there. Fine."; "Good."] ["A.wav"; "B.wav"] ["a"; "b"])
           0%nat ("A.wav", "a") ("B.wav", "b") E); [left|reflexivity..].
Defined.

(** With one voice pair in the input, a chunk has one text entry. *)
Lemma one_voice_single_text (txts vcs vts : list string) (min : Z) cs c :
  (forall p q, p ∈ zip vcs vts -> q ∈ zip vcs vts -> p = q) ->
  chunk_sentences txts vcs vts min = Ok cs ->
  c ∈ cs ->
  exists t, texts c = [t].
Proof.
  intros Hone E Hc.
  destruct (decide (length txts = length vcs /\ length txts = length vts))
    as [[Hv Hr]|Hne].
  2:{ unfold chunk_sentences in E. rewrite lengths_rejected in E by lia.
      discriminate. }
  pose proof (chunk_voices_from_input txts vcs vts min cs c) as Hfrom.
  destruct (chunk_sentences_loop txts vcs vts min Hv Hr) as (st & El & E' & HI).
  rewrite E' in E. injection E as <-.
  pose proof (chunk_loop_voices min _ loop_init st Inv_init VoiceInv_init El)
    as HV.
  pose proof (finish_voices st HV) as Hall.
  rewrite Forall_forall in Hall. specialize (Hall c Hc).
  pose proof (finish_wf st HI) as Hwf.
  rewrite Forall_forall in Hwf. destruct (Hwf c Hc) as [Hne [Ha1 Ha2]].
  assert (Hlen : length (voices c) = length (texts c)).
  { unfold voices. rewrite length_zip. lia. }
  destruct (texts c) as [|t [|t' ts]] eqn:Ht; [congruence|eauto|].
  exfalso. simpl in Hlen.
  destruct (voices c) as [|a [|b l]] eqn:Hvo; try discriminate.
  apply (Hall 0%nat a b); [reflexivity..|].
  apply Hone; apply (Hfrom _ E' Hc); [left|right; left].
Qed.

(** X22. When all the texts have one voice pair, every chunk the chunker
    returns has exactly one text entry and one voice, so that the first text
    of a chunk is the whole chunk. *)
Theorem one_voice_gives_one_text_per_chunk :
  forall (txts vcs vts : list string) (min : Z) (cs : list Chunk) (c : Chunk),
    (forall p q, p ∈ zip vcs vts -> q ∈ zip vcs vts -> p = q) ->
    chunk_sentences txts vcs vts min = Ok cs ->
    c ∈ cs ->
    exists t v r,
      c = mkChunk [t] [v] [r] /\ (v, r) ∈ zip vcs vts.
Proof.
  intros txts vcs vts min cs c Hone E Hc.
  destruct (one_voice_single_text txts vcs vts min cs c Hone E Hc) as [t Ht].
  assert (Ha : aligned c).
  { destruct (decide (length txts = length vcs /\ length txts = length vts))
      as [[Hl Hr]|Hne].
    2:{ unfold chunk_sentences in E. rewrite lengths_rejected in E by lia.
        discriminate. }
    destruct (chunk_sentences_loop txts vcs vts min Hl Hr) as (st & _ & E' & HI).
    rewrite E' in E. injection E as <-.
    pose proof (finish_wf st HI) as Hwf.
    rewrite Forall_forall in Hwf. exact (proj2 (Hwf c Hc)). }
  pose proof (chunk_voices_from_input txts vcs vts min cs c) as Hfrom.
  destruct c as [ts vs rs]. destruct Ha as [H1 H2]. simpl in *. subst ts.
  destruct vs as [|v [|? ?]]; try discriminate.
  destruct rs as [|r [|? ?]]; try discriminate.
  exists t, v, r. split; [reflexivity|].
  apply (Hfrom (v, r) E Hc). left.
Qed.

Lemma one_voice_gives_one_text_per_chunk_witness :
  exists t v r,
    mkChunk ["Hi there. Fine."] ["A.wav"] ["a"] = mkChunk [t] [v] [r]
    /\ (v, r) ∈ zip ["A.wav"; "A.wav"; "A.wav"] ["a"; "a"; "a"].
Proof.
  apply (one_voice_gives_one_text_per_chunk
           ["Hi there."; "Fine."; "Good morning to you all."]
           ["A.wav"; "A.wav"; "A.wav"] ["a"; "a"; "a"] 4
           [mkChunk ["Hi there. Fine."] ["A.wav"] ["a"];
            mkChunk ["Good morning to you all."] ["A.wav"] ["a"]]).
  - intros p q Hp Hq. simpl in Hp, Hq.
    repeat match goal with
           | H : _ ∈ _ :: _ |- _ => apply elem_of_cons in H as [->|H]
           | H : _ ∈ [] |- _ => apply elem_of_nil in H; contradiction
           end; reflexivity.
  - vm_compute. reflexivity.
  - left.
Defined.

(** *** The words of the chunks *)

Lemma words_of_app a b : words_of (a ++ b) = words_of a ++ words_of b.
Proof. apply flat_map_app. Qed.

Lemma words_of_singleton t : words_of [t] = PyStr.split t.
Proof. unfold words_of. simpl. apply app_nil_r. Qed.

Lemma Regrouped_keeps_words ms es :
  Regrouped ms es -> words_of (map fst es) = words_of (map mc_text ms).
Proof.
  induction 1 as [|ms es m _ IH|ms es t m _ IH].
  - reflexivity.
  - rewrite !map_app, !words_of_app, IH. reflexivity.
  - rewrite !map_app, !words_of_app in *. simpl map in *.
    rewrite !words_of_singleton in *.
    rewrite PyStrFacts.split_join, app_assoc, IH. reflexivity.
Qed.

Lemma texts_of_chunks cs :
  Forall wf_chunk cs -> flat_map texts cs = map fst (entries cs).
Proof.
  induction 1 as [|c cs [_ Ha] _ IH]; [reflexivity|].
  unfold entries in *. simpl. rewrite map_app, IH, (texts_of_entries c Ha).
  reflexivity.
Qed.

(** X28. The chunker neither loses nor adds nor reorders a word: the words
    of the text entries of the chunks it returns, read in order, are the
    words of the sentences of the texts, in order. *)
Theorem chunks_keep_the_words :
  forall (txts vcs vts : list string) (min : Z) (cs : list Chunk),
    chunk_sentences txts vcs vts min = Ok cs ->
    words_of (flat_map texts cs)
    = words_of (flat_map split_into_sentences txts).
Proof.
  intros txts vcs vts min cs E.
  destruct (decide (length txts = length vcs /\ length txts = length vts))
    as [[Hv Hr]|Hne].
  2:{ unfold chunk_sentences in E. rewrite lengths_rejected in E by lia.
      discriminate. }
  destruct (chunk_sentences_loop txts vcs vts min Hv Hr) as (st & El & E' & HI).
  rewrite E' in E. injection E as <-.
  pose proof (chunk_loop_tracks min _ [] loop_init st Inv_init Tracks_init El)
    as [Hreg _].
  rewrite <- entries_finish in Hreg. simpl in Hreg.
  rewrite (texts_of_chunks _ (finish_wf st HI)).
  rewrite (Regrouped_keeps_words _ _ Hreg).
  rewrite (mini_units_texts txts vcs vts Hv Hr). reflexivity.
Qed.

Lemma chunks_keep_the_words_witness :
  words_of (flat_map texts
              [mkChunk ["Hi there. Fine."; "Good."] ["A.wav"; "B.wav"] ["a"; "b"]])
  = words_of (flat_map split_into_sentences ["Hi there."; "Fine."; "Good."]).
Proof.
  apply (chunks_keep_the_words ["Hi there."; "Fine."; "Good."]
           ["A.wav"; "A.wav"; "B.wav"] ["a"; "a"; "b"] 10).
  vm_compute. reflexivity.
Defined.

End ChunkingFacts.

(** ** The step that removes extra spaces *)

Module RemoveExtraSpacesFacts.
Import Ctx Effects Router PyStr PyStrSpec PyStrFacts RemoveExtraSpaces.

Lemma sub_spaces_go_rstrip s :
  (forall cur, cur <> "" -> rstrip cur = cur ->
               rstrip (cur +:+ sub_spaces_go false s)
               = join " " (split_go cur s))
  /\ rstrip (String " " (sub_spaces_go true s))
     = match split s with
       | [] => ""
       | w :: ws => String " " (join " " (w :: ws))
       end.
Proof.
  induction s as [|c s [IH1 IH2]].
  - split; [|reflexivity]. intros cur Hne Hr. simpl.
    rewrite append_empty_r, Hr. apply is_empty_false in Hne. rewrite Hne.
    reflexivity.
  - destruct (isspace c) eqn:Hc.
    + split.
      * intros cur Hne Hr. rewrite (split_go_cons_space cur c s Hc Hne).
        cbn [sub_spaces_go]. rewrite Hc, rstrip_app, IH2.
        destruct (split s) as [|w ws]; [exact Hr|].
        rewrite join_cons2. reflexivity.
      * cbn [sub_spaces_go]. rewrite Hc, IH2. unfold split at 2. simpl.
        rewrite Hc. reflexivity.
    + assert (H1 : forall cur, rstrip cur = cur ->
                     rstrip (cur +:+ sub_spaces_go false (String c s))
                     = join " " (split_go cur (String c s))).
      { intros cur Hr. cbn [sub_spaces_go split_go]. rewrite Hc.
        replace (cur +:+ String c (sub_spaces_go false s))
          with ((cur +:+ String c "") +:+ sub_spaces_go false s)
          by (rewrite append_assoc; reflexivity).
        apply IH1; [apply append_nonempty_r; discriminate|].
        apply rstrip_snoc; assumption. }
      split; [intros cur _ Hr; apply H1, Hr|].
      cbn [sub_spaces_go]. rewrite Hc.
      specialize (H1 "" eq_refl). rewrite append_empty_l in H1.
      cbn [sub_spaces_go] in H1. rewrite Hc in H1.
      rewrite rstrip_cons, H1. fold (split (String c s)).
      pose proof (split_words (String c s)) as Hw.
      pose proof (split_first_nonspace c s Hc) as Hne.
      destruct (split (String c s)) as [|w ws]; [congruence|].
      inversion Hw as [|? ? Hw1 _]; subst.
      destruct (join_head w ws Hw1) as (d & r & -> & _). reflexivity.
Qed.

(** [re.sub(r"\s+", " ", text).strip()] is the words of the text joined by
    single spaces. *)
Lemma strip_sub_spaces text :
  strip (sub_spaces text) = join " " (split text).
Proof.
  unfold strip, sub_spaces. destruct text as [|c s]; [reflexivity|].
  destruct (sub_spaces_go_rstrip s) as [H1 H2].
  destruct (isspace c) eqn:Hc.
  - cbn [sub_spaces_go]. rewrite Hc, H2.
    assert (Hs : split (String c s) = split s)
      by (unfold split; simpl; rewrite Hc; reflexivity).
    rewrite Hs. pose proof (split_words s) as Hw.
    destruct (split s) as [|w ws]; [reflexivity|].
    inversion Hw as [|? ? Hw1 _]; subst.
    destruct (join_head w ws Hw1) as (d & r & E & Hd).
    cbn [lstrip]. replace (isspace " ") with true by reflexivity.
    rewrite E. apply lstrip_fixed, Hd.
  - cbn [sub_spaces_go]. rewrite Hc.
    pose proof (H1 (String c "") ltac:(discriminate) (rstrip_char c Hc)) as E.
    rewrite append_cons, append_empty_l in E. rewrite E.
    assert (Hs : split (String c s) = split_go (String c "") s)
      by (unfold split; simpl; rewrite Hc; reflexivity).
    rewrite Hs. pose proof (split_words (String c s)) as Hw. rewrite Hs in Hw.
    pose proof (split_first_nonspace c s Hc) as Hne. rewrite Hs in Hne.
    destruct (split_go (String c "") s) as [|w ws]; [congruence|].
    inversion Hw as [|? ? Hw1 _]; subst.
    destruct (join_head w ws Hw1) as (d & r & E' & Hd).
    rewrite E'. apply lstrip_fixed, Hd.
Qed.

(** X24. The step that removes extra spaces always succeeds, sends nothing,
    and replaces each text by its words joined by single spaces: the words
    of a text, and so its word count, are unchanged, and running the step a
    second time changes nothing. *)
Theorem remove_extra_spaces_keeps_the_words :
  forall (w : World),
    let w' := with_ctx (with_multiple_speaker_text_array
                          (map (fun text => join " " (split text))
                               (multiple_speaker_text_array (ctx w)))) w in
    process w = ([], w', Ok tt)
    /\ map split (multiple_speaker_text_array (ctx w'))
       = map split (multiple_speaker_text_array (ctx w))
    /\ map Chunking.count_words (multiple_speaker_text_array (ctx w'))
       = map Chunking.count_words (multiple_speaker_text_array (ctx w))
    /\ process w' = ([], w', Ok tt).
Proof.
  intros w w'.
  assert (Hp : forall w0,
             process w0
             = ([], with_ctx (with_multiple_speaker_text_array
                                (map (fun text => join " " (split text))
                                     (multiple_speaker_text_array (ctx w0)))) w0,
                Ok tt)).
  { intros w0. unfold process, update, with_ctx. simpl.
    rewrite (map_ext _ _ strip_sub_spaces). reflexivity. }
  assert (Hs : map split (multiple_speaker_text_array (ctx w'))
               = map split (multiple_speaker_text_array (ctx w))).
  { unfold w'. simpl. rewrite map_map. apply map_ext. intros t.
    apply split_join_words, split_words. }
  split; [apply Hp|]. split; [exact Hs|]. split.
  - unfold Chunking.count_words.
    rewrite <- !(map_map split (@length string)), Hs. reflexivity.
  - rewrite Hp. f_equal. f_equal. unfold w'. destruct w as [c h f n].
    unfold with_ctx. simpl. f_equal. unfold with_multiple_speaker_text_array.
    simpl. f_equal. rewrite map_map. apply map_ext. intros t.
    rewrite split_join_words by apply split_words. reflexivity.
Qed.

End RemoveExtraSpacesFacts.

(** ** Properties of candidate selection *)

Module WhisperCheckFacts.
Import Ctx WhisperCheck SelectionSpec Scenarios.

Section MaxFrom.
Context {A : Type} (gt : A -> A -> bool).
Hypothesis gt_irrefl : forall x, gt x x = false.
Hypothesis gt_trans : forall x y z, gt x y = true -> gt y z = true -> gt x z = true.
Hypothesis ngt_trans :
  forall x y z, gt x y = false -> gt y z = false -> gt x z = false.

Lemma gt_ngt_trans x y z : gt x y = true -> gt z y = false -> gt x z = true.
Proof.
  intros Hxy Hzy. destruct (gt x z) eqn:E; [reflexivity|].
  rewrite (ngt_trans x z y E Hzy) in Hxy. discriminate.
Qed.

Lemma ngt_gt_trans y b x : gt y b = false -> gt x b = true -> gt y x = false.
Proof.
  intros Hyb Hxb. destruct (gt y x) eqn:E; [|reflexivity].
  rewrite (gt_trans y x b E Hxb) in Hyb. discriminate.
Qed.

Lemma max_from_earliest (l : list A) :
  forall (seen : list A) (best : A) (k : nat),
    earliest_best gt seen k best ->
    exists i, earliest_best gt (seen ++ l) i (max_from gt best l).
Proof.
  induction l as [|x l IH]; intros seen best k [Hk Hall]; simpl.
  - exists k. rewrite app_nil_r. split; auto.
  - replace (seen ++ x :: l) with ((seen ++ [x]) ++ l)
      by (rewrite <- app_assoc; reflexivity).
    destruct (gt x best) eqn:Hx.
    + apply (IH (seen ++ [x]) x (length seen)). split.
      * rewrite lookup_app_r, Nat.sub_diag by lia. reflexivity.
      * intros j c Hj. apply lookup_app_Some in Hj as [Hj|[Hlen Hj]].
        -- destruct (Hall j c Hj) as [Hcb _]. split.
           ++ eapply ngt_gt_trans; eauto.
           ++ intros _. eapply gt_ngt_trans; eauto.
        -- apply list_lookup_singleton_Some in Hj as [Hj ->].
           split; [apply gt_irrefl|]. intros Hlt. lia.
    + apply (IH (seen ++ [x]) best k). split.
      * rewrite lookup_app_l; [exact Hk|]. eapply lookup_lt_Some; eauto.
      * intros j c Hj. apply lookup_app_Some in Hj as [Hj|[Hlen Hj]].
        -- apply (Hall j c Hj).
        -- apply list_lookup_singleton_Some in Hj as [Hj ->].
           split; [exact Hx|]. intros Hlt.
           apply lookup_lt_Some in Hk. lia.
Qed.

Lemma py_max_earliest (l : list A) :
  l <> [] -> exists i b, py_max gt l = Ok b /\ earliest_best gt l i b.
Proof.
  destruct l as [|x l]; [congruence|]. intros _. simpl.
  destruct (max_from_earliest l [x] x 0) as [i Hi].
  { split; [reflexivity|]. intros j c Hj.
    apply list_lookup_singleton_Some in Hj as [-> ->].
    split; [apply gt_irrefl|]. lia. }
  eauto.
Qed.

End MaxFrom.

Lemma score_gt_true (a b : Scored) : score_gt a b = true <-> (score b < score a)%Q.
Proof.
  unfold score_gt. rewrite negb_true_iff, <- not_true_iff_false, Qle_bool_iff.
  split; [apply Qnot_le_lt|apply Qlt_not_le].
Qed.

Lemma score_gt_false (a b : Scored) : score_gt a b = false <-> (score a <= score b)%Q.
Proof.
  unfold score_gt. rewrite negb_false_iff, Qle_bool_iff. reflexivity.
Qed.

Lemma score_gt_irrefl x : score_gt x x = false.
Proof. apply score_gt_false, Qle_refl. Qed.

Lemma score_gt_trans x y z :
  score_gt x y = true -> score_gt y z = true -> score_gt x z = true.
Proof. rewrite !score_gt_true. intros H1 H2. eapply Qlt_trans; eauto. Qed.

Lemma score_ngt_trans x y z :
  score_gt x y = false -> score_gt y z = false -> score_gt x z = false.
Proof. rewrite !score_gt_false. intros H1 H2. eapply Qle_trans; eauto. Qed.

Lemma transcript_gt_irrefl x : transcript_gt x x = false.
Proof. unfold transcript_gt. apply Nat.ltb_irrefl. Qed.

Lemma transcript_gt_trans x y z :
  transcript_gt x y = true -> transcript_gt y z = true -> transcript_gt x z = true.
Proof. unfold transcript_gt. rewrite !Nat.ltb_lt. lia. Qed.

Lemma transcript_ngt_trans x y z :
  transcript_gt x y = false -> transcript_gt y z = false ->
  transcript_gt x z = false.
Proof. unfold transcript_gt. rewrite !Nat.ltb_ge. lia. Qed.

Lemma earliest_best_score cs i b :
  earliest_best score_gt cs i b -> highest_score_earliest cs i b.
Proof.
  intros [Hi Hall]. split; [exact Hi|]. split.
  - intros j c Hj. apply score_gt_false, (Hall j c Hj).
  - intros j c Hj Hlt. apply score_gt_true, (Hall j c Hj), Hlt.
Qed.

Lemma earliest_best_transcript cs i b :
  earliest_best transcript_gt cs i b -> longest_transcript_earliest cs i b.
Proof.
  intros [Hi Hall]. split; [exact Hi|]. unfold transcript_gt in Hall. split.
  - intros j c Hj. apply Nat.ltb_ge, (Hall j c Hj).
  - intros j c Hj Hlt. apply Nat.ltb_lt, (Hall j c Hj), Hlt.
Qed.

Lemma passes_iff c : passes c <-> (threshold <= score c)%Q.
Proof. apply Qle_bool_iff. Qed.

(** The first candidate that passes the threshold splits the list. *)
Lemma filter_passes_split (cs : list Scored) :
  filter passes cs <> [] ->
  exists pre v rest,
    cs = pre ++ v :: rest /\ Forall (fun c => ~ passes c) pre /\ passes v
    /\ filter passes cs = v :: filter passes rest.
Proof.
  induction cs as [|c cs IH]; [intros H; exfalso; apply H; reflexivity|].
  intros H. destruct (decide (passes c)) as [Hc|Hc].
  - exists [], c, cs. rewrite filter_cons_True by exact Hc. auto.
  - rewrite filter_cons_False in H |- * by exact Hc.
    destruct (IH H) as (pre & v & rest & -> & Hpre & Hv & E).
    exists (c :: pre), v, rest. repeat split; auto.
Qed.

(** Candidates below the threshold never displace one that passes. *)
Lemma max_from_filter_passes (l : list Scored) :
  forall best, passes best ->
    max_from score_gt best (filter passes l) = max_from score_gt best l.
Proof.
  induction l as [|x l IH]; intros best Hb; [reflexivity|].
  destruct (decide (passes x)) as [Hx|Hx].
  - rewrite filter_cons_True by exact Hx. simpl.
    destruct (score_gt x best); apply IH; assumption.
  - rewrite filter_cons_False by exact Hx. simpl.
    assert (E : score_gt x best = false).
    { apply score_gt_false. apply passes_iff in Hb.
      unfold passes in Hx. rewrite Qle_bool_iff in Hx.
      apply Qnot_le_lt in Hx. apply Qlt_le_weak.
      eapply Qlt_le_trans; eauto. }
    rewrite E. apply IH, Hb.
Qed.

Lemma select_best_spec (use_longest : bool) (cs : list Scored) :
  cs <> [] ->
  exists i best,
    select_best use_longest cs = Ok best
    /\ ((exists c, c ∈ cs /\ (threshold <= score c)%Q) ->
        highest_score_earliest cs i best)
    /\ ((forall c, c ∈ cs -> (score c < threshold)%Q) ->
        if use_longest then longest_transcript_earliest cs i best
        else highest_score_earliest cs i best).
Proof.
  intros Hne. unfold select_best. fold passes.
  destruct (Chunking.nonempty (filter passes cs)) eqn:Hn.
  - apply ChunkingFacts.nonempty_true in Hn.
    destruct (filter_passes_split cs Hn) as (pre & v & rest & -> & Hpre & Hv & E).
    rewrite E. simpl. rewrite max_from_filter_passes by exact Hv.
    destruct (max_from_earliest score_gt score_gt_irrefl score_gt_trans
                score_ngt_trans rest (pre ++ [v]) v (length pre)) as [i Hi].
    { split.
      - rewrite lookup_app_r, Nat.sub_diag by lia. reflexivity.
      - intros j c Hj. apply lookup_app_Some in Hj as [Hj|[Hlen Hj]].
        + assert (Hc : (score c < score v)%Q).
          { apply list_elem_of_lookup_2 in Hj.
            rewrite Forall_forall in Hpre. specialize (Hpre c Hj).
            unfold passes in Hpre. rewrite Qle_bool_iff in Hpre.
            apply Qnot_le_lt in Hpre. apply passes_iff in Hv.
            eapply Qlt_le_trans; eauto. }
          split; [apply score_gt_false, Qlt_le_weak, Hc|].
          intros _. apply score_gt_true, Hc.
        + apply list_lookup_singleton_Some in Hj as [Hj ->].
          split; [apply score_gt_irrefl|]. lia. }
    rewrite <- app_assoc in Hi. simpl in Hi.
    exists i, (max_from score_gt v rest). split; [reflexivity|]. split.
    + intros _. apply earliest_best_score, Hi.
    + intros Hall. exfalso. apply passes_iff in Hv.
      assert (Hin : v ∈ pre ++ v :: rest) by set_solver.
      apply Hall in Hin. apply Qlt_not_le in Hin. contradiction.
  - apply ChunkingFacts.nonempty_false in Hn.
    assert (Hnone : forall c, c ∈ cs -> ~ (threshold <= score c)%Q).
    { intros c Hc Hle. apply passes_iff in Hle.
      assert (Hin : c ∈ filter passes cs) by (apply list_elem_of_filter; auto).
      rewrite Hn in Hin. inversion Hin. }
    destruct use_longest.
    + destruct (py_max_earliest transcript_gt transcript_gt_irrefl
                  transcript_gt_trans transcript_ngt_trans cs Hne)
        as (i & b & -> & Hb).
      exists i, b. split; [reflexivity|]. split.
      * intros (c & Hc & Hle). exfalso. eapply Hnone; eauto.
      * intros _. apply earliest_best_transcript, Hb.
    + destruct (py_max_earliest score_gt score_gt_irrefl score_gt_trans
                  score_ngt_trans cs Hne) as (i & b & -> & Hb).
      exists i, b. split; [reflexivity|]. split.
      * intros (c & Hc & Hle). exfalso. eapply Hnone; eauto.
      * intros _. apply earliest_best_score, Hb.
Qed.

(** Either some candidate reaches the threshold or all are below it. *)
Lemma classic_threshold (cs : list Scored) :
  (exists c, c ∈ cs /\ (threshold <= score c)%Q)
  \/ (forall c, c ∈ cs -> (score c < threshold)%Q).
Proof.
  induction cs as [|c cs [IH|IH]].
  - right. intros c Hc. inversion Hc.
  - left. destruct IH as (c' & Hc' & Hle). exists c'. split; [set_solver|exact Hle].
  - destruct (Qlt_le_dec (score c) threshold) as [Hlt|Hle].
    + right. intros c' Hc'. apply elem_of_cons in Hc' as [->|Hc']; auto.
    + left. exists c. split; [set_solver|exact Hle].
Qed.

(** *** Removal of the candidates that were not selected *)

Lemma try_remove_ctx rf p w : ctx (try_remove rf p w) = ctx w.
Proof. unfold try_remove. destruct (path_exists w p), (rf p); reflexivity. Qed.

Lemma try_remove_other rf p q w :
  q <> p -> files (try_remove rf p w) !! q = files w !! q.
Proof.
  intros Hne. unfold try_remove.
  destruct (path_exists w p), (rf p); simpl; auto.
  apply lookup_delete_ne. congruence.
Qed.

Lemma try_remove_empty_path rf w : try_remove rf "" w = w.
Proof. reflexivity. Qed.

Lemma path_exists_files w w' p :
  files w' !! p = files w !! p -> path_exists w' p = path_exists w p.
Proof. unfold path_exists. intros ->. reflexivity. Qed.

Lemma path_exists_none w p : files w !! p = None -> path_exists w p = false.
Proof.
  unfold path_exists. intros ->.
  rewrite bool_decide_eq_false_2, andb_false_r; auto using is_Some_None.
Qed.

Lemma try_remove_gone rf p w :
  rf p = false -> path_exists (try_remove rf p w) p = false.
Proof.
  intros Hrf. unfold try_remove. destruct (path_exists w p) eqn:E; [|exact E].
  rewrite Hrf. apply path_exists_none. simpl. apply lookup_delete_eq.
Qed.

Lemma try_remove_stays_gone rf p q w :
  path_exists w q = false -> path_exists (try_remove rf p w) q = false.
Proof.
  intros H. destruct (decide (q = p)) as [->|Hne].
  - unfold try_remove. rewrite H. exact H.
  - rewrite (path_exists_files w); auto using try_remove_other.
Qed.

Lemma cleanup_ctx rf cands ex : forall w, ctx (cleanup_candidates rf cands ex w) = ctx w.
Proof.
  induction cands as [|c cands IH]; intros w; simpl; [reflexivity|].
  destruct (match ex with Some e => _ | None => _ end);
    rewrite IH; auto using try_remove_ctx.
Qed.

Lemma cleanup_heap rf cands ex : forall w, heap (cleanup_candidates rf cands ex w) = heap w.
Proof.
  induction cands as [|c cands IH]; intros w; simpl; [reflexivity|].
  destruct (match ex with Some e => _ | None => _ end); rewrite IH; auto.
  unfold try_remove. destruct (path_exists w c), (rf c); reflexivity.
Qed.

Lemma cleanup_stays_gone rf cands ex q :
  forall w, path_exists w q = false ->
            path_exists (cleanup_candidates rf cands ex w) q = false.
Proof.
  induction cands as [|c cands IH]; intros w H; simpl; [exact H|].
  destruct (match ex with Some e => _ | None => _ end);
    auto using try_remove_stays_gone.
Qed.

(** The excluded path keeps its file. *)
Lemma cleanup_keeps_excluded rf cands e :
  forall w, files (cleanup_candidates rf cands (Some e) w) !! e = files w !! e.
Proof.
  induction cands as [|c cands IH]; intros w; simpl; [reflexivity|].
  destruct (PyStr.is_empty e) eqn:He; simpl.
  - destruct e; [|discriminate]. rewrite IH.
    destruct (decide (c = "")) as [->|Hne]; [reflexivity|].
    apply try_remove_other. congruence.
  - case_bool_decide as Hc; [apply IH|].
    rewrite IH. apply try_remove_other. congruence.
Qed.

(** A path that is not a candidate is left alone. *)
Lemma cleanup_frame rf cands ex q :
  q ∉ cands ->
  forall w, files (cleanup_candidates rf cands ex w) !! q = files w !! q.
Proof.
  induction cands as [|c cands IH]; intros Hq w; simpl; [reflexivity|].
  apply not_elem_of_cons in Hq as [Hne Hq].
  destruct (match ex with Some e => _ | None => _ end); rewrite IH by exact Hq;
    auto using try_remove_other.
Qed.

(** Every other candidate is gone afterwards, when [os.remove] works. *)
Lemma cleanup_removes_others rf cands e q :
  q ∈ cands -> q <> e -> rf q = false ->
  forall w, path_exists (cleanup_candidates rf cands (Some e) w) q = false.
Proof.
  induction cands as [|c cands IH]; intros Hq Hne Hrf w; [inversion Hq|].
  simpl. destruct (decide (q = c)) as [->|Hqc].
  - rewrite (bool_decide_eq_false_2 (c = e)) by exact Hne.
    rewrite andb_false_r. apply cleanup_stays_gone, try_remove_gone, Hrf.
  - apply elem_of_cons in Hq as [Hq|Hq]; [contradiction|].
    destruct (_ && _); apply IH; auto.
Qed.

Lemma score_candidates_lookup chk w expected i b :
  score_candidates chk w expected !! i = Some b ->
  audio_candidates (ctx w) !! i = Some (cand_path b).
Proof.
  unfold score_candidates. rewrite list_lookup_fmap.
  destruct (audio_candidates (ctx w) !! i) as [p|]; simpl; [|discriminate].
  destruct (_ || _); [|destruct (chk p expected)]; intros [= <-]; reflexivity.
Qed.

(** C4. With at least one candidate, a loadable recogniser and a working
    [os.remove], the step succeeds and: if some score reaches 0.95 the
    selected candidate has the highest score, the earliest among equals;
    otherwise it is the earliest with the longest transcript when that
    fallback is configured, else the earliest with the highest score; the
    selected path becomes the current audio and keeps its file; no other
    candidate path exists afterwards. *)
Theorem whisper_check_selects_and_cleans :
  forall (load : PyVal -> PyVal -> result unit)
         (chk : string -> string -> Q * string)
         (rf : string -> bool) (w : World),
    audio_candidates (ctx w) <> [] ->
    (forall a b, load a b = Ok tt) ->
    (forall p, p ∈ audio_candidates (ctx w) -> rf p = false) ->
    let cs := score_candidates chk w (expected_text (ctx w)) in
    let use_longest :=
      truthy (dict_get (deref w (parameters (ctx w)))
                       "use_longest_transcript_on_fail" (VBool false)) in
    exists i best w',
      process load chk rf w = (w', Ok tt)
      /\ ((exists c, c ∈ cs /\ (threshold <= score c)%Q) ->
          highest_score_earliest cs i best)
      /\ ((forall c, c ∈ cs -> (score c < threshold)%Q) ->
          if use_longest then longest_transcript_earliest cs i best
          else highest_score_earliest cs i best)
      /\ cs !! i = Some best
      /\ audio_candidates (ctx w) !! i = Some (cand_path best)
      /\ current_audio (ctx w') = Some (cand_path best)
      /\ files w' !! cand_path best = files w !! cand_path best
      /\ (forall p, p ∈ audio_candidates (ctx w) -> p <> cand_path best ->
                    path_exists w' p = false).
Proof.
  intros load chk rf w Hne Hload Hrf cs use_longest.
  assert (Hcs : cs <> []).
  { subst cs. unfold score_candidates.
    destruct (audio_candidates (ctx w)); [congruence|discriminate]. }
  destruct (select_best_spec use_longest cs Hcs) as (i & best & Hsel & Hhi & Hlo).
  assert (Hi : cs !! i = Some best).
  { destruct (classic_threshold cs) as [H|H].
    - apply (Hhi H).
    - specialize (Hlo H). destruct use_longest; apply Hlo. }
  eexists i, best, _. split.
  { unfold process.
    destruct (audio_candidates (ctx w)) eqn:Hc; [congruence|]. simpl negb.
    cbv iota. rewrite Hload. fold cs use_longest. rewrite Hsel. reflexivity. }
  split; [exact Hhi|]. split; [exact Hlo|]. split; [exact Hi|].
  split; [eapply score_candidates_lookup, Hi|].
  split; [simpl; rewrite cleanup_ctx; reflexivity|].
  split; [simpl; rewrite cleanup_keeps_excluded; reflexivity|].
  intros p Hp Hpb. unfold path_exists. simpl.
  apply (cleanup_removes_others rf _ (cand_path best) p); auto.
Qed.

Lemma whisper_check_selects_and_cleans_witness :
  let w := selection_world ["c0.wav"; "c1.wav"; "c2.wav"] in
  let chk := demo_scores [("c0.wav", (50 # 100, "hello"));
                          ("c1.wav", (97 # 100, "hello world"));
                          ("c2.wav", (80 # 100, "hello word"))] in
  let cs := score_candidates chk w (expected_text (ctx w)) in
  exists i best w',
    process always_loads chk never_fails w = (w', Ok tt)
    /\ ((exists c, c ∈ cs /\ (threshold <= score c)%Q) ->
        highest_score_earliest cs i best)
    /\ ((forall c, c ∈ cs -> (score c < threshold)%Q) ->
        if false then longest_transcript_earliest cs i best
        else highest_score_earliest cs i best)
    /\ cs !! i = Some best
    /\ audio_candidates (ctx w) !! i = Some (cand_path best)
    /\ current_audio (ctx w') = Some (cand_path best)
    /\ files w' !! cand_path best = files w !! cand_path best
    /\ (forall p, p ∈ audio_candidates (ctx w) -> p <> cand_path best ->
                  path_exists w' p = false).
Proof.
  intros w chk cs.
  apply (whisper_check_selects_and_cleans always_loads chk never_fails w).
  - discriminate.
  - reflexivity.
  - reflexivity.
Defined.

(** Scores [0.50, 0.97, 0.80]: the second candidate is selected and the
    files of the other two are deleted. *)
Example selection_above_threshold :
  let w := selection_world ["c0.wav"; "c1.wav"; "c2.wav"] in
  let chk := demo_scores [("c0.wav", (50 # 100, "hello"));
                          ("c1.wav", (97 # 100, "hello world"));
                          ("c2.wav", (80 # 100, "hello word"))] in
  let w' := fst (process always_loads chk never_fails w) in
  current_audio (ctx w') = Some "c1.wav"
  /\ map (path_exists w') ["c0.wav"; "c1.wav"; "c2.wav"] = [false; true; false]
  /\ expected_text (ctx w) = "Hello world.".
Proof. vm_compute. auto. Qed.

(** Scores [0.40, 0.60], none reaching the threshold, default fallback: the
    higher score is selected. *)
Example selection_fallback_highest :
  let w := selection_world ["c0.wav"; "c1.wav"] in
  let chk := demo_scores [("c0.wav", (40 # 100, "a much longer transcript"));
                          ("c1.wav", (60 # 100, "short"))] in
  let w' := fst (process always_loads chk never_fails w) in
  current_audio (ctx w') = Some "c1.wav"
  /\ map (path_exists w') ["c0.wav"; "c1.wav"] = [false; true].
Proof. vm_compute. auto. Qed.

(** Equal scores: the earlier candidate wins. *)
Example selection_tie_earliest :
  select_best false [mkScored "a" (96 # 100) "x"; mkScored "b" (48 # 50) "y";
                     mkScored "c" (90 # 100) "z"]
  = Ok (mkScored "a" (96 # 100) "x").
Proof. vm_compute. reflexivity. Qed.

(** *** What the cleanup touches *)

Lemma try_remove_shrinks rf p w q :
  files (try_remove rf p w) !! q = files w !! q
  \/ files (try_remove rf p w) !! q = None.
Proof.
  unfold try_remove. destruct (path_exists w p), (rf p); simpl; auto.
  destruct (decide (q = p)) as [->|Hne].
  - right. apply lookup_delete_eq.
  - left. apply lookup_delete_ne. congruence.
Qed.

Lemma try_remove_failing rf p w : rf p = true -> try_remove rf p w = w.
Proof. intros H. unfold try_remove. rewrite H. destruct (path_exists w p); reflexivity. Qed.

Lemma try_remove_next_id rf p w : next_id (try_remove rf p w) = next_id w.
Proof. unfold try_remove. destruct (path_exists w p), (rf p); reflexivity. Qed.

Lemma cleanup_next_id rf cands ex :
  forall w, next_id (cleanup_candidates rf cands ex w) = next_id w.
Proof.
  induction cands as [|c cands IH]; intros w; simpl; [reflexivity|].
  destruct (match ex with Some e => _ | None => _ end);
    rewrite IH; auto using try_remove_next_id.
Qed.

Lemma cleanup_shrinks rf cands ex q :
  forall w, files (cleanup_candidates rf cands ex w) !! q = files w !! q
            \/ files (cleanup_candidates rf cands ex w) !! q = None.
Proof.
  induction cands as [|c cands IH]; intros w; simpl; [auto|].
  destruct (match ex with Some e => _ | None => _ end); [apply IH|].
  destruct (IH (try_remove rf c w)) as [H|H]; [|auto].
  rewrite H. apply try_remove_shrinks.
Qed.

(** A file that [os.remove] refuses to delete stays. *)
Lemma cleanup_keeps_failing rf cands ex q :
  rf q = true ->
  forall w, files (cleanup_candidates rf cands ex w) !! q = files w !! q.
Proof.
  intros Hq. induction cands as [|c cands IH]; intros w; simpl; [reflexivity|].
  destruct (match ex with Some e => _ | None => _ end); rewrite IH; [reflexivity|].
  destruct (decide (q = c)) as [->|Hne].
  - rewrite try_remove_failing by exact Hq. reflexivity.
  - apply try_remove_other, Hne.
Qed.

(** Without a path to spare, or with the empty one, every listed file
    goes. *)
Lemma cleanup_removes_listed rf cands ex q :
  q ∈ cands -> ex <> Some q -> rf q = false ->
  forall w, path_exists (cleanup_candidates rf cands ex w) q = false.
Proof.
  induction cands as [|c cands IH]; intros Hq Hex Hrf w; [inversion Hq|].
  simpl. destruct (decide (q = c)) as [->|Hqc].
  - assert (Hskip : match ex with
                    | Some e => negb (PyStr.is_empty e) && bool_decide (c = e)
                    | None => false
                    end = false).
    { destruct ex as [e|]; [|reflexivity].
      rewrite (bool_decide_eq_false_2 (c = e)) by congruence.
      apply andb_false_r. }
    rewrite Hskip. apply cleanup_stays_gone, try_remove_gone, Hrf.
  - apply elem_of_cons in Hq as [Hq|Hq]; [contradiction|].
    destruct (match ex with Some e => _ | None => _ end); apply IH; auto.
Qed.

(** X12. [cleanup_candidates] changes nothing but the files: it only
    deletes, and only listed paths; the excluded path keeps its file, a file
    whose removal raises stays, and every other listed file whose removal
    works is gone afterwards.  Nothing is excluded when [exclude] is [None]
    or the empty path. *)
Theorem cleanup_candidates_deletes_only_listed :
  forall (rf : string -> bool) (candidates : list string)
         (exclude : option string) (w : World),
    let w' := cleanup_candidates rf candidates exclude w in
    ctx w' = ctx w /\ heap w' = heap w /\ next_id w' = next_id w
    /\ (forall q, files w' !! q = files w !! q \/ files w' !! q = None)
    /\ (forall q, q ∉ candidates -> files w' !! q = files w !! q)
    /\ (forall e, exclude = Some e -> files w' !! e = files w !! e)
    /\ (forall q, rf q = true -> files w' !! q = files w !! q)
    /\ (forall q, q ∈ candidates -> exclude <> Some q -> rf q = false ->
                  path_exists w' q = false).
Proof.
  intros rf candidates exclude w w'. subst w'.
  split; [apply cleanup_ctx|]. split; [apply cleanup_heap|].
  split; [apply cleanup_next_id|].
  split; [intros q; apply cleanup_shrinks|].
  split; [intros q Hq; apply cleanup_frame, Hq|].
  split; [intros e ->; apply cleanup_keeps_excluded|].
  split; [intros q Hq; apply cleanup_keeps_failing, Hq|].
  intros q Hq Hex Hrf. apply cleanup_removes_listed; assumption.
Qed.

(** *** Failure and degenerate scores *)

Lemma select_best_total use_longest cs :
  cs <> [] -> exists best, select_best use_longest cs = Ok best /\ best ∈ cs.
Proof.
  intros Hne.
  destruct (select_best_spec use_longest cs Hne) as (i & best & Hsel & Hhi & Hlo).
  exists best. split; [exact Hsel|].
  destruct (classic_threshold cs) as [H|H].
  - destruct (Hhi H) as [Hi _]. eapply list_elem_of_lookup_2, Hi.
  - specialize (Hlo H). destruct use_longest; destruct Hlo as [Hi _];
      eapply list_elem_of_lookup_2, Hi.
Qed.

Lemma score_candidates_paths chk w expected :
  map cand_path (score_candidates chk w expected) = audio_candidates (ctx w).
Proof.
  unfold score_candidates. rewrite map_map.
  induction (audio_candidates (ctx w)) as [|p l IH]; simpl; [reflexivity|].
  rewrite IH. f_equal.
  destruct (_ || _); [|destruct (chk p expected)]; reflexivity.
Qed.

(** X13. The step raises in two cases only: there is no candidate, or the
    recogniser cannot be loaded; in both the world is left as it was, no
    file deleted.  Scoring, selection and cleanup never raise. *)
Theorem whisper_check_failure_modes :
  forall (load : PyVal -> PyVal -> result unit)
         (chk : string -> string -> Q * string)
         (rf : string -> bool) (w w' : World) (e : PyExn),
    process load chk rf w = (w', Err e) ->
    w' = w
    /\ ((audio_candidates (ctx w) = []
         /\ e = Exception "No audio candidates available for whisper checking")
        \/ (audio_candidates (ctx w) <> []
            /\ load (dict_get (deref w (parameters (ctx w))) "whisper_model"
                       (VStr "tiny"))
                    (dict_get (deref w (parameters (ctx w))) "use_faster_whisper"
                       (VBool false))
               = Err e)).
Proof.
  intros load chk rf w w' e. unfold process.
  destruct (audio_candidates (ctx w)) as [|p l] eqn:Hc.
  { simpl. intros [= <- <-]. auto. }
  simpl negb. cbv iota.
  destruct (load _ _) as [[]|e'] eqn:Hload.
  2:{ intros [= <- <-]. split; [reflexivity|]. right. split; [discriminate|reflexivity]. }
  destruct (select_best_total
              (truthy (dict_get (deref w (parameters (ctx w)))
                         "use_longest_transcript_on_fail" (VBool false)))
              (score_candidates chk w (expected_text (ctx w))))
    as (best & Hsel & _).
  { intros Hnil. apply (f_equal (map cand_path)) in Hnil.
    rewrite score_candidates_paths, Hc in Hnil. discriminate. }
  rewrite Hsel. discriminate.
Qed.

Lemma whisper_check_failure_modes_witness :
  let w := selection_world [] in
  process always_loads (demo_scores []) never_fails w
  = (w, Err (Exception "No audio candidates available for whisper checking"))
  /\ (w = w
      /\ ((audio_candidates (ctx w) = []
           /\ Exception "No audio candidates available for whisper checking"
              = Exception "No audio candidates available for whisper checking")
          \/ (audio_candidates (ctx w) <> []
              /\ always_loads
                   (dict_get (deref w (parameters (ctx w))) "whisper_model"
                      (VStr "tiny"))
                   (dict_get (deref w (parameters (ctx w))) "use_faster_whisper"
                      (VBool false))
                 = Err (Exception "No audio candidates available for whisper checking")))).
Proof.
  intros w. split; [reflexivity|].
  apply (whisper_check_failure_modes always_loads (demo_scores []) never_fails
           w w (Exception "No audio candidates available for whisper checking")).
  reflexivity.
Defined.

(** X14. With a candidate and a loadable recogniser the step succeeds
    even when [os.remove] raises: the selected path is one of the
    candidates, becomes the current audio and keeps its file; the candidate
    list is emptied; a candidate file whose removal raises stays, and no
    file outside the candidate list is touched. *)
Theorem whisper_check_survives_removal_failures :
  forall (load : PyVal -> PyVal -> result unit)
         (chk : string -> string -> Q * string)
         (rf : string -> bool) (w : World),
    audio_candidates (ctx w) <> [] ->
    (forall a b, load a b = Ok tt) ->
    exists best w',
      process load chk rf w = (w', Ok tt)
      /\ best ∈ audio_candidates (ctx w)
      /\ current_audio (ctx w') = Some best
      /\ audio_candidates (ctx w') = []
      /\ files w' !! best = files w !! best
      /\ (forall p, rf p = true -> files w' !! p = files w !! p)
      /\ (forall q, q ∉ audio_candidates (ctx w) -> files w' !! q = files w !! q).
Proof.
  intros load chk rf w Hne Hload.
  destruct (select_best_total
              (truthy (dict_get (deref w (parameters (ctx w)))
                         "use_longest_transcript_on_fail" (VBool false)))
              (score_candidates chk w (expected_text (ctx w))))
    as (best & Hsel & Hin).
  { intros Hnil. apply (f_equal (map cand_path)) in Hnil.
    rewrite score_candidates_paths in Hnil. simpl in Hnil. contradiction. }
  eexists (cand_path best), _. split.
  { unfold process.
    destruct (audio_candidates (ctx w)) eqn:Hc; [congruence|]. simpl negb.
    cbv iota. rewrite Hload, Hsel. reflexivity. }
  split.
  { rewrite <- (score_candidates_paths chk w (expected_text (ctx w))).
    apply list_elem_of_fmap. eauto. }
  split; [simpl; rewrite cleanup_ctx; reflexivity|].
  split; [reflexivity|].
  split; [simpl; rewrite cleanup_keeps_excluded; reflexivity|].
  split.
  - intros p Hp. simpl. rewrite cleanup_keeps_failing by exact Hp. reflexivity.
  - intros q Hq. simpl. rewrite cleanup_frame; [reflexivity|exact Hq].
Qed.

Lemma whisper_check_survives_removal_failures_witness :
  let w := selection_world ["c0.wav"; "c1.wav"; "c2.wav"] in
  let chk := demo_scores [("c0.wav", (50 # 100, "hello"));
                          ("c1.wav", (97 # 100, "hello world"));
                          ("c2.wav", (80 # 100, "hello word"))] in
  let rf := fun p => bool_decide (p = "c2.wav") in
  exists best w',
    process always_loads chk rf w = (w', Ok tt)
    /\ best ∈ audio_candidates (ctx w)
    /\ current_audio (ctx w') = Some best
    /\ audio_candidates (ctx w') = []
    /\ files w' !! best = files w !! best
    /\ (forall p, rf p = true -> files w' !! p = files w !! p)
    /\ (forall q, q ∉ audio_candidates (ctx w) -> files w' !! q = files w !! q).
Proof.
  intros w chk rf.
  apply (whisper_check_survives_removal_failures always_loads chk rf w).
  - discriminate.
  - reflexivity.
Defined.

Lemma max_from_all_equal {A} (gt : A -> A -> bool) (best : A) (l : list A) :
  (forall x, x ∈ l -> gt x best = false) -> max_from gt best l = best.
Proof.
  induction l as [|x l IH]; intros H; simpl; [reflexivity|].
  rewrite (H x) by left. apply IH. intros y Hy. apply H. right. exact Hy.
Qed.

Lemma zero_scores_fail (l : list string) :
  filter (fun c : Scored => Qle_bool threshold (score c) = true)
         (map (fun p => mkScored p 0 "") l) = [].
Proof.
  induction l as [|p l IH]; [reflexivity|].
  simpl map. rewrite filter_cons_False; [exact IH|]. simpl. discriminate.
Qed.

(** X15. When every candidate file is missing or shorter than 1024 bytes,
    nothing is transcribed, every score is zero, and the step still
    succeeds: it selects the first candidate, under either fallback. *)
Theorem invalid_candidates_select_the_first :
  forall (load : PyVal -> PyVal -> result unit)
         (chk : string -> string -> Q * string)
         (rf : string -> bool) (w : World) (first : string) (rest : list string),
    audio_candidates (ctx w) = first :: rest ->
    (forall a b, load a b = Ok tt) ->
    (forall p, p ∈ first :: rest ->
               path_exists w p = false \/ (getsize w p < 1024)%N) ->
    score_candidates chk w (expected_text (ctx w))
    = map (fun p => mkScored p 0 "") (first :: rest)
    /\ exists w',
         process load chk rf w = (w', Ok tt)
         /\ current_audio (ctx w') = Some first.
Proof.
  intros load chk rf w first rest Hc Hload Hbad.
  assert (Hs : score_candidates chk w (expected_text (ctx w))
               = map (fun p => mkScored p 0 "") (first :: rest)).
  { unfold score_candidates. rewrite Hc. apply map_ext_in. intros p Hp.
    apply list_elem_of_In in Hp.
    destruct (Hbad p Hp) as [H|H].
    - rewrite H. reflexivity.
    - apply N.ltb_lt in H. rewrite H, orb_true_r. reflexivity. }
  split; [exact Hs|].
  assert (Hsel : forall use_longest,
             select_best use_longest (map (fun p => mkScored p 0 "") (first :: rest))
             = Ok (mkScored first 0 "")).
  { intros use_longest. unfold select_best.
    rewrite zero_scores_fail. simpl Chunking.nonempty. cbv iota.
    destruct use_longest; simpl py_max; f_equal; apply max_from_all_equal;
      intros x Hx; apply list_elem_of_fmap in Hx as (p & -> & _); reflexivity. }
  eexists. split.
  - unfold process. rewrite Hc. simpl negb. cbv iota.
    rewrite Hload, Hs, Hsel. reflexivity.
  - simpl. rewrite cleanup_ctx. reflexivity.
Qed.

Lemma invalid_candidates_select_the_first_witness :
  let w := mkWorld (selection_context ["gone.wav"; "tiny.wav"]) {[ 0%nat := ∅ ]}
                   {[ "tiny.wav" := 100%N ]} 0 in
  let chk := demo_scores [("tiny.wav", (99 # 100, "hello world"))] in
  score_candidates chk w (expected_text (ctx w))
  = map (fun p => mkScored p 0 "") ["gone.wav"; "tiny.wav"]
  /\ exists w',
       process always_loads chk never_fails w = (w', Ok tt)
       /\ current_audio (ctx w') = Some "gone.wav".
Proof.
  intros w chk.
  apply (invalid_candidates_select_the_first always_loads chk never_fails w
           "gone.wav" ["tiny.wav"]).
  - reflexivity.
  - reflexivity.
  - intros p Hp. rewrite !elem_of_cons in Hp.
    destruct Hp as [->|[->|Hp]]; [left; reflexivity|right; reflexivity|inversion Hp].
Defined.

End WhisperCheckFacts.

(** ** Properties of the step pipeline *)

Module RouterFacts.
Import Ctx Effects Router RouterSpec Scenarios.

Section WithEngine.
Variable loaded_steps : gmap string StepInfo.
Variable backend : ServiceCall -> result Response.
Variable pydantic_init :
  list string -> gmap string PyVal -> option (list string) ->
  option (list string) -> option string -> string -> string ->
  result StepContext.

Lemma run_progress eid name si total sub w :
  run backend (broadcast_execution_progress eid name si total sub) w
  = match progress_outcome si total with
    | Ok _ => ([Sent (execution_progress eid name si total sub)], w, Ok tt)
    | Err e => ([], w, Err e)
    end.
Proof.
  unfold broadcast_execution_progress, progress_outcome.
  destruct si as [| |z|], total as [|[]|[]|]; reflexivity.
Qed.

(** One iteration of the loop, stage by stage. *)
Lemma execute_step_unfold eid total sub s w :
  execute_step loaded_steps backend eid total sub s w
  = match increment (parameters (ctx w)) "step_index" w with
    | Err e => ([], w, Err e)
    | Ok w1 =>
        match deref w1 (parameters (ctx w1)) !! "step_index" with
        | None => ([], w1, Err (KeyError "step_index"))
        | Some si =>
            match progress_outcome si (VInt total) with
            | Err e => ([], w1, Err e)
            | Ok _ =>
                let sent := Sent (execution_progress (VStr eid) s si (VInt total) sub) in
                match loaded_steps !! s with
                | None => ([sent], w1, Err (KeyError s))
                | Some info =>
                    let '(trp, w2, r) := process info w1 in
                    (sent :: Invoked s :: map (InStep s) trp, w2,
                     match r with
                     | Ok _ =>
                         Ok (mkStepResult s (metadata info)
                               (multiple_speaker_text_array (ctx w2))
                               (bool_decide (is_Some (current_audio (ctx w2))))
                               (dom (deref w2 (parameters (ctx w2))))
                               (output_files (ctx w2)))
                     | Err e => Err e
                     end)
                end
            end
        end
    end.
Proof.
  unfold execute_step, seq_run, reads, lift_task, dict_increment, dict_item,
    of_result, note, in_step, ret. simpl.
  destruct (increment _ _ w) as [w1|e]; simpl; [|reflexivity].
  destruct (deref w1 _ !! "step_index") as [si|]; simpl; [|reflexivity].
  rewrite run_progress.
  destruct (progress_outcome si (VInt total)); simpl; [|reflexivity].
  destruct (loaded_steps !! s) as [info|]; simpl; [|reflexivity].
  destruct (process info w1) as [[trp w2] [[]|e]]; simpl;
    rewrite ?app_nil_r; reflexivity.
Qed.

Lemma top_progress_names_app a b :
  top_progress_names (a ++ b) = top_progress_names a ++ top_progress_names b.
Proof. apply omap_app. Qed.

Lemma invoked_app a b : invoked (a ++ b) = invoked a ++ invoked b.
Proof. apply omap_app. Qed.

Lemma count_app p a b : count p (a ++ b) = (count p a + count p b)%nat.
Proof. unfold count. rewrite List.filter_app, length_app. reflexivity. Qed.

(** What happens inside a step is not a message of the engine. *)
Lemma in_step_top s trp :
  top_progress_names (map (InStep s) trp) = []
  /\ invoked (map (InStep s) trp) = []
  /\ count is_error (map (InStep s) trp) = 0%nat
  /\ count is_complete (map (InStep s) trp) = 0%nat.
Proof. induction trp as [|o trp IH]; simpl; auto. Qed.

Lemma execute_step_shape eid total sub s w tr w' r :
  execute_step loaded_steps backend eid total sub s w = (tr, w', r) ->
  (exists sr, r = Ok sr) \/ Invoked s ∈ tr ->
  exists si trp,
    tr = Sent (execution_progress (VStr eid) s si (VInt total) sub)
         :: Invoked s :: map (InStep s) trp.
Proof.
  rewrite execute_step_unfold. intros E H.
  destruct (increment _ _ w) as [w1|e1].
  2:{ injection E as <- <- <-. destruct H as [[sr H]|H]; [discriminate|inversion H]. }
  destruct (deref w1 _ !! "step_index") as [si|].
  2:{ injection E as <- <- <-. destruct H as [[sr H]|H]; [discriminate|inversion H]. }
  destruct (progress_outcome si (VInt total)).
  2:{ injection E as <- <- <-. destruct H as [[sr H]|H]; [discriminate|inversion H]. }
  destruct (loaded_steps !! s) as [info|].
  2:{ injection E as <- <- <-. destruct H as [[sr H]|H]; [discriminate|].
      apply list_elem_of_singleton in H. discriminate. }
  destruct (process info w1) as [[trp w2] rp]. injection E as <- <- <-. eauto.
Qed.

Lemma shape_top eid total sub s si trp :
  let tr := Sent (execution_progress (VStr eid) s si (VInt total) sub)
            :: Invoked s :: map (InStep s) trp in
  top_progress_names tr = [s] /\ invoked tr = [s]
  /\ count is_error tr = 0%nat /\ count is_complete tr = 0%nat.
Proof.
  destruct (in_step_top s trp) as (H1 & H2 & H3 & H4).
  simpl. unfold count in *. simpl. rewrite H1, H2, H3, H4. auto.
Qed.

(** One turn of the loop: the step completes and the loop goes on, or it
    raises, one error message is sent and the loop is left. *)
Lemma execute_steps_cons eid total sub s rest acc w :
  execute_steps loaded_steps backend eid total sub (s :: rest) acc w
  = let '(tr, w1, r) := execute_step loaded_steps backend eid total sub s w in
    match r with
    | Ok sr =>
        let '(tr', w2, r') :=
          execute_steps loaded_steps backend eid total sub rest (acc ++ [sr]) w1 in
        (tr ++ tr', w2, r')
    | Err e =>
        (tr ++ [Sent (execution_error eid
                        ("Error executing step '" +:+ s +:+ "': " +:+ exn_str e)
                        sub)],
         w1, Ok None)
    end.
Proof.
  simpl. unfold seq_run at 1. unfold try_run, seq_run at 1.
  destruct (execute_step _ _ _ _ _ _ w) as [[tr w1] [sr|e]]; simpl.
  - rewrite app_nil_r.
    destruct (execute_steps _ _ _ _ _ rest _ w1) as [[tr' w2] r']. reflexivity.
  - rewrite !app_nil_r. reflexivity.
Qed.

Lemma execute_steps_completed eid total sub pre :
  forall acc w tr w' srs,
    execute_steps loaded_steps backend eid total sub pre acc w
    = (tr, w', Ok (Some srs)) ->
    top_progress_names tr = pre /\ invoked tr = pre
    /\ count is_error tr = 0%nat /\ count is_complete tr = 0%nat.
Proof.
  induction pre as [|s pre IH]; intros acc w tr w' srs E.
  - simpl in E. injection E as <- <- <-. auto.
  - rewrite execute_steps_cons in E.
    destruct (execute_step _ _ _ _ _ _ w) as [[tr1 w1] [sr|e]] eqn:E1;
      [|discriminate].
    destruct (execute_steps _ _ _ _ _ pre _ w1) as [[tr2 w2] r2] eqn:E2.
    injection E as <- <- ->.
    destruct (IH _ _ _ _ _ E2) as (H1 & H2 & H3 & H4).
    destruct (execute_step_shape _ _ _ _ _ _ _ _ E1) as (si & trp & ->); [eauto|].
    destruct (shape_top eid total sub s si trp) as (T1 & T2 & T3 & T4).
    rewrite top_progress_names_app, invoked_app, !count_app.
    rewrite T1, T2, T3, T4, H1, H2, H3, H4. auto.
Qed.

Lemma execute_steps_raise eid total sub pre s post e :
  forall acc w tr1 w1 srs tr2 w2,
    execute_steps loaded_steps backend eid total sub pre acc w
    = (tr1, w1, Ok (Some srs)) ->
    execute_step loaded_steps backend eid total sub s w1 = (tr2, w2, Err e) ->
    execute_steps loaded_steps backend eid total sub (pre ++ s :: post) acc w
    = (tr1 ++ tr2
       ++ [Sent (execution_error eid
                   ("Error executing step '" +:+ s +:+ "': " +:+ exn_str e) sub)],
       w2, Ok None).
Proof.
  induction pre as [|x pre IH]; intros acc w tr1 w1 srs tr2 w2 E1 E2.
  - simpl in E1. injection E1 as <- <- <-. simpl app.
    rewrite execute_steps_cons, E2. reflexivity.
  - simpl app. rewrite execute_steps_cons in E1 |- *.
    destruct (execute_step _ _ _ _ _ x w) as [[tr w'] [sr|e']]; [|discriminate].
    destruct (execute_steps _ _ _ _ _ pre _ w') as [[tr' w''] r'] eqn:E.
    injection E1 as <- <- ->.
    rewrite (IH _ _ _ _ _ _ _ E E2), <- app_assoc. reflexivity.
Qed.

Lemma seq_run_ok {A B} (m : Run A) (f : A -> Run B) w tr w1 a tr' w2 r :
  m w = (tr, w1, Ok a) -> f a w1 = (tr', w2, r) ->
  seq_run m f w = (tr ++ tr', w2, r).
Proof. intros E1 E2. unfold seq_run. rewrite E1, E2. reflexivity. Qed.

Lemma try_run_ok {A} (m : Run A) (h : PyExn -> Run A) w tr w1 a :
  m w = (tr, w1, Ok a) -> try_run m h w = (tr, w1, Ok a).
Proof. intros E. unfold try_run. rewrite E. reflexivity. Qed.

Lemma silent_ret {A} (a : A) : silent (ret a).
Proof. intros w tr w' r [= <- _ _]. reflexivity. Qed.

Lemma silent_of_result {A} (x : result A) : silent (of_result x).
Proof. intros w tr w' r [= <- _ _]. reflexivity. Qed.

Lemma silent_reads {A} (f : World -> A) : silent (reads f).
Proof. intros w tr w' r [= <- _ _]. reflexivity. Qed.

Lemma silent_update f : silent (update f).
Proof. intros w tr w' r [= <- _ _]. reflexivity. Qed.

Lemma silent_seq {A B} (m : Run A) (f : A -> Run B) :
  silent m -> (forall a, silent (f a)) -> silent (seq_run m f).
Proof.
  intros Hm Hf w tr w' r. unfold seq_run.
  destruct (m w) as [[tr1 w1] [a|e]] eqn:E1.
  - destruct (f a w1) as [[tr2 w2] r2] eqn:E2. intros [= <- _ _].
    rewrite (Hm _ _ _ _ E1), (Hf _ _ _ _ _ E2). reflexivity.
  - intros [= <- _ _]. apply (Hm _ _ _ _ E1).
Qed.

Lemma silent_dict_store l k v : silent (lift_task backend (dict_store l k v)).
Proof. intros w tr w' r [= <- _ _]. reflexivity. Qed.

Lemma silent_new_dict d : silent (lift_task backend (new_dict d)).
Proof. intros w tr w' r [= <- _ _]. reflexivity. Qed.

Lemma prepare_context_silent eid txts steps ofn sub params vcps ats w tr w' r :
  prepare_context loaded_steps backend pydantic_init eid txts steps ofn sub
    params vcps ats w = (tr, w', r) ->
  tr = [].
Proof.
  revert w tr w' r. change (silent (prepare_context loaded_steps backend
    pydantic_init eid txts steps ofn sub params vcps ats)).
  unfold prepare_context, from_request_parameters, estimate_total_steps.
  repeat first
    [ apply silent_ret | apply silent_of_result | apply silent_reads
    | apply silent_update | apply silent_dict_store | apply silent_new_dict
    | apply silent_seq; [|intros ?]
    | match goal with |- silent (match ?x with _ => _ end) => destruct x end ].
Qed.

Lemma no_missing_steps (steps : list string) :
  (forall x, x ∈ steps -> is_Some (loaded_steps !! x)) ->
  filter (fun step => loaded_steps !! step = None) steps = [].
Proof.
  induction steps as [|x steps IH]; intros H; [reflexivity|].
  rewrite filter_cons_False.
  - apply IH. intros y Hy. apply H. set_solver.
  - destruct (H x) as [info Hx]; [set_solver|]. rewrite Hx. discriminate.
Qed.

(** C5. When the steps before step [s] complete and [s] itself raises,
    the engine has sent progress messages for the steps up to [s] and no
    others, has invoked exactly those steps, sends exactly one error
    message and no completion message, and ends. *)
Theorem failing_step_stops_the_run :
  forall (eid : string) (txts steps : list string) (ofn sub : string)
         (params : option (gmap string PyVal))
         (vcps ats : option (list string)) (w0 : World)
         (pre : list string) (s : string) (post : list string) (total : Z)
         (tr0 tr1 tr2 : list Obs) (w1 w2 w3 : World)
         (srs : list StepResult) (e : PyExn),
    steps = pre ++ s :: post ->
    (forall x, x ∈ steps -> is_Some (loaded_steps !! x)) ->
    prepare_context loaded_steps backend pydantic_init eid txts steps ofn sub
      params vcps ats w0 = (tr0, w1, Ok total) ->
    execute_steps loaded_steps backend eid total sub pre [] w1
    = (tr1, w2, Ok (Some srs)) ->
    execute_step loaded_steps backend eid total sub s w2 = (tr2, w3, Err e) ->
    Invoked s ∈ tr2 ->
    exists tr,
      _execute_steps_impl loaded_steps backend pydantic_init eid txts steps
        ofn sub params vcps ats w0 = (tr, w3, Ok tt)
      /\ top_progress_names tr = pre ++ [s]
      /\ invoked tr = pre ++ [s]
      /\ count is_error tr = 1%nat
      /\ count is_complete tr = 0%nat.
Proof.
  intros eid txts steps ofn sub params vcps ats w0 pre s post total
    tr0 tr1 tr2 w1 w2 w3 srs e Hsteps Hres Hprep Hpre Hs Hinv.
  assert (tr0 = []) as -> by (eapply prepare_context_silent; eauto).
  eexists. split.
  - unfold _execute_steps_impl. apply try_run_ok.
    rewrite (no_missing_steps steps Hres).
    change (Chunking.nonempty (@nil string)) with false. cbv iota.
    eapply seq_run_ok; [exact Hprep|].
    eapply seq_run_ok;
      [subst steps; eapply execute_steps_raise; eauto|reflexivity].
  - destruct (execute_steps_completed _ _ _ _ _ _ _ _ _ Hpre) as (H1 & H2 & H3 & H4).
    destruct (execute_step_shape _ _ _ _ _ _ _ _ Hs) as (si & trp & ->); [auto|].
    destruct (shape_top eid total sub s si trp) as (T1 & T2 & T3 & T4).
    rewrite !top_progress_names_app, !invoked_app, !count_app.
    rewrite T1, T2, T3, T4, H1, H2, H3, H4. simpl.
    rewrite !app_nil_r. repeat split; auto; lia.
Qed.

(** C3. A request with a non-empty text list that names a step missing from
    the registry is accepted: the caller gets the execution id.  The
    background task then sends one error message that lists every missing
    name, and does nothing else: no step is invoked and the world is
    unchanged. *)
Theorem unknown_step_reported_by_background_task :
  forall (request : StepExecutionRequest) (eid : string) (txts : list string),
    req_texts request = Some txts -> txts <> [] ->
    (exists x, x ∈ req_steps request /\ loaded_steps !! x = None) ->
    let missing :=
      filter (fun step => loaded_steps !! step = None) (req_steps request) in
    exists task,
      execute_steps_background loaded_steps backend pydantic_init request eid
      = Ok (eid, task)
      /\ forall w,
           task w
           = ([Sent (execution_error eid
                       ("Steps not found: " +:+ PyStr.join ", " missing)
                       (req_output_subfolder request))],
              w, Ok tt).
Proof.
  intros request eid txts Htxts Hne (x & Hx & Hnone) missing.
  assert (Hm : Chunking.nonempty missing = true).
  { apply ChunkingFacts.nonempty_true. intros E.
    assert (Hin : x ∈ missing) by (apply list_elem_of_filter; auto).
    rewrite E in Hin. inversion Hin. }
  unfold execute_steps_background.
  destruct (req_steps request) as [|s0 rest] eqn:Hsteps; [inversion Hx|].
  simpl Chunking.nonempty. simpl negb. cbv iota.
  rewrite Htxts. destruct txts as [|t txts']; [congruence|]. simpl nonempty_opt.
  eexists. split; [reflexivity|].
  intros w. unfold execute_steps_async, _execute_steps_impl, try_run.
  fold missing. rewrite Hm. reflexivity.
Qed.

End WithEngine.

Lemma failing_step_stops_the_run_witness :
  exists w tr,
    _execute_steps_impl demo_registry demo_backend demo_pydantic "run-1"
      ["Hello."] ["s1"; "s2"; "s3"; "s4"; "s5"] "out" "sub" None
      (Some ["v.wav"]) (Some ["t"]) blank_world = (tr, w, Ok tt)
    /\ top_progress_names tr = ["s1"; "s2"] ++ ["s3"]
    /\ invoked tr = ["s1"; "s2"] ++ ["s3"]
    /\ count is_error tr = 1%nat
    /\ count is_complete tr = 0%nat.
Proof.
  eexists.
  eapply (failing_step_stops_the_run demo_registry demo_backend demo_pydantic
            "run-1" ["Hello."] ["s1"; "s2"; "s3"; "s4"; "s5"] "out" "sub" None
            (Some ["v.wav"]) (Some ["t"]) blank_world
            ["s1"; "s2"] "s3" ["s4"; "s5"]).
  - reflexivity.
  - intros x Hx. rewrite !elem_of_cons in Hx.
    destruct Hx as [->|[->|[->|[->|[->|Hx]]]]]; [vm_compute; eauto..|inversion Hx].
  - vm_compute. reflexivity.
  - vm_compute. reflexivity.
  - vm_compute. reflexivity.
  - apply list_elem_of_In. simpl. auto.
Defined.

(** The request of the test [test_error_handling_missing_step]: the
    endpoint answers with the execution id, not with an error. *)
Lemma unknown_step_is_accepted_at_once :
  let request := mkRequest (Some ["test"]) ["nonexistent-step"] ["v.wav"]
                           ["test"] (Some ∅) "test_output" "test" in
  (exists x, x ∈ req_steps request /\ demo_registry !! x = None)
  /\ ~ exists e,
         execute_steps_background demo_registry demo_backend demo_pydantic
           request "id-1" = Err e.
Proof.
  split.
  - exists "nonexistent-step". split; [set_solver|reflexivity].
  - intros [e H]. vm_compute in H. discriminate.
Qed.

Lemma unknown_step_reported_by_background_task_witness :
  let request := mkRequest (Some ["test"]) ["s1"; "nope"; "s2"; "nada"]
                           ["v.wav"] ["test"] (Some ∅) "test_output" "test" in
  exists task,
    execute_steps_background demo_registry demo_backend demo_pydantic request
      "id-1" = Ok ("id-1", task)
    /\ forall w,
         task w
         = ([Sent (execution_error "id-1"
                     ("Steps not found: " +:+ PyStr.join ", "
                        (filter (fun step => demo_registry !! step = None)
                                (req_steps request)))
                     (req_output_subfolder request))],
            w, Ok tt).
Proof.
  intros request.
  apply (unknown_step_reported_by_background_task demo_registry demo_backend
           demo_pydantic request "id-1" ["test"]).
  - reflexivity.
  - discriminate.
  - exists "nope". split; [set_solver|reflexivity].
Defined.

(** Both missing names are listed, in the order of the request. *)
Example missing_names_listed :
  PyStr.join ", " (filter (fun step => demo_registry !! step = None)
                          ["s1"; "nope"; "s2"; "nada"])
  = "nope, nada".
Proof. vm_compute. reflexivity. Qed.

(** *** The outcome of a run, whatever the steps do *)

Lemma all_registered (loaded_steps : gmap string StepInfo)
    (steps : list string) :
  (forall x, x ∈ steps -> is_Some (loaded_steps !! x)) ->
  filter (fun step => loaded_steps !! step = None) steps = [].
Proof.
  induction steps as [|x steps IH]; intros H; [reflexivity|].
  rewrite filter_cons_False.
  - apply IH. intros y Hy. apply H. set_solver.
  - destruct (H x) as [info Hx]; [set_solver|]. rewrite Hx. discriminate.
Qed.

Section Outcome.
Variable loaded_steps : gmap string StepInfo.
Variable backend : ServiceCall -> result Response.
Variable pydantic_init :
  list string -> gmap string PyVal -> option (list string) ->
  option (list string) -> option string -> string -> string ->
  result StepContext.

Lemma progress_outcome_zero si : progress_outcome si (VInt 0) <> Ok tt.
Proof. destruct si; discriminate. Qed.

Lemma progress_outcome_same total :
  total <> 0%Z -> progress_outcome (VInt total) (VInt total) = Ok tt.
Proof. intros H. destruct total; [congruence|reflexivity..]. Qed.

(** A step sends no error and no completion message of its own, and it
    completes only when the total is not zero and the step is registered. *)
Lemma execute_step_counts eid total sub s w tr w' r :
  execute_step loaded_steps backend eid total sub s w = (tr, w', r) ->
  count is_error tr = 0%nat /\ count is_complete tr = 0%nat
  /\ (forall sr, r = Ok sr ->
        total <> 0%Z /\ is_Some (loaded_steps !! s) /\ sr_step_name sr = s).
Proof.
  rewrite execute_step_unfold. intros E.
  destruct (increment _ _ w) as [w1|e1].
  2:{ injection E as <- <- <-. repeat split; discriminate. }
  destruct (deref w1 _ !! "step_index") as [si|].
  2:{ injection E as <- <- <-. repeat split; discriminate. }
  destruct (progress_outcome si (VInt total)) as [[]|e2] eqn:Hp.
  2:{ injection E as <- <- <-. repeat split; discriminate. }
  assert (Ht : total <> 0%Z).
  { intros ->. exact (progress_outcome_zero si Hp). }
  destruct (loaded_steps !! s) as [info|] eqn:Hs.
  2:{ injection E as <- <- <-. repeat split; discriminate. }
  destruct (process info w1) as [[trp w2] rp]. injection E as <- <- <-.
  destruct (shape_top eid total sub s si trp) as (_ & _ & T3 & T4).
  split; [exact T3|]. split; [exact T4|].
  intros sr Hsr. destruct rp as [[]|e]; [|discriminate].
  injection Hsr as <-. eauto.
Qed.

(** The loop over the steps never raises: it ends with the results of all
    the steps and has sent no error, or it has sent exactly one error and
    stopped. *)
Lemma execute_steps_outcome eid total sub steps :
  forall acc w tr w' r,
    execute_steps loaded_steps backend eid total sub steps acc w = (tr, w', r) ->
    count is_complete tr = 0%nat
    /\ ((exists srs, r = Ok (Some (acc ++ srs))
                     /\ map sr_step_name srs = steps
                     /\ count is_error tr = 0%nat
                     /\ (steps <> [] -> total <> 0%Z)
                     /\ (forall x, x ∈ steps -> is_Some (loaded_steps !! x)))
        \/ (r = Ok None /\ count is_error tr = 1%nat)).
Proof.
  induction steps as [|s steps IH]; intros acc w tr w' r E.
  - simpl in E. injection E as <- <- <-. split; [reflexivity|]. left.
    exists []. rewrite app_nil_r.
    split; [reflexivity|]. split; [reflexivity|]. split; [reflexivity|].
    split; [congruence|]. intros x Hx. inversion Hx.
  - rewrite execute_steps_cons in E.
    destruct (execute_step _ _ _ _ _ _ w) as [[tr1 w1] [sr|e]] eqn:E1;
      destruct (execute_step_counts _ _ _ _ _ _ _ _ E1) as (C1 & C2 & Hok).
    + destruct (execute_steps _ _ _ _ _ steps _ w1) as [[tr2 w2] r2] eqn:E2.
      injection E as <- <- <-.
      destruct (IH _ _ _ _ _ E2) as [D2 HIH].
      destruct (Hok sr eq_refl) as (Ht & Hreg & Hname).
      rewrite !count_app, C1, C2, D2. split; [reflexivity|].
      destruct HIH as [(srs & -> & Hnames & Herr & _ & Hregs)|[-> Herr]].
      * left. exists (sr :: srs). rewrite <- app_assoc. simpl.
        rewrite Hname, Hnames, Herr. repeat split; auto.
        intros x Hx. apply elem_of_cons in Hx as [->|Hx]; auto.
      * right. rewrite Herr. auto.
    + injection E as <- <- <-. rewrite !count_app, C1, C2. split; [reflexivity|].
      right. split; reflexivity.
Qed.

Lemma report_completion_run eid total sub srs w :
  total <> 0%Z ->
  report_completion backend eid total sub srs w
  = ([Sent (execution_complete eid
              (mkFinal (multiple_speaker_text_array (ctx w)) (output_files (ctx w))
                 (deref w (parameters (ctx w))) (ctx w) srs
                 (debug_chunks (ctx w)) (debug_chunk_help_text (ctx w))) sub);
      Sent (execution_progress (VStr eid) "Complete" (VInt total) (VInt total) sub)],
     w, Ok tt).
Proof.
  intros Ht. unfold report_completion, seq_run, reads, lift_task.
  unfold broadcast_execution_complete, emit. cbn [run id].
  rewrite run_progress, (progress_outcome_same total Ht). reflexivity.
Qed.

(** What the run sends when a step list without missing names is run. *)
Lemma impl_reports_once eid txts steps ofn sub params vcps ats w tr w' r :
  steps <> [] ->
  _execute_steps_impl loaded_steps backend pydantic_init eid txts steps ofn sub
    params vcps ats w = (tr, w', r) ->
  r = Ok tt /\ (count is_error tr + count is_complete tr = 1)%nat.
Proof.
  intros Hne. unfold _execute_steps_impl, try_run.
  destruct (Chunking.nonempty (filter _ steps)).
  { intros [= <- <- <-]. auto. }
  unfold seq_run at 1.
  destruct (prepare_context _ _ _ _ _ _ _ _ _ _ _ w) as [[tr0 w1] [total|e]] eqn:E0.
  2:{ intros [= <- <- <-]. rewrite (prepare_context_silent _ _ _ _ _ _ _ _ _ _ _ _ _ _ _ E0).
      auto. }
  rewrite (prepare_context_silent _ _ _ _ _ _ _ _ _ _ _ _ _ _ _ E0).
  unfold seq_run at 1.
  destruct (execute_steps _ _ _ _ _ steps [] w1) as [[tr1 w2] r1] eqn:E1.
  destruct (execute_steps_outcome _ _ _ _ _ _ _ _ _ E1)
    as [D1 [(srs & -> & _ & Herr & Ht & _)|[-> Herr]]].
  - rewrite report_completion_run by auto. simpl.
    intros [= <- <- <-]. rewrite !count_app, D1, Herr. auto.
  - simpl. intros [= <- <- <-]. rewrite !app_nil_r, D1, Herr. auto.
Qed.

(** X7. Whenever the endpoint accepts a request, the background task it
    starts ends normally, whatever the steps do, and has sent exactly one
    closing message: one error message or one completion message. *)
Theorem background_task_reports_once :
  forall (request : StepExecutionRequest) (eid eid' : string) (task : Run unit),
    execute_steps_background loaded_steps backend pydantic_init request eid
    = Ok (eid', task) ->
    forall w tr w' r,
      task w = (tr, w', r) ->
      r = Ok tt /\ (count is_error tr + count is_complete tr = 1)%nat.
Proof.
  intros request eid eid' task. unfold execute_steps_background.
  destruct (req_steps request) as [|s steps] eqn:Hsteps; [discriminate|].
  simpl. destruct (nonempty_opt (req_texts request)) as [txts|]; [|discriminate].
  intros [= <- <-] w tr w' r E.
  unfold execute_steps_async in E.
  eapply impl_reports_once; [|exact E]. discriminate.
Qed.

(** X8. When the context is prepared and every step of a non-empty list
    completes, the run sends one progress message per step, in order,
    invokes exactly those steps, then sends the completion message with one
    result per step and a last progress message named Complete; it sends no
    error message. *)
Theorem completed_run_reports_completion :
  forall (eid : string) (txts steps : list string) (ofn sub : string)
         (params : option (gmap string PyVal))
         (vcps ats : option (list string)) (w0 w1 w2 : World) (total : Z)
         (tr0 tr1 : list Obs) (srs : list StepResult),
    steps <> [] ->
    prepare_context loaded_steps backend pydantic_init eid txts steps ofn sub
      params vcps ats w0 = (tr0, w1, Ok total) ->
    execute_steps loaded_steps backend eid total sub steps [] w1
    = (tr1, w2, Ok (Some srs)) ->
    _execute_steps_impl loaded_steps backend pydantic_init eid txts steps ofn sub
      params vcps ats w0
    = (tr1 ++ [Sent (execution_complete eid
                 (mkFinal (multiple_speaker_text_array (ctx w2))
                    (output_files (ctx w2)) (deref w2 (parameters (ctx w2)))
                    (ctx w2) srs (debug_chunks (ctx w2))
                    (debug_chunk_help_text (ctx w2))) sub);
               Sent (execution_progress (VStr eid) "Complete" (VInt total)
                       (VInt total) sub)],
       w2, Ok tt)
    /\ top_progress_names tr1 = steps /\ invoked tr1 = steps
    /\ map sr_step_name srs = steps
    /\ count is_error tr1 = 0%nat /\ count is_complete tr1 = 0%nat.
Proof.
  intros eid txts steps ofn sub params vcps ats w0 w1 w2 total tr0 tr1 srs
    Hne Hprep Hrun.
  destruct (execute_steps_completed _ _ _ _ _ _ _ _ _ _ _ Hrun) as (H1 & H2 & H3 & H4).
  destruct (execute_steps_outcome _ _ _ _ _ _ _ _ _ Hrun)
    as [_ [(srs' & Hsrs & Hnames & _ & Ht & Hreg)|[? _]]]; [|discriminate].
  simpl in Hsrs. injection Hsrs as ->.
  repeat split; auto.
  assert (tr0 = []) as -> by (eapply prepare_context_silent; eauto).
  unfold _execute_steps_impl. apply try_run_ok.
  rewrite (all_registered loaded_steps steps Hreg).
  change (Chunking.nonempty (@nil string)) with false. cbv iota.
  apply (seq_run_ok _ _ w0 [] w1 total _ _ _ Hprep).
  apply (seq_run_ok _ _ w1 tr1 w2 _ _ _ _ Hrun).
  apply report_completion_run. auto.
Qed.

End Outcome.

(** *** The prepared context *)

Section Preparation.
Variable loaded_steps : gmap string StepInfo.
Variable backend : ServiceCall -> result Response.
Variable pydantic_init :
  list string -> gmap string PyVal -> option (list string) ->
  option (list string) -> option string -> string -> string ->
  result StepContext.

Lemma deref_alloc d w : deref (snd (alloc d w)) (fst (alloc d w)) = d.
Proof.
  unfold alloc, deref. simpl. rewrite lookup_insert_eq. reflexivity.
Qed.

Lemma deref_store l key v w :
  deref (store l key v w) l = <[key := v]> (deref w l).
Proof. unfold store, deref. simpl. rewrite lookup_insert_eq. reflexivity. Qed.

Lemma from_request_parameters_run txts sub ofn params vcps ats eid w :
  from_request_parameters backend pydantic_init txts sub ofn params vcps ats eid w
  = match pydantic_init txts (typed_parameters params) (nonempty_opt vcps)
            (nonempty_opt ats) (nonempty_str eid) sub ofn with
    | Ok c =>
        ([], mkWorld (with_parameters (fresh (dom (heap w))) c)
               (<[fresh (dom (heap w)) := untyped_parameters params]> (heap w))
               (files w) (next_id w), Ok tt)
    | Err e => ([], w, Err e)
    end.
Proof.
  unfold from_request_parameters, typed_parameters, untyped_parameters,
    seq_run, of_result.
  destruct (pydantic_init _ _ _ _ _ _ _) as [c|e]; reflexivity.
Qed.

Lemma silent_estimate steps txts vcps ats :
  silent (estimate_total_steps steps txts vcps ats).
Proof.
  unfold estimate_total_steps.
  repeat first
    [ apply silent_ret | apply silent_of_result | apply silent_reads
    | apply silent_seq; [|intros ?] ].
Qed.

Lemma seq_run_inv {A B} (m : Run A) (f : A -> Run B) w tr w' b :
  seq_run m f w = (tr, w', Ok b) ->
  exists tr1 w1 a tr2,
    m w = (tr1, w1, Ok a) /\ f a w1 = (tr2, w', Ok b) /\ tr = tr1 ++ tr2.
Proof.
  unfold seq_run. destruct (m w) as [[tr1 w1] [a|e]]; [|discriminate].
  destruct (f a w1) as [[tr2 w2] r2] eqn:E. intros [= <- <- ->].
  exists tr1, w1, a, tr2. auto.
Qed.

(** The estimate reads the world and leaves it as it is. *)
Lemma estimate_total_steps_run steps txts vcps ats w tr w' total :
  estimate_total_steps steps txts vcps ats w = (tr, w', Ok total) ->
  w' = w
  /\ exists vcs vts chunks,
       vcps = Some vcs /\ ats = Some vts
       /\ Chunking.chunk_sentences txts vcs vts
            (Generation.or_20 (approximate_min_chunk_length (ctx w))) = Ok chunks
       /\ total = (Z.of_nat (length steps)
                   + Z.of_nat (length chunks) * num_candidates (ctx w))%Z.
Proof.
  unfold estimate_total_steps, seq_run, reads, of_result, ret. simpl.
  destruct vcps as [vcs|]; simpl; [|discriminate].
  destruct ats as [vts|]; simpl; [|discriminate].
  destruct (Chunking.chunk_sentences _ _ _ _) as [chunks|] eqn:E; simpl;
    [|discriminate].
  intros [= <- <- <-]. split; [reflexivity|]. exists vcs, vts, chunks. auto.
Qed.

(** The world after a successful preparation. *)
Lemma prepare_context_run eid txts steps ofn sub params vcps ats w tr w' total :
  prepare_context loaded_steps backend pydantic_init eid txts steps ofn sub
    params vcps ats w = (tr, w', Ok total) ->
  exists c wb,
    pydantic_init txts (typed_parameters params) (nonempty_opt vcps)
      (nonempty_opt ats) (nonempty_str (Some eid)) sub ofn = Ok c
    /\ with_parameters 0 (ctx wb) = with_parameters 0
         (match steps with
          | [] => c
          | first :: _ =>
              with_is_multi_speaker
                (default false
                   (info ← loaded_steps !! first;
                    Some (truthy (dict_get (metadata info) "multi-speaker"
                                    (VBool false))))) c
          end)
    /\ estimate_total_steps steps txts vcps ats wb = ([], wb, Ok total)
    /\ ctx w' = ctx wb
    /\ parameters (ctx w') = fresh (dom (heap w))
    /\ files w' = files w /\ next_id w' = next_id w
    /\ heap w'
       = <[fresh (dom (heap w))
           := <["total_steps" := VInt total]>
                (<["execution_id" := VStr eid]>
                   (<["step_index" := VInt 0]> (untyped_parameters params)))]>
           (heap w).
Proof.
  unfold prepare_context. intros H.
  apply seq_run_inv in H as (tr1 & wa & [] & tr2 & Ha & H & ->).
  rewrite from_request_parameters_run in Ha.
  destruct (pydantic_init _ _ _ _ _ _ _) as [c|] eqn:Hc; [|discriminate].
  injection Ha as <- <-.
  apply seq_run_inv in H as (tr3 & wb & [] & tr4 & Hb & H & ->).
  apply seq_run_inv in H as (tr5 & wc & total' & tr6 & Hest & H & ->).
  pose proof (silent_estimate _ _ _ _ _ _ _ _ Hest) as ->.
  destruct (estimate_total_steps_run _ _ _ _ _ _ _ _ Hest) as [-> _].
  unfold seq_run, reads, lift_task, dict_store, modify, ret in H. simpl in H.
  injection H as <- <- <-.
  exists c, wb. split; [reflexivity|].
  assert (Hwb : with_parameters 0 (ctx wb)
                = with_parameters 0
                    match steps with
                    | [] => c
                    | first :: _ =>
                        with_is_multi_speaker
                          (default false
                             (info ← loaded_steps !! first;
                              Some (truthy (dict_get (metadata info) "multi-speaker"
                                              (VBool false))))) c
                    end
                /\ parameters (ctx wb) = fresh (dom (heap w))
                /\ heap wb = <[fresh (dom (heap w)) := untyped_parameters params]> (heap w)
                /\ files wb = files w /\ next_id wb = next_id w).
  { destruct steps as [|first rest].
    - injection Hb as _ <-. simpl. auto.
    - unfold seq_run, of_result, update in Hb.
      destruct (loaded_steps !! first) as [info|]; [|discriminate].
      injection Hb as _ <-. simpl. auto. }
  destruct Hwb as (H1 & H2 & H3 & H4 & H5).
  split; [exact H1|]. split; [exact Hest|].
  unfold store, deref. simpl. rewrite H2, H3, H4, H5.
  repeat split; auto.
  rewrite !lookup_insert_eq. simpl. rewrite !insert_insert_eq. reflexivity.
Qed.

End Preparation.

Section Prepared.
Variable loaded_steps : gmap string StepInfo.
Variable backend : ServiceCall -> result Response.
Variable pydantic_init :
  list string -> gmap string PyVal -> option (list string) ->
  option (list string) -> option string -> string -> string ->
  result StepContext.


(** X10. The preparation succeeds only when the request carries a voice
    list and a transcription list as long as the text list; the total it
    returns is the number of steps plus, for every candidate, the number of
    chunks of the request's texts under the minimum of the prepared context
    (with [0] read as [20]). *)
Theorem prepared_total_steps :
  forall (eid : string) (txts steps : list string) (ofn sub : string)
         (params : option (gmap string PyVal))
         (vcps ats : option (list string)) (w w' : World) (tr : list Obs)
         (total : Z),
    prepare_context loaded_steps backend pydantic_init eid txts steps ofn sub
      params vcps ats w = (tr, w', Ok total) ->
    exists vcs vts chunks,
      vcps = Some vcs /\ ats = Some vts
      /\ length vcs = length txts /\ length vts = length txts
      /\ Chunking.chunk_sentences txts vcs vts
           (Generation.or_20 (approximate_min_chunk_length (ctx w'))) = Ok chunks
      /\ total = (Z.of_nat (length steps)
                  + Z.of_nat (length chunks) * num_candidates (ctx w'))%Z.
Proof.
  intros eid txts steps ofn sub params vcps ats w w' tr total H.
  destruct (prepare_context_run _ _ _ _ _ _ _ _ _ _ _ _ _ _ _ H)
    as (c & wb & _ & _ & Hest & Hctx & _).
  destruct (estimate_total_steps_run _ _ _ _ _ _ _ _ Hest)
    as (_ & vcs & vts & chunks & -> & -> & Hchunks & ->).
  rewrite Hctx. exists vcs, vts, chunks.
  assert (Hlen : length vcs = length txts /\ length vts = length txts).
  { destruct (Nat.eq_dec (length txts) (length vcs)) as [E1|N1];
      [destruct (Nat.eq_dec (length txts) (length vts)) as [E2|N2]|]; [auto|..].
    - unfold Chunking.chunk_sentences in Hchunks.
      rewrite (ChunkingFacts.lengths_rejected txts vcs vts) in Hchunks by auto.
      discriminate.
    - unfold Chunking.chunk_sentences in Hchunks.
      rewrite (ChunkingFacts.lengths_rejected txts vcs vts) in Hchunks by auto.
      discriminate. }
  destruct Hlen. auto 10.
Qed.

(** X11. A request whose voice list or transcription list is not as long
    as its text list is not refused by a validation of its own: once the
    context is built, the estimate of the total raises inside the background
    task, which sends one error message and runs no step. *)
Theorem length_mismatch_reported_by_background_task :
  forall (eid : string) (txts steps : list string) (ofn sub : string)
         (params : option (gmap string PyVal)) (vcs vts : list string)
         (w : World) (c : StepContext),
    (forall x, x ∈ steps -> is_Some (loaded_steps !! x)) ->
    pydantic_init txts (typed_parameters params) (nonempty_opt (Some vcs))
      (nonempty_opt (Some vts)) (nonempty_str (Some eid)) sub ofn = Ok c ->
    length txts <> length vcs \/ length txts <> length vts ->
    exists w',
      _execute_steps_impl loaded_steps backend pydantic_init eid txts steps ofn
        sub params (Some vcs) (Some vts) w
      = ([Sent (execution_error eid
                  "Unexpected error in background execution: All input lists must have the same length"
                  sub)],
         w', Ok tt).
Proof.
  intros eid txts steps ofn sub params vcs vts w c Hreg Hc Hlen.
  assert (Hprep : exists wb,
             prepare_context loaded_steps backend pydantic_init eid txts steps
               ofn sub params (Some vcs) (Some vts) w
             = ([], wb, Err (ValueError "All input lists must have the same length"))).
  { unfold prepare_context. unfold seq_run at 1.
    rewrite from_request_parameters_run, Hc.
    assert (Hest : forall wb,
               estimate_total_steps steps txts (Some vcs) (Some vts) wb
               = ([], wb, Err (ValueError "All input lists must have the same length"))).
    { pose proof (ChunkingFacts.lengths_rejected txts vcs vts Hlen) as Hrej.
      intros wb. unfold estimate_total_steps, seq_run, reads, of_result. simpl.
      unfold Chunking.chunk_sentences. rewrite Hrej. reflexivity. }
    destruct steps as [|first rest].
    - unfold seq_run, ret. rewrite Hest. eauto.
    - destruct (Hreg first) as [info Hinfo]; [left|].
      unfold seq_run, of_result, update. rewrite Hinfo, Hest. eauto. }
  destruct Hprep as [wb Hprep]. exists wb.
  unfold _execute_steps_impl, try_run.
  rewrite (all_registered loaded_steps steps Hreg).
  change (Chunking.nonempty (@nil string)) with false. cbv iota.
  unfold seq_run at 1. rewrite Hprep. reflexivity.
Qed.

End Prepared.

Lemma background_task_reports_once_witness :
  let request := mkRequest (Some ["Hello."]) ["s1"; "s2"; "s3"; "s4"; "s5"]
                           ["v.wav"] ["t"] (Some ∅) "sub" "out" in
  exists task tr w',
    execute_steps_background demo_registry demo_backend demo_pydantic request
      "id-1" = Ok ("id-1", task)
    /\ task blank_world = (tr, w', Ok tt)
    /\ (count is_error tr + count is_complete tr = 1)%nat.
Proof.
  intros request.
  pose (task := execute_steps_async demo_registry demo_backend demo_pydantic
                  "id-1" ["Hello."] (req_steps request) "out" "sub" (Some ∅)
                  (Some ["v.wav"]) (Some ["t"])).
  destruct (task blank_world) as [[tr w'] r] eqn:E.
  destruct (background_task_reports_once demo_registry demo_backend
              demo_pydantic request "id-1" "id-1" task eq_refl
              blank_world tr w' r E) as [-> H].
  exists task, tr, w'. auto.
Defined.

Lemma completed_run_reports_completion_witness :
  exists tr1 w2 srs,
    _execute_steps_impl demo_registry demo_backend demo_pydantic "run-1"
      ["Hello."] ["s1"; "s2"; "s4"] "out" "sub" None (Some ["v.wav"])
      (Some ["t"]) blank_world
    = (tr1 ++ [Sent (execution_complete "run-1"
                 (mkFinal (multiple_speaker_text_array (ctx w2))
                    (output_files (ctx w2)) (deref w2 (parameters (ctx w2)))
                    (ctx w2) srs (debug_chunks (ctx w2))
                    (debug_chunk_help_text (ctx w2))) "sub");
               Sent (execution_progress (VStr "run-1") "Complete" (VInt 4)
                       (VInt 4) "sub")],
       w2, Ok tt)
    /\ top_progress_names tr1 = ["s1"; "s2"; "s4"]
    /\ invoked tr1 = ["s1"; "s2"; "s4"]
    /\ map sr_step_name srs = ["s1"; "s2"; "s4"]
    /\ count is_error tr1 = 0%nat /\ count is_complete tr1 = 0%nat.
Proof.
  pose (p := prepare_context demo_registry demo_backend demo_pydantic "run-1"
               ["Hello."] ["s1"; "s2"; "s4"] "out" "sub" None (Some ["v.wav"])
               (Some ["t"]) blank_world).
  assert (Hp : snd p = Ok 4%Z) by (vm_compute; reflexivity).
  assert (E0 : p = (fst (fst p), snd (fst p), Ok 4%Z)).
  { rewrite <- Hp. destruct p as [[a b] c]. reflexivity. }
  assert (Hq : match snd (execute_steps demo_registry demo_backend "run-1" 4
                            "sub" ["s1"; "s2"; "s4"] [] (snd (fst p))) with
               | Ok (Some _) => True
               | _ => False
               end) by (vm_compute; exact I).
  destruct (execute_steps demo_registry demo_backend "run-1" 4 "sub"
              ["s1"; "s2"; "s4"] [] (snd (fst p)))
    as [[tr1 w2] [[srs|]|e]] eqn:E1; try contradiction.
  exists tr1, w2, srs.
  apply (completed_run_reports_completion demo_registry demo_backend
           demo_pydantic "run-1" ["Hello."] ["s1"; "s2"; "s4"] "out" "sub"
           None (Some ["v.wav"]) (Some ["t"]) blank_world (snd (fst p)) w2 4
           (fst (fst p)) tr1 srs);
    [discriminate|exact E0|exact E1].
Defined.


Lemma prepared_total_steps_witness :
  exists w' vcs vts chunks,
    prepare_context demo_registry demo_backend demo_pydantic "run-1"
      ["One two three. Four five six."] ["s1"; "s2"] "out" "sub" None
      (Some ["v.wav"]) (Some ["t"]) blank_world = ([], w', Ok 3%Z)
    /\ Some ["v.wav"] = Some vcs /\ Some ["t"] = Some vts
    /\ length vcs = 1%nat /\ length vts = 1%nat
    /\ Chunking.chunk_sentences ["One two three. Four five six."] vcs vts
         (Generation.or_20 (approximate_min_chunk_length (ctx w'))) = Ok chunks
    /\ 3%Z = (Z.of_nat 2 + Z.of_nat (length chunks) * num_candidates (ctx w'))%Z.
Proof.
  assert (Hp : let p := prepare_context demo_registry demo_backend
                          demo_pydantic "run-1"
                          ["One two three. Four five six."] ["s1"; "s2"] "out"
                          "sub" None (Some ["v.wav"]) (Some ["t"]) blank_world in
               fst (fst p) = [] /\ snd p = Ok 3%Z)
    by (vm_compute; auto).
  destruct (prepare_context demo_registry demo_backend demo_pydantic "run-1"
              ["One two three. Four five six."] ["s1"; "s2"] "out" "sub" None
              (Some ["v.wav"]) (Some ["t"]) blank_world)
    as [[tr w'] r] eqn:E.
  simpl in Hp. destruct Hp as [-> ->].
  destruct (prepared_total_steps demo_registry demo_backend demo_pydantic
              "run-1" ["One two three. Four five six."] ["s1"; "s2"] "out"
              "sub" None (Some ["v.wav"]) (Some ["t"]) blank_world w' [] 3 E)
    as (vcs & vts & chunks & H1 & H2 & H3 & H4 & H5 & H6).
  exists w', vcs, vts, chunks. auto 10.
Defined.

Lemma length_mismatch_reported_by_background_task_witness :
  exists w',
    _execute_steps_impl demo_registry demo_backend demo_pydantic "run-1"
      ["Hello."; "Bye."] ["s1"; "s2"] "out" "sub" None (Some ["v.wav"])
      (Some ["t"; "u"]) blank_world
    = ([Sent (execution_error "run-1"
                "Unexpected error in background execution: All input lists must have the same length"
                "sub")],
       w', Ok tt).
Proof.
  eapply (length_mismatch_reported_by_background_task demo_registry
            demo_backend demo_pydantic "run-1" ["Hello."; "Bye."] ["s1"; "s2"]
            "out" "sub" None ["v.wav"] ["t"; "u"] blank_world).
  - intros x Hx. rewrite !elem_of_cons in Hx.
    destruct Hx as [->|[->|Hx]]; [vm_compute; eauto..|inversion Hx].
  - reflexivity.
  - left. simpl. lia.
Defined.

End RouterFacts.

(** ** Invariants of suspendable computations *)

Module EffectsFacts.
Import Ctx Effects EffectsSpec.

Lemma Sat_bind {A B} inv M (Q : A -> Prop) (Q' : B -> Prop) t (f : A -> Task B) :
  Sat inv M Q t -> (forall a, Q a -> Sat inv M Q' (f a)) ->
  Sat inv M Q' (bind t f).
Proof.
  intros Ht Hf. induction Ht; simpl; try (constructor; auto; fail).
  apply Hf. assumption.
Qed.

Lemma Sat_weaken {A} inv M (Q Q' : A -> Prop) t :
  Sat inv M Q t -> (forall a, Q a -> Q' a) -> Sat inv M Q' t.
Proof. intros Ht HQ. induction Ht; constructor; auto. Qed.

Section Soundness.
Context {A : Type}.
Variable backend : ServiceCall -> result Response.
Variable connected : bool.
Variable inv : World -> Prop.
Variable M : Obs -> Prop.
Variable Q : A -> Prop.
Hypothesis inv_deliver : forall r w, inv w -> inv (deliver r w).

Lemma run_sat (t : Task A) :
  Sat inv M Q t ->
  forall w tr w' r,
    inv w -> run backend t w = (tr, w', r) ->
    Forall M tr /\ inv w' /\ good_result Q r.
Proof.
  induction 1 as [a Ha|e|k Hk IH|w0 k Hw0 Hk IH|e k He Hk IH|o k Ho Hk IH
                 |i c k Hc Hk IH];
    intros w tr w' r Hw E; simpl in E.
  - injection E as <- <- <-. repeat split; auto. intros a' [= <-]. exact Ha.
  - injection E as <- <- <-. repeat split; auto. intros a' [=].
  - exact (IH w Hw _ _ _ _ Hw E).
  - exact (IH _ _ _ _ Hw0 E).
  - destruct (run backend k w) as [[tr1 w1] r1] eqn:E1. injection E as <- <- <-.
    destruct (IH _ _ _ _ Hw E1) as (H1 & H2 & H3). auto.
  - destruct (run backend k w) as [[tr1 w1] r1] eqn:E1. injection E as <- <- <-.
    destruct (IH _ _ _ _ Hw E1) as (H1 & H2 & H3). auto.
  - destruct (run backend (k (backend c)) (deliver (backend c) w))
      as [[tr1 w1] r1] eqn:E1.
    injection E as <- <- <-.
    destruct (IH _ _ _ _ _ (inv_deliver _ _ Hw) E1) as (H1 & H2 & H3). auto.
Qed.

Lemma advance_sat (t : Task A) :
  Sat inv M Q t ->
  forall w tr w' s,
    inv w -> advance connected t w = (tr, w', s) ->
    Forall M tr /\ inv w' /\ SatS inv M Q s.
Proof.
  induction 1 as [a Ha|e|k Hk IH|w0 k Hw0 Hk IH|e k He Hk IH|o k Ho Hk IH
                 |i c k Hc Hk IH];
    intros w tr w' s Hw E; simpl in E.
  - injection E as <- <- <-. repeat split; auto. intros a' [= <-]. exact Ha.
  - injection E as <- <- <-. repeat split; auto. intros a' [=].
  - exact (IH w Hw _ _ _ _ Hw E).
  - exact (IH _ _ _ _ Hw0 E).
  - destruct connected.
    + injection E as <- <- <-. repeat split; auto.
    + destruct (advance false k w) as [[tr1 w1] s1] eqn:E1.
      injection E as <- <- <-.
      destruct (IH _ _ _ _ Hw E1) as (H1 & H2 & H3). auto.
  - destruct (advance connected k w) as [[tr1 w1] s1] eqn:E1.
    injection E as <- <- <-.
    destruct (IH _ _ _ _ Hw E1) as (H1 & H2 & H3). auto.
  - injection E as <- <- <-. repeat split; auto.
Qed.

Lemma resume_sat (s : Suspended A) w tr w' s' :
  SatS inv M Q s -> inv w -> resume backend connected s w = (tr, w', s') ->
  Forall M tr /\ inv w' /\ SatS inv M Q s'.
Proof.
  intros Hs Hw E. destruct s as [r|t|c k]; simpl in *.
  - injection E as <- <- <-. repeat split; auto.
  - exact (advance_sat t Hs _ _ _ _ Hw E).
  - exact (advance_sat _ (Hs _) _ _ _ _ (inv_deliver _ _ Hw) E).
Qed.

Lemma finish_task_sat (s : Suspended A) w tr w' r :
  SatS inv M Q s -> inv w -> finish_task backend s w = (tr, w', r) ->
  Forall M tr /\ inv w' /\ good_result Q r.
Proof.
  intros Hs Hw E. destruct s as [r0|t|c k]; simpl in *.
  - injection E as <- <- <-. repeat split; auto.
  - exact (run_sat t Hs _ _ _ _ Hw E).
  - exact (run_sat _ (Hs _) _ _ _ _ (inv_deliver _ _ Hw) E).
Qed.

Lemma turns_sat (schedule : list nat) :
  forall (tasks : list (Suspended A)) w tr w' tasks',
    Forall (SatS inv M Q) tasks -> inv w ->
    turns backend connected schedule tasks w = (tr, w', tasks') ->
    Forall M tr /\ inv w' /\ Forall (SatS inv M Q) tasks'.
Proof.
  induction schedule as [|i schedule IH]; intros tasks w tr w' tasks' Ht Hw E;
    simpl in E.
  - injection E as <- <- <-. auto.
  - destruct (tasks !! i) as [s|] eqn:Hi; [|eapply IH; eauto].
    destruct (resume backend connected s w) as [[tr1 w1] s1] eqn:E1.
    destruct (turns backend connected schedule (<[i:=s1]> tasks) w1)
      as [[tr2 w2] tasks2] eqn:E2.
    injection E as <- <- <-.
    assert (Hs : SatS inv M Q s) by (eapply Forall_lookup_1; eauto).
    destruct (resume_sat _ _ _ _ _ Hs Hw E1) as (H1 & H2 & H3).
    destruct (IH _ _ _ _ _ (Forall_insert _ _ _ _ Ht H3) H2 E2) as (H4 & H5 & H6).
    rewrite Forall_app. auto.
Qed.

Lemma drain_sat (tasks : list (Suspended A)) :
  forall w tr w' rs,
    Forall (SatS inv M Q) tasks -> inv w ->
    drain backend tasks w = (tr, w', rs) ->
    Forall M tr /\ inv w' /\ Forall (good_result Q) rs.
Proof.
  induction tasks as [|s tasks IH]; intros w tr w' rs Ht Hw E; simpl in E.
  - injection E as <- <- <-. auto.
  - destruct (finish_task backend s w) as [[tr1 w1] r1] eqn:E1.
    destruct (drain backend tasks w1) as [[tr2 w2] rs2] eqn:E2.
    injection E as <- <- <-.
    apply Forall_cons in Ht as [Hs Ht].
    destruct (finish_task_sat _ _ _ _ _ Hs Hw E1) as (H1 & H2 & H3).
    destruct (IH _ _ _ _ Ht H2 E2) as (H4 & H5 & H6).
    rewrite Forall_app. auto.
Qed.

Lemma gather_sat (schedule : list nat) (tasks : list (Task A)) w tr w' rs :
  Forall (Sat inv M Q) tasks -> inv w ->
  gather backend connected schedule tasks w = (tr, w', rs) ->
  Forall M tr /\ inv w' /\ Forall (good_result Q) rs.
Proof.
  intros Ht Hw E. unfold gather in E.
  destruct (turns backend connected schedule (map Ready tasks) w)
    as [[tr1 w1] ss] eqn:E1.
  destruct (drain backend ss w1) as [[tr2 w2] rs2] eqn:E2.
  injection E as <- <- <-.
  assert (Hss : Forall (SatS inv M Q) (map Ready tasks)).
  { rewrite Forall_map. exact Ht. }
  destruct (turns_sat _ _ _ _ _ _ Hss Hw E1) as (H1 & H2 & H3).
  destruct (drain_sat _ _ _ _ _ H3 H2 E2) as (H4 & H5 & H6).
  rewrite Forall_app. auto.
Qed.

End Soundness.

Lemma run_bind {A B} (backend : ServiceCall -> result Response)
    (t : Task A) (f : A -> Task B) :
  forall w,
    run backend (bind t f) w
    = let '(tr, w1, r) := run backend t w in
      match r with
      | Ok a => let '(tr', w2, r') := run backend (f a) w1 in (tr ++ tr', w2, r')
      | Err e => (tr, w1, Err e)
      end.
Proof.
  induction t as [a|e|k IH|w0 k IH|e k IH|o k IH|i c k IH]; intros w; simpl.
  - destruct (run backend (f a) w) as [[tr' w2] r']. reflexivity.
  - reflexivity.
  - apply IH.
  - apply IH.
  - rewrite IH. destruct (run backend k w) as [[tr w1] [a|e']].
    + destruct (run backend (f a) w1) as [[tr' w2] r']. reflexivity.
    + reflexivity.
  - rewrite IH. destruct (run backend k w) as [[tr w1] [a|e']].
    + destruct (run backend (f a) w1) as [[tr' w2] r']. reflexivity.
    + reflexivity.
  - rewrite IH.
    destruct (run backend (k (backend c)) (deliver (backend c) w))
      as [[tr w1] [a|e']].
    + destruct (run backend (f a) w1) as [[tr' w2] r']. reflexivity.
    + reflexivity.
Qed.

Section RunRules.
Context {A : Type}.
Variable backend : ServiceCall -> result Response.
Variable M : Obs -> Prop.

Lemma Runs_Return (a : A) w : Runs backend M (Return a) w.
Proof. intros tr w' r [= <- _ _]. constructor. Qed.

Lemma Runs_Raise e w : Runs backend M (@Raise A e) w.
Proof. intros tr w' r [= <- _ _]. constructor. Qed.

Lemma Runs_Get (k : World -> Task A) w :
  Runs backend M (k w) w -> Runs backend M (Get k) w.
Proof. intros H tr w' r E. exact (H _ _ _ E). Qed.

Lemma Runs_Put w0 (k : Task A) w :
  Runs backend M k w0 -> Runs backend M (Put w0 k) w.
Proof. intros H tr w' r E. exact (H _ _ _ E). Qed.

Lemma Runs_Mark o (k : Task A) w :
  M o -> Runs backend M k w -> Runs backend M (Mark o k) w.
Proof.
  intros Ho H tr w' r E. simpl in E.
  destruct (run backend k w) as [[tr1 w1] r1] eqn:E1. injection E as <- _ _.
  constructor; [exact Ho|]. exact (H _ _ _ E1).
Qed.

(** A part that keeps an invariant, followed by any continuation. *)
Lemma Runs_bind {B} inv (Q : B -> Prop) (t : Task B) (f : B -> Task A) w :
  (forall r w, inv w -> inv (deliver r w)) ->
  Sat inv M Q t -> inv w ->
  (forall b w', Q b -> inv w' -> Runs backend M (f b) w') ->
  Runs backend M (bind t f) w.
Proof.
  intros Hd Ht Hw Hf tr w' r E. rewrite run_bind in E.
  destruct (run backend t w) as [[tr1 w1] r1] eqn:E1.
  destruct (run_sat backend inv M Q Hd t Ht _ _ _ _ Hw E1) as (H1 & H2 & H3).
  destruct r1 as [b|e].
  - destruct (run backend (f b) w1) as [[tr2 w2] r2] eqn:E2.
    injection E as <- _ _. rewrite Forall_app. split; [exact H1|].
    exact (Hf b w1 (H3 b eq_refl) H2 _ _ _ E2).
  - injection E as <- _ _. exact H1.
Qed.

Lemma Runs_Sat inv (Q : A -> Prop) (t : Task A) w :
  (forall r w, inv w -> inv (deliver r w)) ->
  Sat inv M Q t -> inv w -> Runs backend M t w.
Proof.
  intros Hd Ht Hw tr w' r E.
  exact (proj1 (run_sat backend inv M Q Hd t Ht _ _ _ _ Hw E)).
Qed.

End RunRules.

End EffectsFacts.

(** ** Properties of candidate generation *)

Module GenerationFacts.
Import Ctx Effects Generation EffectsSpec GenerationSpec Scenarios.

(** *** Failure of a candidate in the two modes *)

Section Failure.
Variable b64encode : string -> string.
Variable b64decode : string -> result string.
Variable env_TESTING_UI env_TESTING : bool.
Variable backend : ServiceCall -> result Response.
Variable connected : bool.

(** One after the other: the exception of a candidate is the outcome of
    the whole loop, and no later candidate is run. *)
Lemma sequential_stops_at_first_failure model txts vps ats idx rest
    candidates dbg help w tr w1 e :
  run backend (generate_single_candidate_via_service b64encode env_TESTING_UI
                 env_TESTING model txts vps ats idx) w = (tr, w1, Err e) ->
  generate_sequentially b64encode env_TESTING_UI env_TESTING backend model txts
    vps ats (idx :: rest) candidates dbg help w = (tr, w1, Err e).
Proof. intros H. simpl. rewrite H. reflexivity. Qed.

(** In parallel: the candidates kept are those whose task succeeded. *)
Lemma collect_successful_survivors rs :
  forall candidates dbg help,
    fst (fst (collect_successful rs candidates dbg help))
    = candidates ++ survivors rs.
Proof.
  induction rs as [|[[[path chunks] help_text]|e] rs IH];
    intros candidates dbg help; simpl.
  - rewrite app_nil_r. reflexivity.
  - rewrite IH, <- app_assoc. reflexivity.
  - apply IH.
Qed.

End Failure.

(** C1. The first of two candidates fails at the service.  One after the
    other: the exception leaves the loop, the second candidate is never
    tried and the step fails.  In parallel, same services: the second
    candidate is generated and the step succeeds with it. *)
Theorem sequential_failure_aborts_generation :
  (let '(tr, w, r) := demo_generate (fails_on_seed 100) [] (demo_world false 3) in
   r = Err (Exception "HTTP 500: generation failed")
   /\ requesting_candidates tr = [0%nat]
   /\ audio_candidates (ctx w) = [])
  /\ (let '(tr, w, r) := demo_generate (fails_on_seed 100) [0; 1; 0; 1; 0; 1]%nat
                           (demo_world true 3) in
      r = Ok tt
      /\ requesting_candidates tr = [0; 1; 1]%nat
      /\ length (audio_candidates (ctx w)) = 1%nat).
Proof. vm_compute. auto 10. Qed.

(** C9. Two candidates in parallel, two chunks each, no websocket client,
    answers arriving in the order of the requests: the second request of
    candidate 0 is built after candidate 1 has replaced the parameters of
    the shared context, and carries seed 101 instead of 100.  One after the
    other, each candidate's requests carry its own seed. *)
Theorem parallel_candidates_share_last_seed :
  (let '(tr, _, _) := demo_generate healthy [0; 1; 0; 1; 0; 1]%nat
                        (demo_world true 3) in
   requested_seeds tr
   = [(0%nat, Some (VInt 100)); (1%nat, Some (VInt 101));
      (0%nat, Some (VInt 101)); (1%nat, Some (VInt 101))])
  /\ (let '(tr, _, _) := demo_generate healthy [] (demo_world false 3) in
      requested_seeds tr
      = [(0%nat, Some (VInt 100)); (0%nat, Some (VInt 100));
         (1%nat, Some (VInt 101)); (1%nat, Some (VInt 101))]).
Proof. vm_compute. auto. Qed.

(** With a configured minimum of 0 words the candidates chunk with 20:
    not every chunking uses the configured minimum.  Each candidate calls
    the chunker itself, and gets one chunk where a minimum of 0 gives two. *)
Lemma zero_minimum_is_replaced :
  let w := demo_world false 0 in
  let tr := fst (fst (demo_generate healthy [] w)) in
  ~ (forall i m cs, Chunked i m cs ∈ tr ->
                    m = approximate_min_chunk_length (ctx w))
  /\ chunk_marks tr = [(0%nat, 20%Z, 1%nat); (1%nat, 20%Z, 1%nat)]
  /\ (length <$> match Chunking.chunk_sentences [demo_text] ["v.wav"] ["t"] 0 with
                 | Ok cs => Some cs
                 | Err _ => None
                 end) = Some 2%nat.
Proof.
  intros w tr.
  assert (Hm : chunk_marks tr = [(0%nat, 20%Z, 1%nat); (1%nat, 20%Z, 1%nat)])
    by (vm_compute; reflexivity).
  clearbody tr.
  split; [|split; [exact Hm|vm_compute; reflexivity]].
  intros H.
  assert (Hin : (0%nat, 20%Z, 1%nat) ∈ chunk_marks tr)
    by (rewrite Hm; apply list_elem_of_here).
  apply list_elem_of_omap in Hin as (o & Ho & Hsome).
  destruct o; try discriminate. injection Hsome as -> -> _.
  specialize (H _ _ _ Ho). discriminate.
Qed.

(** *** Every candidate chunks the same inputs *)

Section ChunkInvariance.
Import EffectsFacts.
Variable b64encode : string -> string.
Variable b64decode : string -> result string.
Variable env_TESTING_UI env_TESTING : bool.
Variable backend : ServiceCall -> result Response.
Variable connected : bool.
Variable c0 : StepContext.
Variable txts ats : list string.

Local Abbreviation keeps_config := (GenerationSpec.keeps_config c0).
Local Abbreviation chunked_alike :=
  (GenerationSpec.chunked_alike b64encode env_TESTING c0 txts ats).

Lemma keeps_config_deliver r w : keeps_config w -> keeps_config (deliver r w).
Proof. destruct r; auto. Qed.

Lemma increment_ctx l k w w' : increment l k w = Ok w' -> ctx w' = ctx w.
Proof.
  unfold increment. destruct (deref w l !! k) as [[]|]; intros [= <-]; reflexivity.
Qed.

Lemma same_config_with_parameters l c : same_config (with_parameters l c) c.
Proof. reflexivity. Qed.

Ltac keep :=
  match goal with
  | H : increment _ _ _ = Ok ?w |- keeps_config ?w =>
      unfold GenerationSpec.keeps_config; rewrite (increment_ctx _ _ _ _ H); assumption
  | |- keeps_config _ => assumption
  | |- keeps_config _ => unfold GenerationSpec.keeps_config in *; simpl; assumption
  | |- keeps_config _ =>
      unfold GenerationSpec.keeps_config, same_config in *; simpl;
      etransitivity; [|eassumption]; reflexivity
  end.

Lemma broadcast_execution_progress_sat eid name si total sub :
  Sat keeps_config chunked_alike (fun _ => True)
      (broadcast_execution_progress eid name si total sub).
Proof.
  unfold broadcast_execution_progress, emit.
  destruct si as [| |z|], total as [|[]|[]|]; repeat constructor.
Qed.

Ltac sat_step :=
  match goal with
  | |- Sat _ _ _ (Return _) => apply Sat_Return; exact I
  | |- Sat _ _ _ (lift ?r) =>
      destruct r; [apply Sat_Return; exact I|apply Sat_Raise]
  | |- Sat _ _ _ (bind (broadcast_execution_progress _ _ _ _ _) _) =>
      eapply Sat_bind; [apply broadcast_execution_progress_sat|intros ? _]
  | |- Sat _ _ _ (Raise _) => apply Sat_Raise
  | |- Sat _ _ _ (Get _) => apply Sat_Get; intros ? ?
  | |- Sat _ _ _ (Put _ _) => apply Sat_Put; [keep|]
  | |- Sat _ _ _ (Emit _ _) => apply Sat_Emit; [exact I|]
  | |- Sat _ _ _ (Call _ _ _) => apply Sat_Call; [exact I|intros ?]
  | |- Sat _ _ _ (match ?x with _ => _ end) => destruct x eqn:?
  | |- Sat _ _ _ (bind (match ?x with _ => _ end) _) => destruct x eqn:?
  | |- Sat _ _ _ _ =>
      progress cbn [bind lift read_ctx modify emit dict_item dict_increment
                    dict_store new_dict fresh_hex alloc uuid_hex
                    broadcast_execution_progress build_tts_request
                    build_dialogue_request]
  end.

Lemma generate_chunk_sat port endpoint multi original_params idx n k chunk :
  Sat keeps_config chunked_alike (fun _ => True)
      (generate_chunk port endpoint multi original_params idx n k chunk).
Proof.
  unfold generate_chunk. destruct multi; repeat sat_step.
Qed.

Lemma generate_chunks_sat port endpoint multi original_params idx n chunks :
  forall k,
    Sat keeps_config chunked_alike (fun _ => True)
        (generate_chunks port endpoint multi original_params idx n k chunks).
Proof.
  induction chunks as [|chunk chunks IH]; intros k; cbn [generate_chunks].
  - constructor. exact I.
  - eapply Sat_bind; [apply generate_chunk_sat|]. intros response _.
    eapply Sat_bind; [apply IH|]. intros responses _. constructor. exact I.
Qed.

Lemma load_and_concatenate_sat fps :
  Sat keeps_config chunked_alike (fun _ => True) (load_and_concatenate fps).
Proof.
  unfold load_and_concatenate.
  eapply Sat_bind with (Q := fun _ => True).
  - induction fps as [|fp fps IH]; cbn [map_task]; [constructor; exact I|].
    cbn [bind]. apply Sat_Get. intros w Hw. destruct (path_exists w fp); cbn [bind].
    + eapply Sat_bind; [exact IH|]. intros ys _. constructor. exact I.
    + constructor.
  - intros sizes _. destruct sizes; constructor. exact I.
Qed.

Lemma generate_single_candidate_sat model vps idx :
  Sat keeps_config chunked_alike (fun _ => True)
      (generate_single_candidate_via_service b64encode env_TESTING_UI
         env_TESTING model txts vps ats idx).
Proof.
  unfold generate_single_candidate_via_service.
  destruct (get_model_service_port env_TESTING_UI env_TESTING model);
    [|constructor].
  cbn [lift bind read_ctx]. apply Sat_Get. intros w Hw.
  cbn [bind]. apply Sat_Get. intros w1 Hw1.
  cbn [new_dict bind alloc]. apply Sat_Get. intros w2 Hw2.
  apply Sat_Put; [keep|]. cbn [bind].
  assert (Hseed : forall (t : Task (string * list Chunking.Chunk * string)),
             Sat keeps_config chunked_alike (fun _ => True) t ->
             Sat keeps_config chunked_alike (fun _ => True)
                 (do _ <- match actual_seed (ctx w) with
                          | Some s => dict_store (fresh (dom (heap w2))) "seed"
                                        (VInt (s + Z.of_nat idx))
                          | None => Return tt
                          end; t)).
  { intros t Ht. destruct (actual_seed (ctx w)); cbn [bind dict_store modify];
      [|exact Ht].
    apply Sat_Get. intros w3 Hw3. apply Sat_Put; [keep|]. exact Ht. }
  apply Hseed. clear Hseed.
  cbn [modify bind]. apply Sat_Get. intros w3 Hw3. apply Sat_Put; [keep|].
  destruct (voice_clone_paths (ctx w)) as [vcps|] eqn:Hvcps; [|constructor].
  cbn [bind].
  set (voice_paths := map _ vcps).
  assert (Hend : forall (endpoint_task : Task string)
                        (f : string -> Task (string * list Chunking.Chunk * string)),
             Sat keeps_config chunked_alike (fun _ => True) endpoint_task ->
             (forall e, Sat keeps_config chunked_alike (fun _ => True) (f e)) ->
             Sat keeps_config chunked_alike (fun _ => True) (bind endpoint_task f)).
  { intros et f Het Hf. eapply Sat_bind; [exact Het|]. intros e _. apply Hf. }
  apply Hend; clear Hend.
  { destruct (_ && _); [constructor; exact I|].
    destruct voice_paths; constructor. exact I. }
  intros endpoint.
  destruct (candidate_chunks (ctx w) voice_paths txts ats) as [chunks|e] eqn:Hch;
    [|constructor].
  cbn [lift bind mark]. apply Sat_Mark.
  { unfold GenerationSpec.keeps_config, same_config in Hw. simpl.
    assert (Hmin : approximate_min_chunk_length (ctx w)
                   = approximate_min_chunk_length c0)
      by (apply (f_equal approximate_min_chunk_length) in Hw; exact Hw).
    assert (Hv : voice_clone_paths (ctx w) = voice_clone_paths c0)
      by (apply (f_equal voice_clone_paths) in Hw; exact Hw).
    split; [rewrite Hmin; reflexivity|].
    unfold candidate_chunks in Hch.
    unfold encoded_voice_paths. rewrite <- Hv, Hvcps. exact Hch. }
  cbn [bind].
  eapply Sat_bind; [apply generate_chunks_sat|]. intros responses _.
  eapply Sat_bind; [apply load_and_concatenate_sat|]. intros concatenated _.
  repeat sat_step.
Qed.

Lemma generate_sequentially_sat model vps indices :
  forall candidates dbg help w tr w' r,
    keeps_config w ->
    generate_sequentially b64encode env_TESTING_UI env_TESTING backend model
      txts vps ats indices candidates dbg help w = (tr, w', r) ->
    Forall chunked_alike tr.
Proof.
  induction indices as [|idx indices IH];
    intros candidates dbg help w tr w' r Hw E; simpl in E.
  - injection E as <- _ _. constructor.
  - destruct (run backend _ w) as [[tr1 w1] r1] eqn:E1.
    destruct (run_sat backend keeps_config chunked_alike (fun _ => True)
                keeps_config_deliver _ (generate_single_candidate_sat model vps idx)
                _ _ _ _ Hw E1) as (H1 & H2 & _).
    destruct r1 as [[[result chunks] help_text]|e].
    + destruct (generate_sequentially _ _ _ _ _ _ _ _ _ _ _ _ w1)
        as [[tr2 w2] r2] eqn:E2.
      injection E as <- _ _. rewrite Forall_app. split; [exact H1|].
      eapply IH; eauto.
    + injection E as <- _ _. exact H1.
Qed.

End ChunkInvariance.

(** *** The seed of a candidate that runs alone *)

Section SeedAlone.
Import EffectsFacts.
Variable b64encode : string -> string.
Variable env_TESTING_UI env_TESTING : bool.
Variable backend : ServiceCall -> result Response.

Lemma seed_installed_deliver v r w :
  seed_installed v w -> seed_installed v (deliver r w).
Proof. destruct r; auto. Qed.

Lemma seed_installed_increment v l w w' :
  increment l "step_index" w = Ok w' -> seed_installed v w -> seed_installed v w'.
Proof.
  unfold increment, seed_installed.
  destruct (deref w l !! "step_index") as [[]|]; intros [= <-]; try discriminate;
    intros H; unfold store, deref in *; simpl;
    (destruct (decide (l = parameters (ctx w))) as [->|Hne];
     [rewrite lookup_insert_eq; simpl; rewrite lookup_insert_ne by discriminate;
      exact H
     |rewrite lookup_insert_ne by exact Hne; exact H]).
Qed.

Lemma seed_installed_next_id v w :
  seed_installed v w ->
  seed_installed v (mkWorld (ctx w) (heap w) (files w) (S (next_id w))).
Proof. auto. Qed.

Lemma generate_chunk_seed v port endpoint multi original_params idx n k chunk :
  Sat (seed_installed v) (carries_seed idx v) (fun _ => True)
      (generate_chunk port endpoint multi original_params idx n k chunk).
Proof.
  unfold generate_chunk.
  cbn [bind read_ctx dict_increment]. apply Sat_Get. intros w Hw.
  apply Sat_Get. intros w0 Hw0.
  destruct (increment _ _ w0) as [w0'|e] eqn:E0; [|constructor].
  cbn [bind]. apply Sat_Put; [eapply seed_installed_increment; eauto|].
  apply Sat_Get. intros w1 Hw1.
  destruct (increment _ _ w1) as [w1'|e] eqn:E1; [|constructor].
  cbn [bind]. apply Sat_Put; [eapply seed_installed_increment; eauto|].
  apply Sat_Get. intros w2 Hw2. cbn [dict_item bind].
  apply Sat_Get. intros w3 Hw3.
  destruct (deref w3 _ !! "execution_id") as [eid|]; [|constructor]. cbn [bind].
  apply Sat_Get. intros w4 Hw4.
  destruct (deref w4 _ !! "step_index") as [si|]; [|constructor]. cbn [bind].
  apply Sat_Get. intros w5 Hw5.
  destruct (deref w5 _ !! "total_steps") as [ts|]; [|constructor]. cbn [bind].
  eapply Sat_bind with (Q := fun _ => True).
  { unfold broadcast_execution_progress, emit.
    destruct si as [| |z|], ts as [|[]|[]|]; repeat constructor. }
  intros _ _.
  destruct multi;
    cbn [build_dialogue_request build_tts_request bind fresh_hex uuid_hex read_ctx].
  - apply Sat_Get. intros w6 Hw6. apply Sat_Put; [exact Hw6|].
    apply Sat_Get. intros w7 Hw7. apply Sat_Get. intros w8 Hw8.
    apply Sat_Call; [split; [reflexivity|exact Hw8]|].
    intros []; constructor. exact I.
  - apply Sat_Get. intros w6 Hw6. apply Sat_Put; [exact Hw6|].
    apply Sat_Get. intros w7 Hw7.
    destruct (Chunking.texts chunk); [constructor|]. cbn [bind].
    apply Sat_Get. intros w8 Hw8.
    apply Sat_Call; [split; [reflexivity|exact Hw8]|].
    intros []; constructor. exact I.
Qed.

Lemma generate_chunks_seed v port endpoint multi original_params idx n chunks :
  forall k,
    Sat (seed_installed v) (carries_seed idx v) (fun _ => True)
        (generate_chunks port endpoint multi original_params idx n k chunks).
Proof.
  induction chunks as [|chunk chunks IH]; intros k; cbn [generate_chunks].
  - constructor. exact I.
  - eapply Sat_bind; [apply generate_chunk_seed|]. intros response _.
    eapply Sat_bind; [apply IH|]. intros responses _. constructor. exact I.
Qed.

(** After the chunks: the files are read and joined, nothing is requested. *)
Lemma finish_candidate_quiet idx v (responses : list Response)
    (original_params : loc) (chunks : list Chunking.Chunk) :
  Sat (fun _ => True) (carries_seed idx v) (fun _ => True)
      (do concatenated <- load_and_concatenate (map resp_output_filepath responses);
       do hex <- fresh_hex;
       do c1 <- read_ctx;
       let temp_file_path :=
         path_join (temp_dir c1) ("concatenated_" +:+ hex +:+ ".wav") in
       do _ <- modify (fun w => with_files (<[temp_file_path := concatenated]> (files w)) w);
       do _ <- modify (with_ctx (with_parameters original_params));
       do c2 <- read_ctx;
       Return (temp_file_path, chunks,
               "Using an approximate chunk size of "
               +:+ pretty (approximate_min_chunk_length c2) +:+ " words")).
Proof.
  eapply Sat_bind with (Q := fun _ => True).
  - unfold load_and_concatenate. eapply Sat_bind with (Q := fun _ => True).
    + induction (map resp_output_filepath responses) as [|fp fps IH];
        cbn [map_task]; [constructor; exact I|].
      cbn [bind]. apply Sat_Get. intros w _.
      destruct (path_exists w fp); cbn [bind]; [|constructor].
      eapply Sat_bind; [exact IH|]. intros ys _. constructor. exact I.
    + intros sizes _. destruct sizes; constructor. exact I.
  - intros concatenated _.
    cbn [bind fresh_hex uuid_hex read_ctx modify].
    repeat (first [apply Sat_Get; intros ? _ | apply Sat_Put; [exact I|]
                  | apply Sat_Return; exact I]).
Qed.

(** A candidate that is not interleaved with another sends all its
    requests with the seed [actual_seed + candidate_idx]. *)
Lemma seed_when_run_alone model txts vps ats idx w s :
  actual_seed (ctx w) = Some s ->
  Runs backend (carries_seed idx (VInt (s + Z.of_nat idx)))
       (generate_single_candidate_via_service b64encode env_TESTING_UI
          env_TESTING model txts vps ats idx) w.
Proof.
  intros Hs. unfold generate_single_candidate_via_service.
  destruct (get_model_service_port env_TESTING_UI env_TESTING model) as [port|e];
    [|apply Runs_Raise].
  cbn [lift bind read_ctx]. apply Runs_Get. cbn beta.
  apply Runs_Get. cbn [new_dict bind alloc]. apply Runs_Get. cbn beta.
  apply Runs_Put. rewrite Hs. cbn [bind dict_store modify].
  apply Runs_Get. apply Runs_Put. apply Runs_Get. apply Runs_Put.
  destruct (voice_clone_paths (ctx w)) as [vcps|]; [|apply Runs_Raise].
  cbn [bind]. set (voice_paths := map _ vcps).
  set (w3 := with_ctx _ _).
  assert (Hw3 : seed_installed (VInt (s + Z.of_nat idx)) w3).
  { unfold seed_installed, w3, store, deref. simpl.
    rewrite lookup_insert_eq. simpl. apply lookup_insert_eq. }
  clearbody w3.
  assert (Hrest : forall endpoint,
             Runs backend (carries_seed idx (VInt (s + Z.of_nat idx)))
               (do sentence_chunks <-
                  lift (candidate_chunks (ctx w) voice_paths txts ats);
                do _ <- mark (Chunked idx (or_20 (approximate_min_chunk_length (ctx w)))
                                sentence_chunks);
                do responses <-
                  generate_chunks port endpoint
                    (is_multi_speaker (ctx w) && (1 <? length txts)%nat)
                    (parameters (ctx w)) idx (length sentence_chunks) 0
                    sentence_chunks;
                do concatenated <- load_and_concatenate
                                     (map resp_output_filepath responses);
                do hex <- fresh_hex;
                do c1 <- read_ctx;
                let temp_file_path :=
                  path_join (temp_dir c1) ("concatenated_" +:+ hex +:+ ".wav") in
                do _ <- modify (fun w => with_files (<[temp_file_path := concatenated]> (files w)) w);
                do _ <- modify (with_ctx (with_parameters (parameters (ctx w))));
                do c2 <- read_ctx;
                Return (temp_file_path, sentence_chunks,
                        "Using an approximate chunk size of "
                        +:+ pretty (approximate_min_chunk_length c2) +:+ " words"))
               w3).
  { intros endpoint.
    destruct (candidate_chunks (ctx w) voice_paths txts ats) as [chunks|e];
      [|apply Runs_Raise].
    cbn [lift bind mark]. apply Runs_Mark; [exact I|].
    eapply Runs_bind with (inv := seed_installed (VInt (s + Z.of_nat idx)))
                          (Q := fun _ => True).
    - intros r w'. apply seed_installed_deliver.
    - apply generate_chunks_seed.
    - exact Hw3.
    - intros responses w' _ _.
      eapply Runs_Sat with (inv := fun _ => True) (Q := fun _ => True);
        [auto| |exact I].
      apply finish_candidate_quiet. }
  clearbody voice_paths.
  destruct (is_multi_speaker (ctx w) && (1 <? length txts)%nat).
  - cbn [bind]. apply Hrest.
  - destruct voice_paths as [|vp rest]; [apply Runs_Raise|].
    cbn [bind]. apply Hrest.
Qed.

End SeedAlone.

(** C6. In one generation, in either mode and whatever the order of the
    answers, every candidate that calls the chunker passes the same
    arguments to this pure function: the texts given, the encoded voice
    paths and the transcriptions, and the minimum chunk length of the
    context with 0 replaced by 20.  All candidates therefore work on one and
    the same chunk sequence. *)
Theorem candidates_chunk_alike :
  forall (b64encode : string -> string) (b64decode : string -> result string)
         (env_TESTING_UI env_TESTING : bool)
         (backend : ServiceCall -> result Response) (connected : bool)
         (schedule : list nat) (model : string) (txts vps ats : list string)
         (w : World),
    let tr := fst (fst (generate_candidates_with_service_calls b64encode
                          b64decode env_TESTING_UI env_TESTING backend
                          connected schedule model txts vps ats w)) in
    forall i m cs,
      Chunked i m cs ∈ tr ->
      m = or_20 (approximate_min_chunk_length (ctx w))
      /\ Chunking.chunk_sentences txts
           (encoded_voice_paths b64encode env_TESTING (ctx w)) ats m
         = Ok cs.
Proof.
  intros b64encode b64decode eUI eT backend connected schedule model txts vps
    ats w tr i m cs Hin.
  assert (Hw : keeps_config (ctx w) w) by reflexivity.
  assert (Hall : Forall (chunked_alike b64encode eT (ctx w) txts ats) tr).
  { subst tr. unfold generate_candidates_with_service_calls.
    destruct (negb _); [constructor|].
    destruct (_ && _).
    - destruct (gather _ _ _ _ w) as [[tr1 w1] rs] eqn:E.
      destruct (collect_successful rs [] None None) as [[cands dbg] help].
      destruct (update_context _ _ _ _ w1) as [w2 r]. simpl.
      eapply (EffectsFacts.gather_sat backend connected (keeps_config (ctx w))
                (chunked_alike b64encode eT (ctx w) txts ats) (fun _ => True)
                (keeps_config_deliver (ctx w))); [|exact Hw|exact E].
      rewrite Forall_map. apply Forall_forall. intros idx _.
      apply generate_single_candidate_sat.
    - destruct (generate_sequentially _ _ _ _ _ _ _ _ _ _ _ _ w)
        as [[tr1 w1] r] eqn:E.
      assert (H : Forall (chunked_alike b64encode eT (ctx w) txts ats) tr1)
        by (eapply generate_sequentially_sat; [exact Hw|exact E]).
      destruct r as [[[cands dbg] help]|e]; [|exact H].
      destruct (update_context _ _ _ _ w1) as [w2 r']. exact H. }
  rewrite Forall_forall in Hall. exact (Hall _ Hin).
Qed.

Lemma candidates_chunk_alike_witness :
  let w := demo_world false 0 in
  let cs := [Chunking.mkChunk [demo_text] ["b64:v.wav"] ["t"]] in
  Chunked 0 20 cs ∈ fst (fst (demo_generate healthy [] w))
  /\ (20%Z = or_20 (approximate_min_chunk_length (ctx w))
      /\ Chunking.chunk_sentences [demo_text]
           (encoded_voice_paths demo_encode true (ctx w)) ["t"] 20
         = Ok cs).
Proof.
  intros w cs.
  assert (Hin : Chunked 0 20 cs ∈ fst (fst (demo_generate healthy [] w))).
  { apply list_elem_of_In. vm_compute. left. reflexivity. }
  split; [exact Hin|].
  exact (candidates_chunk_alike demo_encode demo_decode false true healthy
           false [] "chatterbox" [demo_text] ["v.wav"] ["t"] w 0%nat 20%Z cs Hin).
Defined.

(** *** File paths in URLs *)

Section Codec.
Variable b64encode : string -> string.
Variable b64decode : string -> result string.
Hypothesis Hround : forall s, b64decode (b64encode s) = Ok s.
Hypothesis Hne : forall s, s <> "" -> b64encode s <> "".

Lemma decode_encode_filepath p :
  decode_filepath_from_url b64decode (encode_filepath_for_url b64encode p) = Ok p.
Proof.
  unfold encode_filepath_for_url, decode_filepath_from_url.
  destruct p as [|c p]; [reflexivity|]. simpl PyStr.is_empty. cbv iota.
  destruct (b64encode (String c p)) as [|c' s'] eqn:E.
  - exfalso. apply (Hne (String c p)); [discriminate|exact E].
  - simpl PyStr.is_empty. cbv iota. rewrite <- E, Hround. reflexivity.
Qed.

Lemma decode_encoded_paths (paths : list string) (vs : list string) :
  Forall (fun v => v ∈ map (encode_filepath_for_url b64encode) paths) vs ->
  exists ds,
    mapM_r (decode_filepath_from_url b64decode) vs = Ok ds
    /\ map (encode_filepath_for_url b64encode) ds = vs
    /\ Forall (fun d => d ∈ paths) ds.
Proof.
  induction 1 as [|v vs Hv _ (ds & E & Hm & Hall)].
  - exists []. repeat split; constructor.
  - apply list_elem_of_fmap in Hv as (p & -> & Hp).
    exists (p :: ds). simpl. rewrite decode_encode_filepath, E. simpl.
    repeat split; [congruence|]. constructor; assumption.
Qed.

Lemma decode_chunks (paths : list string) (cs : list Chunking.Chunk) :
  Forall (fun c => Forall (fun v => v ∈ map (encode_filepath_for_url b64encode) paths)
                          (Chunking.voice_clones c)) cs ->
  exists readable,
    mapM_r (fun chunk =>
              let? vcs := mapM_r (decode_filepath_from_url b64decode)
                            (Chunking.voice_clones chunk) in
              Ok (Chunking.mkChunk (Chunking.texts chunk) vcs
                    (Chunking.voice_transcriptions chunk))) cs
    = Ok readable
    /\ Forall2 (readable_of b64encode paths) readable cs.
Proof.
  induction 1 as [|c cs Hc _ (rs & E & Hall)].
  - exists []. split; [reflexivity|constructor].
  - destruct (decode_encoded_paths paths _ Hc) as (ds & Ed & Hm & Hin).
    eexists. simpl. rewrite Ed. simpl. rewrite E. simpl.
    split; [reflexivity|]. constructor; [|exact Hall].
    repeat split; assumption.
Qed.

End Codec.

(** X16. For a codec that decodes what it encodes and encodes no
    non-empty string as the empty one, a file path survives the round trip
    through [encode_filepath_for_url] and [decode_filepath_from_url], the
    empty path included; the encoding is injective; and a string the codec
    rejects raises [ValueError] naming it. *)
Theorem encoded_filepath_round_trip :
  forall (b64encode : string -> string) (b64decode : string -> result string),
    (forall s, b64decode (b64encode s) = Ok s) ->
    (forall s, s <> "" -> b64encode s <> "") ->
    (forall p, decode_filepath_from_url b64decode
                 (encode_filepath_for_url b64encode p) = Ok p)
    /\ (forall p q, encode_filepath_for_url b64encode p
                    = encode_filepath_for_url b64encode q -> p = q)
    /\ (forall s e, s <> "" -> b64decode s = Err e ->
                    decode_filepath_from_url b64decode s
                    = Err (ValueError ("Invalid encoded file path: " +:+ s))).
Proof.
  intros b64encode b64decode Hround Hne.
  pose proof (decode_encode_filepath b64encode b64decode Hround Hne) as H1.
  split; [exact H1|]. split.
  - intros p q E. pose proof (H1 p) as Hp. rewrite E, H1 in Hp. congruence.
  - intros s e Hs He. unfold decode_filepath_from_url.
    destruct s; [congruence|]. simpl PyStr.is_empty. cbv iota.
    rewrite He. reflexivity.
Qed.

Lemma encoded_filepath_round_trip_witness :
  (forall p, decode_filepath_from_url demo_decode
               (encode_filepath_for_url demo_encode p) = Ok p)
  /\ (forall p q, encode_filepath_for_url demo_encode p
                  = encode_filepath_for_url demo_encode q -> p = q)
  /\ (forall s e, s <> "" -> demo_decode s = Err e ->
                  decode_filepath_from_url demo_decode s
                  = Err (ValueError ("Invalid encoded file path: " +:+ s))).
Proof.
  apply (encoded_filepath_round_trip demo_encode demo_decode).
  - intros s. reflexivity.
  - intros s _. discriminate.
Defined.

(** *** A candidate without a chunk *)

Section NoChunk.
Variable b64encode : string -> string.
Variable env_TESTING_UI env_TESTING : bool.
Variable backend : ServiceCall -> result Response.

(** X17. When the chunker finds no chunk in the texts, a candidate sends
    no request and raises the [ValueError] of the empty concatenation; the
    context's [parameters] is then left on the candidate's own copy, which
    the restoring assignment at the end never undoes. *)
Theorem candidate_without_chunk_fails :
  forall (model : string) (txts vps ats : list string) (idx : nat) (w : World)
         (port : Z) (vcps : list string),
    get_model_service_port env_TESTING_UI env_TESTING model = Ok port ->
    voice_clone_paths (ctx w) = Some vcps ->
    is_multi_speaker (ctx w) && (1 <? length txts)%nat = true \/ vcps <> [] ->
    candidate_chunks (ctx w)
      (map (fun vcp => encode_filepath_for_url b64encode
                         (add_file_prefix env_TESTING vcp)) vcps)
      txts ats = Ok [] ->
    exists w',
      run backend (generate_single_candidate_via_service b64encode
                     env_TESTING_UI env_TESTING model txts vps ats idx) w
      = ([Chunked idx (or_20 (approximate_min_chunk_length (ctx w))) []], w',
         Err (ValueError "need at least one array to concatenate"))
      /\ parameters (ctx w') = fresh (dom (heap w))
      /\ files w' = files w.
Proof.
  intros model txts vps ats idx w port vcps Hport Hvcps Hend Hchunks.
  unfold generate_single_candidate_via_service. rewrite Hport.
  cbn [lift bind read_ctx new_dict run alloc fst snd].
  assert (Hrest : forall w1,
             ctx w1 = with_parameters (fresh (dom (heap w))) (ctx w) ->
             files w1 = files w ->
             exists w',
               run backend
                 (do voice_paths <-
                    match voice_clone_paths (ctx w) with
                    | Some vcps =>
                        Return (map (fun vcp => encode_filepath_for_url b64encode
                                                  (add_file_prefix env_TESTING vcp)) vcps)
                    | None => Raise (TypeError "'NoneType' object is not iterable")
                    end;
                  let its_definitely_multi_speaker :=
                    is_multi_speaker (ctx w) && (1 <? length txts)%nat in
                  do endpoint <-
                    (if its_definitely_multi_speaker then Return "/v1/text-to-dialogue"
                     else match voice_paths with
                          | [] => Raise (Exception "No voice clone path provided for single-speaker TTS")
                          | voice_path :: _ => Return ("/v1/text-to-speech/" +:+ voice_path)
                          end);
                  do sentence_chunks <-
                    lift (candidate_chunks (ctx w) voice_paths txts ats);
                  do _ <- mark (Chunked idx (or_20 (approximate_min_chunk_length (ctx w)))
                                  sentence_chunks);
                  do responses <- generate_chunks port endpoint its_definitely_multi_speaker
                                    (parameters (ctx w)) idx (length sentence_chunks) 0
                                    sentence_chunks;
                  do concatenated <- load_and_concatenate (map resp_output_filepath responses);
                  do hex <- fresh_hex;
                  do c1 <- read_ctx;
                  let temp_file_path :=
                    path_join (temp_dir c1) ("concatenated_" +:+ hex +:+ ".wav") in
                  do _ <- modify (fun w => with_files (<[temp_file_path := concatenated]> (files w)) w);
                  do _ <- modify (with_ctx (with_parameters (parameters (ctx w))));
                  do c2 <- read_ctx;
                  Return (temp_file_path, sentence_chunks,
                          "Using an approximate chunk size of "
                          +:+ pretty (approximate_min_chunk_length c2) +:+ " words"))
                 w1
               = ([Chunked idx (or_20 (approximate_min_chunk_length (ctx w))) []], w',
                  Err (ValueError "need at least one array to concatenate"))
               /\ parameters (ctx w') = fresh (dom (heap w))
               /\ files w' = files w).
  { intros w1 Hctx Hfiles. rewrite Hvcps. cbn [bind].
    assert (Hgo : forall endpoint,
               run backend
                 (do sentence_chunks <-
                    lift (candidate_chunks (ctx w)
                            (map (fun vcp => encode_filepath_for_url b64encode
                                               (add_file_prefix env_TESTING vcp)) vcps)
                            txts ats);
                  do _ <- mark (Chunked idx (or_20 (approximate_min_chunk_length (ctx w)))
                                  sentence_chunks);
                  do responses <- generate_chunks port endpoint
                                    (is_multi_speaker (ctx w) && (1 <? length txts)%nat)
                                    (parameters (ctx w)) idx (length sentence_chunks) 0
                                    sentence_chunks;
                  do concatenated <- load_and_concatenate (map resp_output_filepath responses);
                  do hex <- fresh_hex;
                  do c1 <- read_ctx;
                  let temp_file_path :=
                    path_join (temp_dir c1) ("concatenated_" +:+ hex +:+ ".wav") in
                  do _ <- modify (fun w => with_files (<[temp_file_path := concatenated]> (files w)) w);
                  do _ <- modify (with_ctx (with_parameters (parameters (ctx w))));
                  do c2 <- read_ctx;
                  Return (temp_file_path, sentence_chunks,
                          "Using an approximate chunk size of "
                          +:+ pretty (approximate_min_chunk_length c2) +:+ " words"))
                 w1
               = ([Chunked idx (or_20 (approximate_min_chunk_length (ctx w))) []], w1,
                  Err (ValueError "need at least one array to concatenate"))).
    { intros endpoint. rewrite Hchunks. reflexivity. }
    exists w1. split; [|split; [rewrite Hctx; reflexivity|exact Hfiles]].
    destruct (is_multi_speaker (ctx w) && (1 <? length txts)%nat) eqn:Hm.
    - cbn [bind]. apply Hgo.
    - destruct Hend as [Hend|Hend]; [discriminate|].
      destruct vcps as [|v vcps']; [congruence|]. cbn [map bind]. apply Hgo. }
  destruct (actual_seed (ctx w)) as [s|];
    cbn [bind dict_store modify run]; apply Hrest; reflexivity.
Qed.

End NoChunk.

Lemma candidate_without_chunk_fails_witness :
  exists w',
    wordless_generate (demo_world false 3)
    = ([Chunked 0 (or_20 (approximate_min_chunk_length (ctx (demo_world false 3)))) []],
       w', Err (ValueError "need at least one array to concatenate"))
    /\ parameters (ctx w') = fresh (dom (heap (demo_world false 3)))
    /\ files w' = files (demo_world false 3).
Proof.
  apply (candidate_without_chunk_fails demo_encode false true healthy
           "chatterbox" [" ... "] ["v.wav"] ["t"] 0 (demo_world false 3)
           8999 ["v.wav"]).
  - reflexivity.
  - reflexivity.
  - right. discriminate.
  - vm_compute. reflexivity.
Defined.

(** *** No candidate left *)

Lemma collect_successful_none rs :
  survivors rs = [] ->
  collect_successful rs [] None None = ([], None, None).
Proof.
  induction rs as [|[[[path chunks] help_text]|e] rs IH]; simpl; intros H.
  - reflexivity.
  - discriminate.
  - apply IH, H.
Qed.

Section Parallel.
Variable b64encode : string -> string.
Variable b64decode : string -> result string.
Variable env_TESTING_UI env_TESTING : bool.
Variable backend : ServiceCall -> result Response.
Variable connected : bool.

(** X18. In parallel mode, when no candidate survives, the generation
    does not end with its own message about missing candidates: the
    reformatting of the chunks for display iterates over [None] and raises
    [TypeError], after the candidate list of the context has been set to
    the empty list. *)
Theorem parallel_without_survivor_raises_type_error :
  forall (schedule : list nat) (model : string) (txts vps ats : list string)
         (w w1 : World) (tr : list Obs)
         (rs : list (result (string * list Chunking.Chunk * string))),
    enable_parallel (ctx w) = true -> (1 < num_candidates (ctx w))%Z ->
    length txts = length vps -> length vps = length ats ->
    gather backend connected schedule
      (map (generate_single_candidate_via_service b64encode env_TESTING_UI
              env_TESTING model txts vps ats)
           (py_range (num_candidates (ctx w)))) w = (tr, w1, rs) ->
    survivors rs = [] ->
    generate_candidates_with_service_calls b64encode b64decode env_TESTING_UI
      env_TESTING backend connected schedule model txts vps ats w
    = (tr, with_ctx (with_audio_candidates []) w1,
       Err (TypeError "'NoneType' object is not iterable")).
Proof.
  intros schedule model txts vps ats w w1 tr rs Hpar Hn Hl1 Hl2 Hg Hnone.
  unfold generate_candidates_with_service_calls.
  rewrite Hl1, Hl2, !Nat.eqb_refl. simpl negb. cbv iota.
  apply Z.ltb_lt in Hn. rewrite Hpar, Hn. simpl andb. cbv iota.
  rewrite Hg, (collect_successful_none rs Hnone). reflexivity.
Qed.

End Parallel.

Lemma parallel_without_survivor_raises_type_error_witness :
  exists tr w1,
    demo_generate unreachable [0; 1; 0; 1]%nat (demo_world true 3)
    = (tr, with_ctx (with_audio_candidates []) w1,
       Err (TypeError "'NoneType' object is not iterable")).
Proof.
  pose (g := gather unreachable false [0; 1; 0; 1]%nat
               (map (generate_single_candidate_via_service demo_encode false
                       true "chatterbox" [demo_text] ["v.wav"] ["t"])
                    (py_range (num_candidates (ctx (demo_world true 3)))))
               (demo_world true 3)).
  assert (Hs : survivors (snd g) = []) by (vm_compute; reflexivity).
  destruct g as [[tr w1] rs] eqn:E. simpl in Hs.
  exists tr, w1.
  apply (parallel_without_survivor_raises_type_error demo_encode demo_decode
           false true unreachable false [0; 1; 0; 1]%nat "chatterbox"
           [demo_text] ["v.wav"] ["t"] (demo_world true 3) w1 tr rs);
    [reflexivity|reflexivity|reflexivity|reflexivity|exact E|exact Hs].
Defined.

(** *** Seeds, one candidate after the other *)

Section Sequential.
Import EffectsFacts.
Variable b64encode : string -> string.
Variable b64decode : string -> result string.
Variable env_TESTING_UI env_TESTING : bool.
Variable backend : ServiceCall -> result Response.
Variable connected : bool.

Lemma carries_seed_own idx s o :
  carries_seed idx (VInt (s + Z.of_nat idx)) o -> carries_own_seed s o.
Proof. destruct o; simpl; auto. intros [-> H]. exact H. Qed.

Lemma generate_sequentially_seeds model txts vps ats s c0 indices :
  actual_seed c0 = Some s ->
  forall candidates dbg help w tr w' r,
    keeps_config c0 w ->
    generate_sequentially b64encode env_TESTING_UI env_TESTING backend model
      txts vps ats indices candidates dbg help w = (tr, w', r) ->
    Forall (carries_own_seed s) tr.
Proof.
  intros Hs.
  induction indices as [|idx indices IH];
    intros candidates dbg help w tr w' r Hw E; simpl in E.
  - injection E as <- _ _. constructor.
  - destruct (run backend _ w) as [[tr1 w1] r1] eqn:E1.
    assert (Hsw : actual_seed (ctx w) = Some s).
    { rewrite <- Hs. apply (f_equal actual_seed) in Hw. exact Hw. }
    pose proof (seed_when_run_alone b64encode env_TESTING_UI env_TESTING backend
                  model txts vps ats idx w s Hsw _ _ _ E1) as H1.
    assert (H1' : Forall (carries_own_seed s) tr1).
    { eapply Forall_impl; [exact H1|]. intros o. apply carries_seed_own. }
    destruct (run_sat backend (keeps_config c0)
                (chunked_alike b64encode env_TESTING c0 txts ats) (fun _ => True)
                (keeps_config_deliver c0) _
                (generate_single_candidate_sat b64encode env_TESTING_UI
                   env_TESTING c0 txts ats model vps idx)
                _ _ _ _ Hw E1) as (_ & Hw1 & _).
    destruct r1 as [[[result chunks] help_text]|e].
    + destruct (generate_sequentially _ _ _ _ _ _ _ _ _ _ _ _ w1)
        as [[tr2 w2] r2] eqn:E2.
      injection E as <- _ _. rewrite Forall_app. split; [exact H1'|].
      eapply IH; eauto.
    + injection E as <- _ _. exact H1'.
Qed.

(** X19. When the candidates are generated one after the other (parallel
    mode off, or a single candidate) and a seed has been derived, every
    request of candidate [i] carries the seed [actual_seed + i]. *)
Theorem sequential_candidates_carry_their_seed :
  forall (schedule : list nat) (model : string) (txts vps ats : list string)
         (w : World) (s : Z),
    enable_parallel (ctx w) && (1 <? num_candidates (ctx w))%Z = false ->
    actual_seed (ctx w) = Some s ->
    forall i c,
      Requested i c ∈ fst (fst (generate_candidates_with_service_calls
                                  b64encode b64decode env_TESTING_UI env_TESTING
                                  backend connected schedule model txts vps ats w)) ->
      request_parameters (call_payload c) !! "seed"
      = Some (VInt (s + Z.of_nat i)).
Proof.
  intros schedule model txts vps ats w s Hseq Hs i c Hin.
  assert (Hall : Forall (carries_own_seed s)
                   (fst (fst (generate_candidates_with_service_calls b64encode
                                b64decode env_TESTING_UI env_TESTING backend
                                connected schedule model txts vps ats w)))).
  { unfold generate_candidates_with_service_calls.
    destruct (negb _); [constructor|]. rewrite Hseq.
    destruct (generate_sequentially _ _ _ _ _ _ _ _ _ _ _ _ w)
      as [[tr1 w1] r] eqn:E.
    assert (H : Forall (carries_own_seed s) tr1).
    { eapply (generate_sequentially_seeds model txts vps ats s (ctx w));
        [exact Hs| |exact E]. reflexivity. }
    destruct r as [[[cands dbg] help]|e]; [|exact H].
    destruct (update_context _ _ _ _ w1) as [w2 r']. exact H. }
  rewrite Forall_forall in Hall. exact (Hall _ Hin).
Qed.

End Sequential.

Lemma sequential_candidates_carry_their_seed_witness :
  exists c,
    Requested 1 c ∈ fst (fst (demo_generate healthy [] (demo_world false 3)))
    /\ request_parameters (call_payload c) !! "seed"
       = Some (VInt (100 + Z.of_nat 1)).
Proof.
  pose (tr := fst (fst (demo_generate healthy [] (demo_world false 3)))).
  assert (H : match List.find (fun o => match o with
                                        | Requested 1 _ => true
                                        | _ => false
                                        end) tr with
              | Some _ => True
              | None => False
              end) by (vm_compute; exact I).
  destruct (List.find _ tr) as [o|] eqn:E; [|contradiction].
  apply List.find_some in E as [Hin Ho].
  destruct o as [| | | |i c]; try discriminate Ho.
  destruct i as [|[|i]]; try discriminate Ho.
  exists c. apply list_elem_of_In in Hin. split; [exact Hin|].
  unfold tr, demo_generate in Hin.
  exact (sequential_candidates_carry_their_seed demo_encode demo_decode false
           true healthy false [] "chatterbox" [demo_text] ["v.wav"] ["t"]
           (demo_world false 3) 100 eq_refl eq_refl 1%nat c Hin).
Defined.

(** *** Where the requests go *)

Section Routing.
Import EffectsFacts.
Variable b64encode : string -> string.
Variable b64decode : string -> result string.
Variable env_TESTING_UI env_TESTING : bool.
Variable backend : ServiceCall -> result Response.
Variable connected : bool.
Variable model : string.
Variable c0 : StepContext.
Variable txts ats : list string.

Local Abbreviation kept := (GenerationSpec.keeps_config c0).
Local Abbreviation routed_here :=
  (well_sent b64encode env_TESTING_UI env_TESTING model c0 txts ats).
Local Abbreviation chunks_returned :=
  (returns_chunks b64encode env_TESTING c0 txts ats).

Ltac kept_step :=
  match goal with
  | H : increment _ _ _ = Ok ?w |- kept ?w =>
      unfold GenerationSpec.keeps_config; rewrite (increment_ctx _ _ _ _ H); assumption
  | |- kept _ => assumption
  | |- kept _ => unfold GenerationSpec.keeps_config in *; simpl; assumption
  | |- kept _ =>
      unfold GenerationSpec.keeps_config, same_config in *; simpl;
      etransitivity; [|eassumption]; reflexivity
  end.

Lemma build_dialogue_request_routed ts vs rs :
  Sat kept routed_here
      (fun p => is_dialogue p = true
                /\ built_from (Chunking.mkChunk ts vs rs) p)
      (build_dialogue_request ts vs rs).
Proof.
  unfold build_dialogue_request.
  cbn [bind fresh_hex uuid_hex read_ctx].
  apply Sat_Get. intros w Hw. apply Sat_Put; [kept_step|].
  apply Sat_Get. intros w1 Hw1. apply Sat_Get. intros w2 Hw2.
  apply Sat_Return. simpl. auto.
Qed.

Lemma build_tts_request_routed ts vs rs :
  Sat kept routed_here
      (fun p => is_dialogue p = false
                /\ built_from (Chunking.mkChunk ts vs rs) p)
      (build_tts_request ts vs rs).
Proof.
  unfold build_tts_request.
  cbn [bind fresh_hex uuid_hex read_ctx].
  apply Sat_Get. intros w Hw. apply Sat_Put; [kept_step|].
  apply Sat_Get. intros w1 Hw1.
  destruct ts as [|t ts]; [apply Sat_Raise|].
  apply Sat_Get. intros w2 Hw2. apply Sat_Return. simpl. auto.
Qed.

Lemma progress_routed eid name si total sub :
  Sat kept routed_here (fun _ => True)
      (broadcast_execution_progress eid name si total sub).
Proof.
  unfold broadcast_execution_progress, emit.
  destruct si as [| |z|], total as [|[]|[]|]; repeat constructor.
Qed.

Lemma generate_chunk_routed port endpoint original_params idx n k cs chunk :
  get_model_service_port env_TESTING_UI env_TESTING model = Ok port ->
  expected_endpoint b64encode env_TESTING c0 txts = Some endpoint ->
  Chunking.chunk_sentences txts (encoded_voice_paths b64encode env_TESTING c0)
    ats (or_20 (approximate_min_chunk_length c0)) = Ok cs ->
  chunk ∈ cs ->
  Sat kept routed_here (fun _ => True)
      (generate_chunk port endpoint (dialogue_mode c0 txts) original_params
         idx n k chunk).
Proof.
  intros Hport Hend Hcs Hchunk. unfold generate_chunk.
  cbn [bind read_ctx dict_increment]. apply Sat_Get. intros w Hw.
  apply Sat_Get. intros w0 Hw0.
  destruct (increment _ _ w0) as [w0'|e] eqn:E0; [|constructor].
  cbn [bind]. apply Sat_Put; [kept_step|].
  apply Sat_Get. intros w1 Hw1.
  destruct (increment _ _ w1) as [w1'|e] eqn:E1; [|constructor].
  cbn [bind]. apply Sat_Put; [kept_step|].
  apply Sat_Get. intros w2 Hw2. cbn [dict_item bind].
  apply Sat_Get. intros w3 Hw3.
  destruct (deref w3 _ !! "execution_id") as [eid|]; [|constructor]. cbn [bind].
  apply Sat_Get. intros w4 Hw4.
  destruct (deref w4 _ !! "step_index") as [si|]; [|constructor]. cbn [bind].
  apply Sat_Get. intros w5 Hw5.
  destruct (deref w5 _ !! "total_steps") as [ts|]; [|constructor]. cbn [bind].
  eapply Sat_bind; [apply progress_routed|]. intros _ _.
  assert (Hsend : forall payload,
             is_dialogue payload = dialogue_mode c0 txts ->
             built_from chunk payload ->
             Sat kept routed_here (fun _ => True)
                 (Call idx (mkCall port endpoint payload) lift)).
  { intros payload Hd Hb. apply Sat_Call.
    - split; simpl; [auto|]. exists cs, chunk. auto.
    - intros []; constructor. exact I. }
  destruct chunk as [cts cvs crs]. simpl.
  destruct (dialogue_mode c0 txts) eqn:Hmode.
  - eapply Sat_bind; [apply build_dialogue_request_routed|].
    intros payload [Hd Hb]. apply Hsend; assumption.
  - eapply Sat_bind; [apply build_tts_request_routed|].
    intros payload [Hd Hb]. apply Hsend; assumption.
Qed.

Lemma generate_chunks_routed port endpoint original_params idx n cs chunks :
  get_model_service_port env_TESTING_UI env_TESTING model = Ok port ->
  expected_endpoint b64encode env_TESTING c0 txts = Some endpoint ->
  Chunking.chunk_sentences txts (encoded_voice_paths b64encode env_TESTING c0)
    ats (or_20 (approximate_min_chunk_length c0)) = Ok cs ->
  Forall (fun chunk => chunk ∈ cs) chunks ->
  forall k,
    Sat kept routed_here (fun _ => True)
        (generate_chunks port endpoint (dialogue_mode c0 txts) original_params
           idx n k chunks).
Proof.
  intros Hport Hend Hcs.
  induction 1 as [|chunk chunks Hchunk _ IH]; intros k; cbn [generate_chunks].
  - constructor. exact I.
  - eapply Sat_bind; [eapply generate_chunk_routed; eassumption|].
    intros response _.
    eapply Sat_bind; [apply IH|]. intros responses _. constructor. exact I.
Qed.

Lemma finish_candidate_routed (responses : list Response)
    (original_params : loc) (chunks : list Chunking.Chunk) :
  Sat kept routed_here (fun r => snd (fst r) = chunks)
      (do concatenated <- load_and_concatenate (map resp_output_filepath responses);
       do hex <- fresh_hex;
       do c1 <- read_ctx;
       let temp_file_path :=
         path_join (temp_dir c1) ("concatenated_" +:+ hex +:+ ".wav") in
       do _ <- modify (fun w => with_files (<[temp_file_path := concatenated]> (files w)) w);
       do _ <- modify (with_ctx (with_parameters original_params));
       do c2 <- read_ctx;
       Return (temp_file_path, chunks,
               "Using an approximate chunk size of "
               +:+ pretty (approximate_min_chunk_length c2) +:+ " words")).
Proof.
  eapply Sat_bind with (Q := fun _ => True).
  - unfold load_and_concatenate. eapply Sat_bind with (Q := fun _ => True).
    + induction (map resp_output_filepath responses) as [|fp fps IH];
        cbn [map_task]; [constructor; exact I|].
      cbn [bind]. apply Sat_Get. intros w _.
      destruct (path_exists w fp); cbn [bind]; [|constructor].
      eapply Sat_bind; [exact IH|]. intros ys _. constructor. exact I.
    + intros sizes _. destruct sizes; constructor. exact I.
  - intros concatenated _.
    cbn [bind fresh_hex uuid_hex read_ctx modify].
    repeat (first [apply Sat_Get; intros ? ? | apply Sat_Put; [kept_step|]
                  | apply Sat_Return; reflexivity]).
Qed.

Lemma generate_single_candidate_routed vps idx :
  Sat kept routed_here chunks_returned
      (generate_single_candidate_via_service b64encode env_TESTING_UI
         env_TESTING model txts vps ats idx).
Proof.
  unfold generate_single_candidate_via_service.
  destruct (get_model_service_port env_TESTING_UI env_TESTING model)
    as [port|] eqn:Hport; [|constructor].
  cbn [lift bind read_ctx]. apply Sat_Get. intros w Hw.
  cbn [bind]. apply Sat_Get. intros w1 Hw1.
  cbn [new_dict bind alloc]. apply Sat_Get. intros w2 Hw2.
  apply Sat_Put; [kept_step|]. cbn [bind].
  assert (Hseed : forall (t : Task (string * list Chunking.Chunk * string)),
             Sat kept routed_here chunks_returned t ->
             Sat kept routed_here chunks_returned
                 (do _ <- match actual_seed (ctx w) with
                          | Some s => dict_store (fresh (dom (heap w2))) "seed"
                                        (VInt (s + Z.of_nat idx))
                          | None => Return tt
                          end; t)).
  { intros t Ht. destruct (actual_seed (ctx w)); cbn [bind dict_store modify];
      [|exact Ht].
    apply Sat_Get. intros w3 Hw3. apply Sat_Put; [kept_step|]. exact Ht. }
  apply Hseed. clear Hseed.
  cbn [modify bind]. apply Sat_Get. intros w3 Hw3. apply Sat_Put; [kept_step|].
  assert (Hmulti : is_multi_speaker (ctx w) = is_multi_speaker c0)
    by (apply (f_equal is_multi_speaker) in Hw; exact Hw).
  assert (Hv : voice_clone_paths (ctx w) = voice_clone_paths c0)
    by (apply (f_equal voice_clone_paths) in Hw; exact Hw).
  destruct (voice_clone_paths (ctx w)) as [vcps|] eqn:Hvcps; [|constructor].
  cbn [bind]. rewrite Hmulti. fold (dialogue_mode c0 txts).
  assert (Hmin : approximate_min_chunk_length (ctx w)
                 = approximate_min_chunk_length c0)
    by (apply (f_equal approximate_min_chunk_length) in Hw; exact Hw).
  assert (Henc : encoded_voice_paths b64encode env_TESTING c0
                 = map (fun vcp => encode_filepath_for_url b64encode
                                     (add_file_prefix env_TESTING vcp)) vcps).
  { unfold encoded_voice_paths. rewrite <- Hv. reflexivity. }
  assert (Hrest : forall endpoint,
             expected_endpoint b64encode env_TESTING c0 txts = Some endpoint ->
             Sat kept routed_here chunks_returned
               (do sentence_chunks <-
                  lift (candidate_chunks (ctx w)
                          (map (fun vcp => encode_filepath_for_url b64encode
                                             (add_file_prefix env_TESTING vcp)) vcps)
                          txts ats);
                do _ <- mark (Chunked idx (or_20 (approximate_min_chunk_length (ctx w)))
                                sentence_chunks);
                do responses <-
                  generate_chunks port endpoint (dialogue_mode c0 txts)
                    (parameters (ctx w)) idx (length sentence_chunks) 0
                    sentence_chunks;
                do concatenated <- load_and_concatenate
                                     (map resp_output_filepath responses);
                do hex <- fresh_hex;
                do c1 <- read_ctx;
                let temp_file_path :=
                  path_join (temp_dir c1) ("concatenated_" +:+ hex +:+ ".wav") in
                do _ <- modify (fun w => with_files (<[temp_file_path := concatenated]> (files w)) w);
                do _ <- modify (with_ctx (with_parameters (parameters (ctx w))));
                do c2 <- read_ctx;
                Return (temp_file_path, sentence_chunks,
                        "Using an approximate chunk size of "
                        +:+ pretty (approximate_min_chunk_length c2) +:+ " words"))).
  { intros endpoint Hend.
    destruct (candidate_chunks _ _ _ _) as [chunks|e] eqn:Hch; [|constructor].
    cbn [lift bind mark]. apply Sat_Mark; [split; exact I|].
    assert (Hcs : Chunking.chunk_sentences txts
                    (encoded_voice_paths b64encode env_TESTING c0) ats
                    (or_20 (approximate_min_chunk_length c0)) = Ok chunks).
    { unfold candidate_chunks in Hch. rewrite Hmin in Hch. rewrite Henc.
      exact Hch. }
    eapply Sat_bind.
    - eapply generate_chunks_routed; [eassumption..|].
      apply Forall_forall. auto.
    - intros responses _.
      eapply Sat_weaken; [apply finish_candidate_routed|].
      intros r Hr. unfold returns_chunks. rewrite Hr. exact Hcs. }
  unfold expected_endpoint in Hrest. rewrite Henc in Hrest.
  destruct (dialogue_mode c0 txts).
  - cbn [bind]. apply Hrest. reflexivity.
  - destruct vcps as [|v vcps']; [constructor|].
    cbn [map bind] in *. apply Hrest. reflexivity.
Qed.

Lemma generate_sequentially_routed vps indices :
  forall candidates dbg help w tr w' r,
    kept w ->
    generate_sequentially b64encode env_TESTING_UI env_TESTING backend model
      txts vps ats indices candidates dbg help w = (tr, w', r) ->
    Forall routed_here tr.
Proof.
  induction indices as [|idx indices IH];
    intros candidates dbg help w tr w' r Hw E; simpl in E.
  - injection E as <- _ _. constructor.
  - destruct (run backend _ w) as [[tr1 w1] r1] eqn:E1.
    destruct (run_sat backend kept routed_here chunks_returned
                (keeps_config_deliver c0) _
                (generate_single_candidate_routed vps idx)
                _ _ _ _ Hw E1) as (H1 & H2 & _).
    destruct r1 as [[[result chunks] help_text]|e].
    + destruct (generate_sequentially _ _ _ _ _ _ _ _ _ _ _ _ w1)
        as [[tr2 w2] r2] eqn:E2.
      injection E as <- _ _. rewrite Forall_app. split; [exact H1|].
      eapply IH; eauto.
    + injection E as <- _ _. exact H1.
Qed.

End Routing.

(** Every observation of a generation is well sent. *)
Lemma generation_well_sent
    (b64encode : string -> string) (b64decode : string -> result string)
    (env_TESTING_UI env_TESTING : bool)
    (backend : ServiceCall -> result Response) (connected : bool)
    (schedule : list nat) (model : string) (txts vps ats : list string)
    (w : World) :
  Forall (well_sent b64encode env_TESTING_UI env_TESTING model (ctx w) txts ats)
         (fst (fst (generate_candidates_with_service_calls b64encode b64decode
                      env_TESTING_UI env_TESTING backend connected schedule
                      model txts vps ats w))).
Proof.
  assert (Hw : keeps_config (ctx w) w) by reflexivity.
  unfold generate_candidates_with_service_calls.
  destruct (negb _); [constructor|].
  destruct (_ && _).
  - destruct (gather _ _ _ _ w) as [[tr1 w1] rs] eqn:E.
    destruct (collect_successful rs [] None None) as [[cands dbg] help].
    destruct (update_context _ _ _ _ w1) as [w2 r]. simpl.
    eapply (EffectsFacts.gather_sat backend connected (keeps_config (ctx w))
              (well_sent b64encode env_TESTING_UI env_TESTING model (ctx w)
                 txts ats)
              (returns_chunks b64encode env_TESTING (ctx w) txts ats)
              (keeps_config_deliver (ctx w)));
      [|exact Hw|exact E].
    rewrite Forall_map. apply Forall_forall. intros idx _.
    apply generate_single_candidate_routed.
  - destruct (generate_sequentially _ _ _ _ _ _ _ _ _ _ _ _ w)
      as [[tr1 w1] r] eqn:E.
    assert (H : Forall (well_sent b64encode env_TESTING_UI env_TESTING model
                          (ctx w) txts ats) tr1)
      by (eapply generate_sequentially_routed; [exact Hw|exact E]).
    destruct r as [[[cands dbg] help]|e]; [|exact H].
    destruct (update_context _ _ _ _ w1) as [w2 r']. exact H.
Qed.

(** X20. In either mode and whatever the order of the answers, every
    request of a generation goes to the port [get_model_service_port] gives
    for the model (the mock port in a testing mode), and all requests go to
    one endpoint with one kind of body: the dialogue endpoint with a
    dialogue body when the step is multi-speaker and there is more than one
    text, otherwise the speech endpoint of the first encoded voice path with
    a speech body. *)
Theorem requests_are_routed_by_mode :
  forall (b64encode : string -> string) (b64decode : string -> result string)
         (env_TESTING_UI env_TESTING : bool)
         (backend : ServiceCall -> result Response) (connected : bool)
         (schedule : list nat) (model : string) (txts vps ats : list string)
         (w : World) (i : nat) (c : ServiceCall),
    Requested i c ∈ fst (fst (generate_candidates_with_service_calls b64encode
                                b64decode env_TESTING_UI env_TESTING backend
                                connected schedule model txts vps ats w)) ->
    get_model_service_port env_TESTING_UI env_TESTING model = Ok (call_port c)
    /\ expected_endpoint b64encode env_TESTING (ctx w) txts
       = Some (call_endpoint c)
    /\ is_dialogue (call_payload c) = dialogue_mode (ctx w) txts.
Proof.
  intros b64encode b64decode eUI eT backend connected schedule model txts vps
    ats w i c Hin.
  pose proof (generation_well_sent b64encode b64decode eUI eT backend connected
                schedule model txts vps ats w) as Hall.
  rewrite Forall_forall in Hall. exact (proj1 (Hall _ Hin)).
Qed.

Lemma requests_are_routed_by_mode_witness :
  exists c,
    Requested 1 c ∈ fst (fst (generate_candidates_with_service_calls demo_encode
                                demo_decode false true healthy false
                                [0; 1; 0; 1; 0; 1]%nat "chatterbox" [demo_text]
                                ["v.wav"] ["t"] (demo_world true 3)))
    /\ get_model_service_port false true "chatterbox" = Ok (call_port c)
    /\ expected_endpoint demo_encode true (ctx (demo_world true 3)) [demo_text]
       = Some (call_endpoint c)
    /\ is_dialogue (call_payload c)
       = dialogue_mode (ctx (demo_world true 3)) [demo_text].
Proof.
  pose (tr := fst (fst (generate_candidates_with_service_calls demo_encode
                          demo_decode false true healthy false
                          [0; 1; 0; 1; 0; 1]%nat "chatterbox" [demo_text]
                          ["v.wav"] ["t"] (demo_world true 3)))).
  assert (H : match List.find (fun o => match o with
                                        | Requested 1 _ => true
                                        | _ => false
                                        end) tr with
              | Some _ => True
              | None => False
              end) by (vm_compute; exact I).
  destruct (List.find _ tr) as [o|] eqn:E; [|contradiction].
  apply List.find_some in E as [Hin Ho].
  destruct o as [| | | |i c]; try discriminate Ho.
  destruct i as [|[|i]]; try discriminate Ho.
  exists c. apply list_elem_of_In in Hin. split; [exact Hin|].
  unfold tr in Hin.
  exact (requests_are_routed_by_mode demo_encode demo_decode false true healthy
           false [0; 1; 0; 1; 0; 1]%nat "chatterbox" [demo_text] ["v.wav"] ["t"]
           (demo_world true 3) 1%nat c Hin).
Defined.

(** X25. Every request of a generation is built from a chunk of the one
    chunk sequence of the generation: a dialogue body pairs each text entry
    of the chunk with its voice; a speech body holds the first text entry of
    the chunk, and no other, with the transcriptions of the chunk. *)
Theorem requests_are_built_from_chunks :
  forall (b64encode : string -> string) (b64decode : string -> result string)
         (env_TESTING_UI env_TESTING : bool)
         (backend : ServiceCall -> result Response) (connected : bool)
         (schedule : list nat) (model : string) (txts vps ats : list string)
         (w : World) (i : nat) (c : ServiceCall),
    Requested i c ∈ fst (fst (generate_candidates_with_service_calls b64encode
                                b64decode env_TESTING_UI env_TESTING backend
                                connected schedule model txts vps ats w)) ->
    exists cs chunk,
      Chunking.chunk_sentences txts
        (encoded_voice_paths b64encode env_TESTING (ctx w)) ats
        (or_20 (approximate_min_chunk_length (ctx w))) = Ok cs
      /\ chunk ∈ cs
      /\ built_from chunk (call_payload c).
Proof.
  intros b64encode b64decode eUI eT backend connected schedule model txts vps
    ats w i c Hin.
  pose proof (generation_well_sent b64encode b64decode eUI eT backend connected
                schedule model txts vps ats w) as Hall.
  rewrite Forall_forall in Hall. exact (proj2 (Hall _ Hin)).
Qed.

Lemma requests_are_built_from_chunks_witness :
  exists c cs chunk,
    Requested 0 c ∈ fst (fst (generate_candidates_with_service_calls demo_encode
                                demo_decode false true healthy false
                                [] "chatterbox" [demo_text]
                                ["v.wav"] ["t"] (demo_world false 3)))
    /\ Chunking.chunk_sentences [demo_text]
         (encoded_voice_paths demo_encode true (ctx (demo_world false 3))) ["t"]
         (or_20 (approximate_min_chunk_length (ctx (demo_world false 3))))
       = Ok cs
    /\ chunk ∈ cs
    /\ built_from chunk (call_payload c).
Proof.
  pose (tr := fst (fst (generate_candidates_with_service_calls demo_encode
                          demo_decode false true healthy false
                          [] "chatterbox" [demo_text]
                          ["v.wav"] ["t"] (demo_world false 3)))).
  assert (H : match List.find (fun o => match o with
                                        | Requested 0 _ => true
                                        | _ => false
                                        end) tr with
              | Some _ => True
              | None => False
              end) by (vm_compute; exact I).
  destruct (List.find _ tr) as [o|] eqn:E; [|contradiction].
  apply List.find_some in E as [Hin Ho].
  destruct o as [| | | |i c]; try discriminate Ho.
  destruct i as [|i]; try discriminate Ho.
  apply list_elem_of_In in Hin. unfold tr in Hin.
  destruct (requests_are_built_from_chunks demo_encode demo_decode false true
              healthy false [] "chatterbox" [demo_text] ["v.wav"] ["t"]
              (demo_world false 3) 0%nat c Hin) as (cs & chunk & H1 & H2 & H3).
  exists c, cs, chunk. auto.
Defined.

(** X26. When the texts of a generation have one voice pair and the mode
    is not the dialogue mode, every request is a speech request whose text
    is the whole of a chunk: nothing of the chunk is left out. *)
Theorem one_voice_requests_carry_whole_chunks :
  forall (b64encode : string -> string) (b64decode : string -> result string)
         (env_TESTING_UI env_TESTING : bool)
         (backend : ServiceCall -> result Response) (connected : bool)
         (schedule : list nat) (model : string) (txts vps ats : list string)
         (w : World) (i : nat) (c : ServiceCall),
    (forall p q,
        p ∈ zip (encoded_voice_paths b64encode env_TESTING (ctx w)) ats ->
        q ∈ zip (encoded_voice_paths b64encode env_TESTING (ctx w)) ats ->
        p = q) ->
    dialogue_mode (ctx w) txts = false ->
    Requested i c ∈ fst (fst (generate_candidates_with_service_calls b64encode
                                b64decode env_TESTING_UI env_TESTING backend
                                connected schedule model txts vps ats w)) ->
    exists cs chunk text output_filepath params,
      Chunking.chunk_sentences txts
        (encoded_voice_paths b64encode env_TESTING (ctx w)) ats
        (or_20 (approximate_min_chunk_length (ctx w))) = Ok cs
      /\ chunk ∈ cs
      /\ Chunking.texts chunk = [text]
      /\ call_payload c
         = TextToSpeechRequest text output_filepath params
             (Chunking.voice_transcriptions chunk).
Proof.
  intros b64encode b64decode eUI eT backend connected schedule model txts vps
    ats w i c Hone Hmode Hin.
  pose proof (generation_well_sent b64encode b64decode eUI eT backend connected
                schedule model txts vps ats w) as Hall.
  rewrite Forall_forall in Hall.
  destruct (Hall _ Hin) as [(_ & _ & Hd) (cs & chunk & Hcs & Hchunk & Hb)].
  rewrite Hmode in Hd.
  destruct (ChunkingFacts.one_voice_single_text _ _ _ _ _ _ Hone Hcs Hchunk)
    as [t Ht].
  destruct (call_payload c) as [text out params trs|]; [|discriminate Hd].
  destruct Hb as [Hhead ->]. rewrite Ht in Hhead. injection Hhead as ->.
  exists cs, chunk, text, out, params. auto.
Qed.

Lemma one_voice_requests_carry_whole_chunks_witness :
  exists c cs chunk text output_filepath params,
    Requested 0 c ∈ fst (fst (generate_candidates_with_service_calls demo_encode
                                demo_decode false true healthy false
                                [] "chatterbox" [demo_text]
                                ["v.wav"] ["t"] (demo_world false 3)))
    /\ Chunking.chunk_sentences [demo_text]
         (encoded_voice_paths demo_encode true (ctx (demo_world false 3))) ["t"]
         (or_20 (approximate_min_chunk_length (ctx (demo_world false 3))))
       = Ok cs
    /\ chunk ∈ cs
    /\ Chunking.texts chunk = [text]
    /\ call_payload c
       = TextToSpeechRequest text output_filepath params
           (Chunking.voice_transcriptions chunk).
Proof.
  pose (tr := fst (fst (generate_candidates_with_service_calls demo_encode
                          demo_decode false true healthy false
                          [] "chatterbox" [demo_text]
                          ["v.wav"] ["t"] (demo_world false 3)))).
  assert (H : match List.find (fun o => match o with
                                        | Requested 0 _ => true
                                        | _ => false
                                        end) tr with
              | Some _ => True
              | None => False
              end) by (vm_compute; exact I).
  destruct (List.find _ tr) as [o|] eqn:E; [|contradiction].
  apply List.find_some in E as [Hin Ho].
  destruct o as [| | | |i c]; try discriminate Ho.
  destruct i as [|i]; try discriminate Ho.
  apply list_elem_of_In in Hin. unfold tr in Hin.
  assert (Hone : forall p q : string * string,
             p ∈ zip (encoded_voice_paths demo_encode true
                        (ctx (demo_world false 3))) ["t"] ->
             q ∈ zip (encoded_voice_paths demo_encode true
                        (ctx (demo_world false 3))) ["t"] ->
             p = q).
  { intros p q Hp Hq.
    apply elem_of_cons in Hp as [->|Hp]; [|apply elem_of_nil in Hp; contradiction].
    apply elem_of_cons in Hq as [->|Hq]; [|apply elem_of_nil in Hq; contradiction].
    reflexivity. }
  destruct (one_voice_requests_carry_whole_chunks demo_encode demo_decode false
              true healthy false [] "chatterbox" [demo_text] ["v.wav"] ["t"]
              (demo_world false 3) 0%nat c Hone eq_refl Hin)
    as (cs & chunk & text & out & params & H1 & H2 & H3 & H4).
  exists c, cs, chunk, text, out, params. auto.
Defined.

(** *** The chunks shown for debugging *)

(** X23. For a codec that decodes what it encodes, the chunks a candidate
    got from the chunker on encoded voice paths are published readable:
    [update_context] raises no decoding error, stores the candidates, and
    stores as debug chunks the same texts and transcriptions with, for each
    encoded voice path, the prefixed path it encodes.  Its only error is the
    one for an empty candidate list. *)
Theorem debug_chunks_are_published_readable :
  forall (b64encode : string -> string) (b64decode : string -> result string)
         (env_TESTING : bool) (txts vps ats : list string) (min : Z)
         (cs : list Chunking.Chunk) (candidates : list string)
         (help : option string) (w : World),
    (forall s, b64decode (b64encode s) = Ok s) ->
    (forall s, s <> "" -> b64encode s <> "") ->
    Chunking.chunk_sentences txts
      (map (fun p => encode_filepath_for_url b64encode
                       (add_file_prefix env_TESTING p)) vps) ats min = Ok cs ->
    exists readable,
      update_context b64decode candidates (Some cs) help w
      = (with_ctx (with_debug readable (default "" help))
           (with_ctx (with_audio_candidates candidates) w),
         if Chunking.nonempty candidates then Ok tt
         else Err (Exception "No valid candidates generated"))
      /\ Forall2 (readable_of b64encode (map (add_file_prefix env_TESTING) vps))
                 readable cs.
Proof.
  intros b64encode b64decode env_TESTING txts vps ats min cs candidates help w
    Hround Hne E.
  destruct (decode_chunks b64encode b64decode Hround Hne
              (map (add_file_prefix env_TESTING) vps) cs) as (readable & Ed & Hall).
  { apply Forall_forall. intros c Hc. apply Forall_forall. intros v Hv.
    rewrite <- list_fmap_compose.
    exact (ChunkingFacts.chunk_voice_clones_from_input _ _ _ _ _ _ _ E Hc Hv). }
  exists readable. split; [|exact Hall].
  unfold update_context. rewrite Ed.
  destruct (Chunking.nonempty candidates); reflexivity.
Qed.

Lemma debug_chunks_are_published_readable_witness :
  exists readable,
    update_context demo_decode ["/tmp/run/concatenated_1.wav"]
      (Some [Chunking.mkChunk ["One two three."] ["b64:files/v.wav"] ["t"];
             Chunking.mkChunk ["Four five six."] ["b64:files/v.wav"] ["t"]])
      (Some "help") (demo_world false 3)
    = (with_ctx (with_debug readable (default "" (Some "help")))
         (with_ctx (with_audio_candidates ["/tmp/run/concatenated_1.wav"])
            (demo_world false 3)),
       if Chunking.nonempty ["/tmp/run/concatenated_1.wav"] then Ok tt
       else Err (Exception "No valid candidates generated"))
    /\ Forall2 (readable_of demo_encode (map (add_file_prefix false) ["v.wav"]))
               readable
               [Chunking.mkChunk ["One two three."] ["b64:files/v.wav"] ["t"];
                Chunking.mkChunk ["Four five six."] ["b64:files/v.wav"] ["t"]].
Proof.
  apply (debug_chunks_are_published_readable demo_encode demo_decode false
           [demo_text] ["v.wav"] ["t"] 3).
  - intros s. reflexivity.
  - intros s _. discriminate.
  - vm_compute. reflexivity.
Defined.

(** *** Candidates in parallel, some of which fail *)

Lemma collect_successful_started rs :
  forall candidates chunks help,
    collect_successful rs candidates (Some chunks) (Some help)
    = (candidates ++ survivors rs, Some chunks, Some help).
Proof.
  induction rs as [|[[[path chunks'] help']|e] rs IH];
    intros candidates chunks help; simpl.
  - rewrite app_nil_r. reflexivity.
  - rewrite IH, <- app_assoc. reflexivity.
  - apply IH.
Qed.

Lemma collect_successful_first (Q : string * list Chunking.Chunk * string -> Prop) rs :
  Forall (good_result Q) rs -> survivors rs <> [] ->
  exists path chunks help,
    collect_successful rs [] None None = (survivors rs, Some chunks, Some help)
    /\ Q (path, chunks, help).
Proof.
  induction 1 as [|[[[path chunks] help]|e] rs Hr _ IH]; simpl; intros Hne.
  - congruence.
  - exists path, chunks, help. split; [|apply Hr; reflexivity].
    apply collect_successful_started.
  - apply IH, Hne.
Qed.

(** X27. In parallel mode the failure of a candidate does not fail the
    generation: for a codec that decodes what it encodes, as soon as one
    candidate survives the generation succeeds, the candidates of the
    context are the artifacts of the survivors in the order of the
    candidates, whatever the order of the answers, and the debug chunks are
    the readable form of the chunk sequence. *)
Theorem parallel_generation_succeeds_with_a_survivor :
  forall (b64encode : string -> string) (b64decode : string -> result string)
         (env_TESTING_UI env_TESTING : bool)
         (backend : ServiceCall -> result Response) (connected : bool)
         (schedule : list nat) (model : string) (txts vps ats : list string)
         (w w1 : World) (tr : list Obs)
         (rs : list (result (string * list Chunking.Chunk * string))),
    (forall s, b64decode (b64encode s) = Ok s) ->
    (forall s, s <> "" -> b64encode s <> "") ->
    enable_parallel (ctx w) = true -> (1 < num_candidates (ctx w))%Z ->
    length txts = length vps -> length vps = length ats ->
    gather backend connected schedule
      (map (generate_single_candidate_via_service b64encode env_TESTING_UI
              env_TESTING model txts vps ats)
           (py_range (num_candidates (ctx w)))) w = (tr, w1, rs) ->
    survivors rs <> [] ->
    exists w2 cs,
      generate_candidates_with_service_calls b64encode b64decode env_TESTING_UI
        env_TESTING backend connected schedule model txts vps ats w
      = (tr, w2, Ok tt)
      /\ audio_candidates (ctx w2) = survivors rs
      /\ Chunking.chunk_sentences txts
           (encoded_voice_paths b64encode env_TESTING (ctx w)) ats
           (or_20 (approximate_min_chunk_length (ctx w))) = Ok cs
      /\ Forall2 (readable_of b64encode
                    (map (add_file_prefix env_TESTING)
                         (default [] (voice_clone_paths (ctx w)))))
                 (debug_chunks (ctx w2)) cs
      /\ heap w2 = heap w1 /\ files w2 = files w1.
Proof.
  intros b64encode b64decode eUI eT backend connected schedule model txts vps
    ats w w1 tr rs Hround Hne Hpar Hn Hl1 Hl2 Hg Hsurv.
  assert (Hw : keeps_config (ctx w) w) by reflexivity.
  assert (Hrs : Forall (good_result (returns_chunks b64encode eT (ctx w) txts ats))
                   rs).
  { eapply (EffectsFacts.gather_sat backend connected (keeps_config (ctx w))
              (well_sent b64encode eUI eT model (ctx w) txts ats)
              (returns_chunks b64encode eT (ctx w) txts ats)
              (keeps_config_deliver (ctx w))); [|exact Hw|exact Hg].
    rewrite Forall_map. apply Forall_forall. intros idx _.
    apply generate_single_candidate_routed. }
  destruct (collect_successful_first _ rs Hrs Hsurv)
    as (path & chunks & help & Hcol & Hcs).
  unfold returns_chunks in Hcs. simpl in Hcs.
  destruct (decode_chunks b64encode b64decode Hround Hne
              (map (add_file_prefix eT) (default [] (voice_clone_paths (ctx w))))
              chunks) as (readable & Ed & Hall).
  { apply Forall_forall. intros c Hc. apply Forall_forall. intros v Hv.
    rewrite <- list_fmap_compose.
    exact (ChunkingFacts.chunk_voice_clones_from_input _ _ _ _ _ _ _ Hcs Hc Hv). }
  exists (with_ctx (with_debug readable help)
            (with_ctx (with_audio_candidates (survivors rs)) w1)), chunks.
  split; [|auto].
  unfold generate_candidates_with_service_calls.
  rewrite Hl1, Hl2, !Nat.eqb_refl. simpl negb. cbv iota.
  apply Z.ltb_lt in Hn. rewrite Hpar, Hn. simpl andb. cbv iota.
  rewrite Hg, Hcol. unfold update_context. rewrite Ed.
  destruct (survivors rs); [congruence|reflexivity].
Qed.

Lemma parallel_generation_succeeds_with_a_survivor_witness :
  exists tr w2 cs rs,
    demo_generate (fails_on_seed 100) [0; 1; 0; 1; 0; 1]%nat (demo_world true 3)
    = (tr, w2, Ok tt)
    /\ audio_candidates (ctx w2) = survivors rs
    /\ length (survivors rs) = 1%nat
    /\ Chunking.chunk_sentences [demo_text]
         (encoded_voice_paths demo_encode true (ctx (demo_world true 3))) ["t"]
         (or_20 (approximate_min_chunk_length (ctx (demo_world true 3)))) = Ok cs
    /\ Forall2 (readable_of demo_encode
                  (map (add_file_prefix true)
                       (default [] (voice_clone_paths (ctx (demo_world true 3))))))
               (debug_chunks (ctx w2)) cs.
Proof.
  pose (g := gather (fails_on_seed 100) false [0; 1; 0; 1; 0; 1]%nat
               (map (generate_single_candidate_via_service demo_encode false
                       true "chatterbox" [demo_text] ["v.wav"] ["t"])
                    (py_range (num_candidates (ctx (demo_world true 3)))))
               (demo_world true 3)).
  assert (Hs : length (survivors (snd g)) = 1%nat) by (vm_compute; reflexivity).
  destruct g as [[tr w1] rs] eqn:E. simpl in Hs.
  destruct (parallel_generation_succeeds_with_a_survivor demo_encode demo_decode
              false true (fails_on_seed 100) false [0; 1; 0; 1; 0; 1]%nat
              "chatterbox" [demo_text] ["v.wav"] ["t"] (demo_world true 3) w1 tr rs)
    as (w2 & cs & H1 & H2 & H3 & H4 & _);
    [intros s; reflexivity|intros s _; discriminate|reflexivity|reflexivity
    |reflexivity|reflexivity|exact E|destruct (survivors rs); [discriminate Hs|discriminate]|].
  exists tr, w2, cs, rs. auto.
Defined.

(** *** Candidates one after the other: all or nothing *)

Section AllOrNothing.
Import EffectsFacts.
Variable b64encode : string -> string.
Variable b64decode : string -> result string.
Variable env_TESTING_UI env_TESTING : bool.
Variable backend : ServiceCall -> result Response.
Variable model : string.
Variable c0 : StepContext.
Variable txts vps ats : list string.

Local Abbreviation chunks_of_generation :=
  (fun chunks : list Chunking.Chunk =>
     Chunking.chunk_sentences txts
       (encoded_voice_paths b64encode env_TESTING c0) ats
       (or_20 (approximate_min_chunk_length c0)) = Ok chunks).

Lemma generate_sequentially_outcome indices :
  forall candidates dbg help w tr w' r,
    keeps_config c0 w ->
    (forall chunks, dbg = Some chunks -> chunks_of_generation chunks) ->
    generate_sequentially b64encode env_TESTING_UI env_TESTING backend model
      txts vps ats indices candidates dbg help w = (tr, w', r) ->
    keeps_config c0 w'
    /\ forall candidates' dbg' help',
         r = Ok (candidates', dbg', help') ->
         length candidates' = (length candidates + length indices)%nat
         /\ (forall chunks, dbg' = Some chunks -> chunks_of_generation chunks)
         /\ (indices <> [] -> dbg' <> None).
Proof.
  induction indices as [|idx indices IH];
    intros candidates dbg help w tr w' r Hw Hdbg E; simpl in E.
  - injection E as <- <- <-. split; [exact Hw|].
    intros candidates' dbg' help' [= <- <- <-]. simpl.
    split; [lia|]. split; [exact Hdbg|congruence].
  - destruct (run backend _ w) as [[tr1 w1] r1] eqn:E1.
    destruct (run_sat backend (keeps_config c0)
                (well_sent b64encode env_TESTING_UI env_TESTING model c0 txts ats)
                (returns_chunks b64encode env_TESTING c0 txts ats)
                (keeps_config_deliver c0) _
                (generate_single_candidate_routed b64encode env_TESTING_UI
                   env_TESTING model c0 txts ats vps idx)
                _ _ _ _ Hw E1) as (_ & Hw1 & Hr1).
    destruct r1 as [[[result chunks] help_text]|e].
    + destruct (generate_sequentially _ _ _ _ _ _ _ _ _ _ _ _ w1)
        as [[tr2 w2] r2] eqn:E2.
      injection E as <- <- <-.
      specialize (Hr1 _ eq_refl). unfold returns_chunks in Hr1. simpl in Hr1.
      destruct (IH _ _ _ _ _ _ _ Hw1
                  (fun chunks' (H : Some (default chunks dbg) = Some chunks') =>
                     ltac:(injection H as <-; destruct dbg; simpl; auto)) E2)
        as [Hw2 Hok].
      split; [exact Hw2|]. intros candidates' dbg' help' Hr2.
      destruct (Hok _ _ _ Hr2) as (Hlen & Hd & Hsome).
      rewrite length_app in Hlen. simpl in *. split; [lia|]. split; [exact Hd|].
      intros _. destruct indices as [|i indices'].
      * simpl in E2. injection E2 as _ _ <-. injection Hr2 as _ <- _. discriminate.
      * apply Hsome. discriminate.
    + injection E as <- <- <-. split; [exact Hw1|]. intros ? ? ? [=].
Qed.

End AllOrNothing.

(** X29. One candidate after the other (parallel mode off, or a single
    candidate), with at least one candidate and a codec that decodes what
    it encodes, the generation is all or nothing: either it succeeds and
    the context holds exactly [num_candidates] candidates, or it raises and
    the candidates of the context are what they were before. *)
Theorem sequential_generation_is_all_or_nothing :
  forall (b64encode : string -> string) (b64decode : string -> result string)
         (env_TESTING_UI env_TESTING : bool)
         (backend : ServiceCall -> result Response) (connected : bool)
         (schedule : list nat) (model : string) (txts vps ats : list string)
         (w : World),
    (forall s, b64decode (b64encode s) = Ok s) ->
    (forall s, s <> "" -> b64encode s <> "") ->
    enable_parallel (ctx w) && (1 <? num_candidates (ctx w))%Z = false ->
    (0 < num_candidates (ctx w))%Z ->
    exists tr w' r,
      generate_candidates_with_service_calls b64encode b64decode env_TESTING_UI
        env_TESTING backend connected schedule model txts vps ats w
      = (tr, w', r)
      /\ match r with
         | Ok _ =>
             length (audio_candidates (ctx w'))
             = Z.to_nat (num_candidates (ctx w))
         | Err _ => audio_candidates (ctx w') = audio_candidates (ctx w)
         end.
Proof.
  intros b64encode b64decode eUI eT backend connected schedule model txts vps
    ats w Hround Hne Hseq Hn.
  unfold generate_candidates_with_service_calls.
  destruct (negb _); [eexists _, _, _; split; reflexivity|]. rewrite Hseq.
  destruct (generate_sequentially _ _ _ _ _ _ _ _ _ _ _ _ w)
    as [[tr1 w1] r] eqn:E.
  destruct (generate_sequentially_outcome b64encode eUI eT backend model (ctx w)
              txts vps ats _ _ _ _ _ _ _ _ eq_refl
              (fun chunks (H : None = Some chunks) => ltac:(discriminate H)) E)
    as [Hw1 Hok].
  destruct r as [[[cands dbg] help]|e].
  2:{ eexists _, _, _. split; [reflexivity|].
      apply (f_equal audio_candidates) in Hw1. exact Hw1. }
  destruct (Hok _ _ _ eq_refl) as (Hlen & Hd & Hsome).
  unfold py_range in Hlen, Hsome. rewrite length_seq in Hlen. simpl in Hlen.
  destruct dbg as [chunks|].
  2:{ exfalso. apply Hsome; [|reflexivity].
      destruct (Z.to_nat (num_candidates (ctx w))) eqn:Hz; [lia|discriminate]. }
  destruct (decode_chunks b64encode b64decode Hround Hne
              (map (add_file_prefix eT) (default [] (voice_clone_paths (ctx w))))
              chunks) as (readable & Ed & _).
  { apply Forall_forall. intros c Hc. apply Forall_forall. intros v Hv.
    rewrite <- list_fmap_compose.
    exact (ChunkingFacts.chunk_voice_clones_from_input _ _ _ _ _ _ _
             (Hd _ eq_refl) Hc Hv). }
  unfold update_context. rewrite Ed.
  destruct cands as [|cand cands']; [simpl in Hlen; lia|].
  eexists _, _, _. split; [reflexivity|]. exact Hlen.
Qed.

Lemma sequential_generation_is_all_or_nothing_witness :
  exists tr w' r,
    demo_generate (fails_on_seed 101) [] (demo_world false 3) = (tr, w', r)
    /\ match r with
       | Ok _ =>
           length (audio_candidates (ctx w'))
           = Z.to_nat (num_candidates (ctx (demo_world false 3)))
       | Err _ =>
           audio_candidates (ctx w') = audio_candidates (ctx (demo_world false 3))
       end.
Proof.
  apply (sequential_generation_is_all_or_nothing demo_encode demo_decode false
           true (fails_on_seed 101) false [] "chatterbox" [demo_text] ["v.wav"]
           ["t"] (demo_world false 3)).
  - intros s. reflexivity.
  - intros s _. discriminate.
  - reflexivity.
  - reflexivity.
Defined.

End GenerationFacts.
